(** * orbs-tee-host: retry policy, guardian submitter and framed transport

    A shallow embedding of
      - [utils/retry.ts]  ([retryWithBackoff]; second half of
        [src/unnamed/part_002], after [utils/errors.ts]),
      - [l3/client.ts]    ([L3Client]; first half of [src/unnamed/part_003]),
      - [src/src/vsock/client.ts]  ([UnixSocketClient], [VsocketClient]),
    followed by the properties the specification states about them.

    Conventions.  A promise-returning function becomes a function that
    returns an [outcome] together with the list of effects it performed.
    What the outside world answers (the wrapped operation, the HTTP peer,
    the enclave socket) is an explicit oracle argument, indexed by the number
    of interactions made so far, so every sequence of answers is covered.
    JavaScript [number]s that hold counts, delays and lengths are integers
    ([Z], [N]); rejections are [Error] objects, as the casts [error as Error]
    in the source assume. *)

From Stdlib Require Import ZArith NArith List String Ascii Bool Lia.
From Stdlib.Strings Require Import Byte.
From Stdlib Require DecimalString.
Import ListNotations.

Set Warnings "-register-all".
Local Open Scope string_scope.
Local Open Scope list_scope.

Infix "^^" := String.append (at level 60, right associativity).

(* ================================================================== *)
(** * JavaScript values, errors and outcomes                            *)
(* ================================================================== *)

Module JS.

(** [src/utils/errors.ts]: every error class only sets [name] and [message]. *)
Record Error := mkError { name : string; message : string }.

Definition VsocketError (msg : string) : Error := mkError "VsocketError" msg.
Definition L3Error (msg : string) : Error := mkError "L3Error" msg.
Definition TypeError (msg : string) : Error := mkError "TypeError" msg.
Definition RangeError (msg : string) : Error := mkError "RangeError" msg.

(** How an awaited call ends.  [Thrown None] is a rejection with the value
    [undefined] ([throw lastError] with [lastError] never assigned);
    [Pending] is a promise that never settles. *)
Inductive outcome (A : Type) : Type :=
| Returned (a : A)
| Thrown (reason : option Error)
| Pending.
Arguments Returned {A} a.
Arguments Thrown {A} reason.
Arguments Pending {A}.

(** The structured values that travel as [any] ([params], [data],
    [response.data]). *)
Inductive jsval : Type :=
| JUndefined
| JNull
| JBool (b : bool)
| JNumber (z : Z)
| JString (s : string)
| JArray (items : list jsval)
| JObject (fields : list (string * jsval)).

Fixpoint lookup_field (k : string) (fields : list (string * jsval)) : jsval :=
  match fields with
  | [] => JUndefined
  | (k', v) :: rest => if String.eqb k k' then v else lookup_field k rest
  end.

(** [v.k]: a [TypeError] on [undefined] and [null], [undefined] when the
    property is absent. *)
Definition get_prop (v : jsval) (k : string) : Error + jsval :=
  match v with
  | JUndefined =>
      inl (TypeError ("Cannot read properties of undefined (reading '" ^^ k ^^ "')"))
  | JNull =>
      inl (TypeError ("Cannot read properties of null (reading '" ^^ k ^^ "')"))
  | JObject fields => inr (lookup_field k fields)
  | _ => inr JUndefined
  end.

(** Conversion to a primitive, which [new Date(v)] and a template literal
    start with.  On a value that came out of [JSON.parse] it throws a
    [TypeError] exactly when it meets an object with a property of its own
    named [toString], which is then no function; an array converts its
    elements, [null] and [undefined] excepted. *)
Fixpoint printable (v : jsval) : bool :=
  match v with
  | JArray items =>
      forallb (fun item =>
                 match item with
                 | JNull | JUndefined => true
                 | _ => printable item
                 end) items
  | JObject fields =>
      negb (existsb (fun field => String.eqb (fst field) "toString") fields)
  | _ => true
  end.

Definition to_primitive (v : jsval) : option Error :=
  if printable v then None
  else Some (TypeError "Cannot convert object to primitive value").

(** [s || fallback] on strings: the empty string is falsy. *)
Definition or_else (s : option string) (fallback : string) : string :=
  match s with
  | Some EmptyString | None => fallback
  | Some m => m
  end.

End JS.

(* ================================================================== *)
(** * src/utils/retry.ts                                                *)
(* ================================================================== *)

Module Retry.
Import JS.

(** [onRetry] is a callback: it may itself throw, which [Some e] records. *)
Record RetryOptions := mkRetryOptions {
  maxAttempts : Z;
  delayMs : Z;
  backoffMultiplier : Z;
  onRetry : option (Z -> Error -> option Error)
}.

(** What the wrapper does, in order. *)
Inductive event : Type :=
| Invoked (attempt : Z)
| Observed (attempt : Z) (error : Error)
| Slept (ms : Z).

(** What one call of the wrapped operation answers. *)
Inductive answer (T : Type) : Type :=
| Resolves (result : T)
| Rejects (error : Error)
| NeverSettles.
Arguments Resolves {T} result.
Arguments Rejects {T} error.
Arguments NeverSettles {T}.

Section RetryWithBackoff.
Context {W T : Type}.
(** The operation acts on the world [W] it closes over. *)
Variable operation : W -> answer T * W.
Variable options : RetryOptions.

(** [for (let attempt = 1; attempt <= options.maxAttempts; attempt++)]:
    [remaining] counts the iterations the guard still lets through; from
    [attempt = 1] that is [maxAttempts] of them, none when
    [maxAttempts < 1]. *)
Fixpoint retry_loop (remaining : nat) (w : W) (attempt delay : Z)
    (lastError : option Error) : outcome T * W * list event :=
  match remaining with
  | O => (Thrown lastError, w, [])
  | S remaining' =>
      match operation w with
      | (Resolves result, w1) => (Returned result, w1, [Invoked attempt])
      | (NeverSettles, w1) => (Pending, w1, [Invoked attempt])
      | (Rejects error, w1) =>
          if (attempt <? maxAttempts options)%Z then
            match onRetry options with
            | Some callback =>
                match callback attempt error with
                | Some escaped =>
                    (Thrown (Some escaped), w1,
                     [Invoked attempt; Observed attempt error])
                | None =>
                    let '(r, w2, tr) :=
                      retry_loop remaining' w1 (attempt + 1)
                        (delay * backoffMultiplier options) (Some error) in
                    (r, w2, Invoked attempt :: Observed attempt error
                              :: Slept delay :: tr)
                end
            | None =>
                let '(r, w2, tr) :=
                  retry_loop remaining' w1 (attempt + 1)
                    (delay * backoffMultiplier options) (Some error) in
                (r, w2, Invoked attempt :: Slept delay :: tr)
            end
          else
            let '(r, w2, tr) :=
              retry_loop remaining' w1 (attempt + 1) delay (Some error) in
            (r, w2, Invoked attempt :: tr)
      end
  end.

Definition retryWithBackoff (w : W) : outcome T * W * list event :=
  retry_loop (Z.to_nat (maxAttempts options)) w 1 (delayMs options) None.

(** The world after [n] calls of the operation, and what call number [n]
    (counted from 0) answers. *)
Fixpoint world_after (n : nat) (w : W) : W :=
  match n with
  | O => w
  | S n' => world_after n' (snd (operation w))
  end.

Definition nth_answer (w : W) (n : nat) : answer T :=
  fst (operation (world_after n w)).

End RetryWithBackoff.

Definition fails {T : Type} (a : answer T) : Prop :=
  match a with Rejects _ => True | _ => False end.

(** Reading a trace. *)
Definition is_invocation (ev : event) : bool :=
  match ev with Invoked _ => true | _ => false end.

Definition invocations (tr : list event) : nat :=
  List.length (filter is_invocation tr).

Fixpoint sleeps (tr : list event) : list Z :=
  match tr with
  | [] => []
  | Slept ms :: rest => ms :: sleeps rest
  | _ :: rest => sleeps rest
  end.

(** Calls and delays only: the observer's events removed. *)
Definition timeline (tr : list event) : list event :=
  filter (fun ev => match ev with Observed _ _ => false | _ => true end) tr.

(** The observer is absent or never throws. *)
Definition observer_quiet (options : RetryOptions) : Prop :=
  match onRetry options with
  | Some callback => forall attempt error, callback attempt error = None
  | None => True
  end.

(** The schedule in the specification's words: [j] attempts, and between
    attempt [k] and attempt [k+1] a wait of
    [initialDelay * backoffMultiplier^(k-1)]. *)
Fixpoint spec_schedule_from (initialDelay multiplier : Z) (k : Z) (remaining : nat)
    : list event :=
  match remaining with
  | O => [Invoked k]
  | S n =>
      Invoked k :: Slept (initialDelay * multiplier ^ (k - 1))
        :: spec_schedule_from initialDelay multiplier (k + 1) n
  end.

Definition spec_schedule (initialDelay multiplier : Z) (j : nat) : list event :=
  spec_schedule_from initialDelay multiplier 1 (pred j).

End Retry.

(* ================================================================== *)
(** * src/l3/client.ts                                                  *)
(* ================================================================== *)

Module L3.
Import JS.

(** [Buffer.prototype.toString('base64')]. *)
Definition base64_alphabet : string :=
  "ABCDEFGHIJKLMNOPQRSTUVWXYZabcdefghijklmnopqrstuvwxyz0123456789+/".

Definition base64_digit (n : N) : ascii :=
  match String.get (N.to_nat n) base64_alphabet with
  | Some c => c
  | None => "="%char
  end.

Fixpoint base64 (bytes : list byte) : string :=
  match bytes with
  | [] => EmptyString
  | [a] =>
      let n := Byte.to_N a in
      String (base64_digit (n / 4))
        (String (base64_digit (n mod 4 * 16)) "==")
  | [a; b] =>
      let n := (Byte.to_N a * 256 + Byte.to_N b)%N in
      String (base64_digit (n / 1024))
        (String (base64_digit (n / 16 mod 64))
           (String (base64_digit (n mod 16 * 4)) "="))
  | a :: b :: c :: rest =>
      let n := (Byte.to_N a * 65536 + Byte.to_N b * 256 + Byte.to_N c)%N in
      String (base64_digit (n / 262144))
        (String (base64_digit (n / 4096 mod 64))
           (String (base64_digit (n / 64 mod 64))
              (String (base64_digit (n mod 64)) (base64 rest))))
  end.

(** Decimal text of a number, as template literals print it. *)
Definition decimal (n : N) : string :=
  DecimalString.NilEmpty.string_of_uint (N.to_uint n).

Record L3Config := mkL3Config {
  endpoints : list string;
  timeoutMs : Z
}.

Record AttestationBundle := mkBundle {
  attestationDoc : list byte;
  certificateChain : list (list byte);
  enclavePublicKey : string;
  tappId : string
}.

(** A [Date] object, by the argument it was made from. *)
Inductive jsdate : Type := NewDate (arg : jsval).

(** [new Date(v)] converts [v] to a primitive first. *)
Definition new_Date (v : jsval) : Error + jsdate :=
  match to_primitive v with
  | Some e => inl e
  | None => inr (NewDate v)
  end.

Record AttestationSubmission := mkSubmission {
  attestationId : jsval;
  submissionTime : jsdate;
  status : jsval
}.

Inductive http_method : Type := GET | POST.

Record request := mkRequest {
  rq_method : http_method;
  rq_url : string;
  rq_body : option jsval;
  rq_timeout : Z;
  rq_headers : list (string * string)
}.

(** What the network does with one request: the connection fails, no
    answer comes (not before the time limit of the request runs out, if it
    has one), or a response comes. *)
Inductive reply : Type :=
| NetworkError (msg : string)
| TimedOut
| Response (code : N) (data : jsval).

(** The HTTP peer: its reply to a request, given how many requests axios was
    handed before. *)
Definition network := nat -> request -> reply.

(** How Node prints an integer in the message of an out-of-range error:
    beyond 2^32 the digits are grouped in threes. *)
Fixpoint separated (reversed : list ascii) : list ascii :=
  match reversed with
  | a :: b :: c :: ((_ :: _) as more) => a :: b :: c :: "_"%char :: separated more
  | short => short
  end.

Definition received (magnitude : N) : string :=
  if (4294967296 <? magnitude)%N then
    string_of_list_ascii
      (rev (separated (rev (list_ascii_of_string (decimal magnitude)))))
  else decimal magnitude.

(** What Node says of a negative time limit. *)
Definition msecs_out_of_range (timeout : Z) : string :=
  "The value of " ^^ String "034"%char ("msecs" ^^ String "034"%char
    (" is out of range. It must be a non-negative finite number. Received -"
       ^^ received (Z.to_N (- timeout)))).

(** axios with its default [validateStatus]: the promise resolves on a 2xx
    status and rejects otherwise; only [response.data] is read by callers.
    A [timeout] of 0 means no time limit: when no answer comes the
    promise then never settles.  A negative [timeout] is refused by Node
    when axios sets it on the request, before the request is sent off: the
    promise then rejects with Node's [RangeError], whatever the network
    would have answered. *)
Definition axios (rq : request) (r : reply) : outcome jsval :=
  if (rq_timeout rq <? 0)%Z then
    Thrown (Some (RangeError (msecs_out_of_range (rq_timeout rq))))
  else
    match r with
    | NetworkError msg => Thrown (Some (mkError "AxiosError" msg))
    | TimedOut =>
        if (rq_timeout rq =? 0)%Z then Pending
        else
          Thrown (Some (mkError "AxiosError"
                          ("timeout of " ^^ decimal (Z.to_N (rq_timeout rq))
                             ^^ "ms exceeded")))
    | Response code data =>
        if ((200 <=? code) && (code <? 300))%N then Returned data
        else Thrown (Some (mkError "AxiosError"
                             ("Request failed with status code " ^^ decimal code)))
    end.

Definition submit_payload (bundle : AttestationBundle) : jsval :=
  JObject
    [ ("attestation_doc", JString (base64 (attestationDoc bundle)));
      ("certificate_chain",
        JArray (map (fun cert => JString (base64 cert)) (certificateChain bundle)));
      ("enclave_public_key", JString (enclavePublicKey bundle));
      ("tapp_id", JString (tappId bundle)) ].

Definition submit_request (config : L3Config) (payload : jsval)
    (endpoint : string) : request :=
  {| rq_method := POST;
     rq_url := endpoint ^^ "/attestation/submit";
     rq_body := Some payload;
     rq_timeout := timeoutMs config;
     rq_headers := [("Content-Type", "application/json")] |}.

(** The object literal built from [response.data]. *)
Definition read_submission (data : jsval) : Error + AttestationSubmission :=
  match get_prop data "attestation_id" with
  | inl e => inl e
  | inr attestation_id =>
      match get_prop data "submission_time" with
      | inl e => inl e
      | inr submission_time =>
          match new_Date submission_time with
          | inl e => inl e
          | inr date =>
              match get_prop data "status" with
              | inl e => inl e
              | inr st =>
                  inr {| attestationId := attestation_id;
                         submissionTime := date;
                         status := st |}
              end
          end
      end
  end.

(** The [try] block for one endpoint: what it returns, what it throws
    into the [catch] block, or that it never gets past the [await]. *)
Definition try_endpoint (net : network) (config : L3Config) (payload : jsval)
    (sent : nat) (endpoint : string) : outcome AttestationSubmission :=
  let rq := submit_request config payload endpoint in
  match axios rq (net sent rq) with
  | Returned data =>
      match read_submission data with
      | inr submission => Returned submission
      | inl e => Thrown (Some e)
      end
  | Thrown reason => Thrown reason
  | Pending => Pending
  end.

(** [for (const endpoint of this.config.endpoints)]; the [catch] block
    reads [message] off what it caught. *)
Fixpoint submit_loop (net : network) (config : L3Config) (payload : jsval)
    (remaining : list string) (sent : nat) (lastError : option Error)
    : outcome AttestationSubmission * list request :=
  match remaining with
  | [] =>
      (Thrown (Some (L3Error ("All guardians unreachable: "
                               ^^ or_else (option_map message lastError)
                                    "unknown error"))), [])
  | endpoint :: rest =>
      let rq := submit_request config payload endpoint in
      match try_endpoint net config payload sent endpoint with
      | Returned submission => (Returned submission, [rq])
      | Pending => (Pending, [rq])
      | Thrown (Some error) =>
          let '(r, tr) := submit_loop net config payload rest (S sent) (Some error) in
          (r, rq :: tr)
      | Thrown None =>
          (Thrown (Some (TypeError
                           "Cannot read properties of undefined (reading 'message')")),
           [rq])
      end
  end.

Definition submitAttestation (net : network) (config : L3Config)
    (bundle : AttestationBundle) : outcome AttestationSubmission * list request :=
  submit_loop net config (submit_payload bundle) (endpoints config) 0 None.

Definition health_request (endpoint : string) : request :=
  {| rq_method := GET;
     rq_url := endpoint ^^ "/health";
     rq_body := None;
     rq_timeout := 5000;
     rq_headers := [] |}.

(** One callback of [endpoints.map(async (endpoint) => ...)]: its own
    [try]/[catch] turns every failure into [false]. *)
Definition probe (net : network) (sent : nat) (endpoint : string) : outcome bool :=
  match axios (health_request endpoint) (net sent (health_request endpoint)) with
  | Returned _ => Returned true
  | Thrown _ => Returned false
  | Pending => Pending
  end.

Fixpoint probe_all (net : network) (sent : nat) (eps : list string)
    : list (outcome bool) :=
  match eps with
  | [] => []
  | endpoint :: rest => probe net sent endpoint :: probe_all net (S sent) rest
  end.

(** [Promise.all]: the values of the promises once all are fulfilled; a
    rejection as soon as there is one. *)
Fixpoint Promise_all {A : Type} (promises : list (outcome A)) : outcome (list A) :=
  match promises with
  | [] => Returned []
  | Returned a :: rest =>
      match Promise_all rest with
      | Returned values => Returned (a :: values)
      | Thrown reason => Thrown reason
      | Pending => Pending
      end
  | Thrown reason :: _ => Thrown reason
  | Pending :: rest =>
      match Promise_all rest with
      | Thrown reason => Thrown reason
      | _ => Pending
      end
  end.

Record health := mkHealth { reachable : nat; total : nat }.

(** [map] starts every probe before any answer is in, so the requests sent
    do not depend on the answers; [Promise.all] gathers the booleans. *)
Definition checkGuardiansHealth (net : network) (config : L3Config)
    : outcome health * list request :=
  (match Promise_all (probe_all net 0 (endpoints config)) with
   | Returned results =>
       Returned {| reachable := List.length (filter (fun r => r) results);
                   total := List.length (endpoints config) |}
   | Thrown reason => Thrown reason
   | Pending => Pending
   end,
   map health_request (endpoints config)).


(** Reading a run: every endpoint of the list fails its attempt, the
    [i]-th one being tried after [i] earlier requests. *)
Definition every_endpoint_fails (net : network) (config : L3Config)
    (payload : jsval) (sent : nat) (eps : list string) : Prop :=
  forall i endpoint,
    nth_error eps i = Some endpoint ->
    exists err,
      try_endpoint net config payload (sent + i) endpoint = Thrown (Some err).

(** "every configured endpoint fails (network error, non-success HTTP
    status, or an error while reading the response)": the reply to a POST
    is of no use.  A reply that does not come counts when the request has
    a time limit, and with a negative time limit no reply is of use. *)
Definition unusable (timeout : Z) (r : reply) : Prop :=
  (timeout < 0)%Z
  \/ match r with
     | NetworkError _ => True
     | TimedOut => timeout <> 0%Z
     | Response code data =>
         ~ (200 <= code < 300)%N
         \/ data = JNull
         \/ data = JUndefined
         \/ exists fields,
              data = JObject fields
              /\ printable (lookup_field "submission_time" fields) = false
     end.

(** "Any 2xx response counts as reachable; anything else (including
    network error or timeout) counts as unreachable." *)
Definition responds_ok (r : reply) : bool :=
  match r with
  | Response code _ => ((200 <=? code) && (code <? 300))%N
  | _ => false
  end.

(** The endpoints, each with its position in the list. *)
Definition numbered (sent : nat) (eps : list string) : list (nat * string) :=
  combine (seq sent (List.length eps)) eps.

Definition healthy (net : network) (probe : nat * string) : bool :=
  responds_ok (net (fst probe) (health_request (snd probe))).

End L3.

(* ================================================================== *)
(** * src/vsock/client.ts: the wire format                              *)
(* ================================================================== *)

Module Wire.
Import JS.

Record TeeRequest := mkTeeRequest {
  id : string;
  method : string;
  params : jsval;
  timestamp : Z
}.

(** The request object handed to [JSON.stringify]. *)
Definition request_value (r : TeeRequest) : jsval :=
  JObject
    [ ("id", JString (id r));
      ("method", JString (method r));
      ("params", params r);
      ("timestamp", JNumber (timestamp r)) ].

(** The JavaScript runtime's serializer and text codec, which the
    repository calls but does not define.  [JSON_parse] answers [inl msg]
    when it throws a [SyntaxError] with message [msg]. *)
Class Runtime := {
  JSON_stringify : jsval -> string;
  JSON_parse : string -> string + jsval;
  Buffer_from_utf8 : string -> list byte;
  toString_utf8 : list byte -> string
}.

Definition byte_of_N (n : N) : byte :=
  match Byte.of_N (n mod 256) with
  | Some b => b
  | None => x00
  end.

(** The four bytes of a 32-bit value, most significant first. *)
Definition uint32_bytes (value : N) : list byte :=
  [ byte_of_N (value / 16777216); byte_of_N (value / 65536);
    byte_of_N (value / 256); byte_of_N value ].

(** [buf.writeUInt32BE(value, 0)] on a fresh 4-byte buffer; [None] is the
    [RangeError] Node raises for a value above [2^32 - 1]. *)
Definition writeUInt32BE (value : N) : option (list byte) :=
  if (value <? 4294967296)%N then Some (uint32_bytes value) else None.

(** [buf.readUInt32BE(0)] once the four bytes are at hand. *)
Definition uint32BE (b0 b1 b2 b3 : byte) : N :=
  (Byte.to_N b0 * 16777216 + Byte.to_N b1 * 65536
   + Byte.to_N b2 * 256 + Byte.to_N b3)%N.

(** [buf.slice(start, stop)] and [buf.slice(start)], for [start <= stop]. *)
Definition slice (start stop : nat) (buf : list byte) : list byte :=
  firstn (stop - start) (skipn start buf).

Definition slice_from (start : nat) (buf : list byte) : list byte :=
  skipn start buf.

(** A frame on the wire: the length of the payload, then the payload. *)
Definition frame_bytes (payload : list byte) : list byte :=
  uint32_bytes (N.of_nat (List.length payload)) ++ payload.

(** A buffer that does not start with a complete frame. *)
Definition incomplete (buf : list byte) : Prop :=
  match buf with
  | b0 :: b1 :: b2 :: b3 :: _ =>
      (N.of_nat (List.length buf) < 4 + uint32BE b0 b1 b2 b3)%N
  | _ => True
  end.

Section Framing.
Context {rt : Runtime}.

(** [Buffer.from(JSON.stringify(msg), 'utf-8')] *)
Definition serialize (msg : TeeRequest) : list byte :=
  Buffer_from_utf8 (JSON_stringify (request_value msg)).

(** [writeMessage] up to the write itself: the bytes of [combined], or
    [None] when [writeUInt32BE] raises. *)
Definition encode_frame (msg : TeeRequest) : option (list byte) :=
  let jsonBuffer := serialize msg in
  match writeUInt32BE (N.of_nat (List.length jsonBuffer)) with
  | Some lengthBuffer => Some (lengthBuffer ++ jsonBuffer)
  | None => None
  end.

(** [JSON.parse(messageBuffer.toString('utf-8'))] *)
Definition deserialize (messageBuffer : list byte) : string + jsval :=
  JSON_parse (toString_utf8 messageBuffer).

End Framing.

(** What the socket layer does and what promises are settled. *)
Inductive effect : Type :=
| Created (sock : nat)
| Destroyed (sock : nat)
| Ended (sock : nat)
| Wrote (sock : nat) (bytes : list byte)
| WriteFailed (sock : nat) (bytes : list byte)
| Deserialized (payload : list byte)
| Resolve (promise : nat) (response : jsval)
| Reject (promise : nat) (error : Error).

(** Reading a trace: the payloads handed to the deserializer, the promises
    settled, and the bytes written. *)
Fixpoint deserialized (effs : list effect) : list (list byte) :=
  match effs with
  | [] => []
  | Deserialized payload :: rest => payload :: deserialized rest
  | _ :: rest => deserialized rest
  end.

Fixpoint written (effs : list effect) : list (list byte) :=
  match effs with
  | [] => []
  | Wrote _ bytes :: rest => bytes :: written rest
  | _ :: rest => written rest
  end.

Definition is_settlement (eff : effect) : bool :=
  match eff with
  | Resolve _ _ | Reject _ _ => true
  | _ => false
  end.

(** Which of the events racing in one connection attempt comes first (the
    socket's 'connect', its 'error', or the timer), or that the socket
    could not even be constructed.  A timer that fires after its attempt
    was settled assigns no field and is left out. *)
Inductive handshake : Type :=
| Connects
| Fails (msg : string)
| TimesOut
| CannotCreate (msg : string).

Record VsockConfig := mkVsockConfig {
  cid : Z;
  port : Z;
  timeoutMs : Z;
  retryAttempts : Z;
  retryDelayMs : Z
}.

(** The options both [connect] methods pass to [retryWithBackoff]; the
    [onRetry] they give only logs. *)
Definition connect_options (config : VsockConfig) : Retry.RetryOptions :=
  {| Retry.maxAttempts := retryAttempts config;
     Retry.delayMs := retryDelayMs config;
     Retry.backoffMultiplier := 2;
     Retry.onRetry := Some (fun _ _ => None) |}.

(** The part of [interface SocketClient] that needs no peer. *)
Class SocketClient (C : Type) := {
  isConnected : C -> bool;
  disconnect : C -> outcome unit * C * list effect
}.

End Wire.

(* ================================================================== *)
(** * src/vsock/client.ts: class UnixSocketClient                       *)
(* ================================================================== *)

Module UnixSocketClient.
Import JS Wire.

(** The mutable fields of an instance. *)
Record t := mk {
  socket : option nat;
  connected : bool
}.

(** Field initialisers and constructor. *)
Definition create : t := {| socket := None; connected := false |}.

(** An instance together with the bookkeeping of its surroundings: how
    many sockets and connection attempts there have been, and the effects
    performed so far. *)
Record world := mkWorld {
  client : t;
  sockets_made : nat;
  handshakes_made : nat;
  effects : list effect
}.

Definition start : world :=
  {| client := create; sockets_made := 0; handshakes_made := 0; effects := [] |}.

(** [this.socket = net.connect(this.socketPath)] *)
Definition open_socket (w : world) : world :=
  {| client := {| socket := Some (sockets_made w);
                  connected := connected (client w) |};
     sockets_made := S (sockets_made w);
     handshakes_made := S (handshakes_made w);
     effects := effects w ++ [Created (sockets_made w)] |}.

Definition set_connected (b : bool) (w : world) : world :=
  {| client := {| socket := socket (client w); connected := b |};
     sockets_made := sockets_made w;
     handshakes_made := handshakes_made w;
     effects := effects w |}.

Definition destroy_socket (w : world) : world :=
  {| client := client w;
     sockets_made := sockets_made w;
     handshakes_made := handshakes_made w;
     effects := effects w
                ++ match socket (client w) with
                   | Some s => [Destroyed s]
                   | None => []
                   end |}.

(** The operation [connect] hands to [retryWithBackoff]: one promise,
    settled by the 'connect' handler, the 'error' handler or the timer.
    The timer acts only [if (!this.connected)]; on an instance left
    connected by an earlier call it does nothing and, no other event
    coming, the promise stays pending. *)
Definition connect_attempt (peer : nat -> handshake) (w : world)
    : Retry.answer unit * world :=
  match peer (handshakes_made w) with
  | Connects => (Retry.Resolves tt, set_connected true (open_socket w))
  | Fails msg =>
      (Retry.Rejects (VsocketError ("Connection failed: " ^^ msg)),
       set_connected false (open_socket w))
  | TimesOut =>
      let w1 := open_socket w in
      if connected (client w1) then (Retry.NeverSettles, w1)
      else (Retry.Rejects (VsocketError "Connection timeout"), destroy_socket w1)
  | CannotCreate msg =>
      (Retry.Rejects (mkError "Error" msg),
       {| client := client w;
          sockets_made := sockets_made w;
          handshakes_made := S (handshakes_made w);
          effects := effects w |})
  end.

Definition connect (peer : nat -> handshake) (config : VsockConfig) (w : world)
    : outcome unit * world :=
  fst (Retry.retryWithBackoff (connect_attempt peer) (connect_options config) w).

(** [socket.end()] is an effect here: Node's sockets do not throw on it,
    also when called again. *)
Definition disconnect (c : t) : outcome unit * t * list effect :=
  match socket c with
  | Some s => (Returned tt, {| socket := socket c; connected := false |}, [Ended s])
  | None => (Returned tt, c, [])
  end.

Definition isConnected (c : t) : bool := connected c.

(** [disconnect] run in a world. *)
Definition run_disconnect (w : world) : outcome unit * world :=
  let '(r, c, effs) := disconnect (client w) in
  (r, {| client := c;
         sockets_made := sockets_made w;
         handshakes_made := handshakes_made w;
         effects := effects w ++ effs |}).

(** The states an instance goes through: calls of [connect] and
    [disconnect], and the events of the socket it holds outside a
    connection attempt: 'close' and 'error', and a 'connect' that comes
    late.  [sendRequest], [writeMessage], [readMessage] and [readExactly]
    assign no field. *)
Inductive reachable : world -> Prop :=
| reach_start : reachable start
| reach_connect peer config w :
    reachable w -> reachable (snd (connect peer config w))
| reach_disconnect w :
    reachable w -> reachable (snd (run_disconnect w))
| reach_closed w :
    reachable w -> socket (client w) <> None ->
    reachable (set_connected false w)
| reach_connected w :
    reachable w -> socket (client w) <> None ->
    reachable (set_connected true w).

End UnixSocketClient.

#[global] Instance unix_socket_client : Wire.SocketClient UnixSocketClient.t :=
  {| Wire.isConnected := UnixSocketClient.isConnected;
     Wire.disconnect := UnixSocketClient.disconnect |}.

(* ================================================================== *)
(** * src/vsock/client.ts: class VsocketClient                          *)
(* ================================================================== *)

Module VsocketClient.
Import JS Wire.

(** The mutable fields of an instance.  [pendingResponse] holds the
    [resolve]/[reject] pair of one promise, named here by a number. *)
Record t := mk {
  socket : option nat;
  connected : bool;
  dataBuffer : list byte;
  pendingResponse : option nat
}.

Definition create : t :=
  {| socket := None; connected := false; dataBuffer := []; pendingResponse := None |}.

Definition set_dataBuffer (buf : list byte) (c : t) : t :=
  {| socket := socket c; connected := connected c;
     dataBuffer := buf; pendingResponse := pendingResponse c |}.

Definition set_pendingResponse (p : option nat) (c : t) : t :=
  {| socket := socket c; connected := connected c;
     dataBuffer := dataBuffer c; pendingResponse := p |}.

Definition set_connected (b : bool) (c : t) : t :=
  {| socket := socket c; connected := b;
     dataBuffer := dataBuffer c; pendingResponse := pendingResponse c |}.

Definition set_socket (s : option nat) (c : t) : t :=
  {| socket := s; connected := connected c;
     dataBuffer := dataBuffer c; pendingResponse := pendingResponse c |}.

(** The truthiness of [this.socket]. *)
Definition has_socket (c : t) : bool :=
  match socket c with
  | Some _ => true
  | None => false
  end.

Section Client.
Context {rt : Runtime}.

(** The [try]/[catch] around [JSON.parse] in [handleData]. *)
Definition settle (parsed : string + jsval) (c : t) : t * list effect :=
  match parsed with
  | inr response =>
      match pendingResponse c with
      | Some p => (set_pendingResponse None c, [Resolve p response])
      | None => (c, [])
      end
  | inl msg =>
      match pendingResponse c with
      | Some p =>
          (set_pendingResponse None c,
           [Reject p (VsocketError ("JSON parse failed: " ^^ msg))])
      | None => (c, [])
      end
  end.

(** [while (this.dataBuffer.length >= 4) { ... }].  Every iteration that
    does not [break] drops at least four bytes, so [fuel] at least the
    length of the buffer is never used up; with none left the buffer is
    empty and the guard is false. *)
Fixpoint handle_loop (fuel : nat) (c : t) : t * list effect :=
  match fuel with
  | O => (c, [])
  | S fuel' =>
      match dataBuffer c with
      | b0 :: b1 :: b2 :: b3 :: _ =>
          let length := uint32BE b0 b1 b2 b3 in
          if (4 + length <=? N.of_nat (List.length (dataBuffer c)))%N then
            let messageBuffer := slice 4 (4 + N.to_nat length) (dataBuffer c) in
            let c1 := set_dataBuffer (slice_from (4 + N.to_nat length) (dataBuffer c)) c in
            let '(c2, settled) := settle (deserialize messageBuffer) c1 in
            let '(c3, later) := handle_loop fuel' c2 in
            (c3, Deserialized messageBuffer :: settled ++ later)
          else (c, [])
      | _ => (c, [])
      end
  end.

Definition handleData (c : t) (chunk : list byte) : t * list effect :=
  let c0 := set_dataBuffer (dataBuffer c ++ chunk) c in
  handle_loop (List.length (dataBuffer c0)) c0.

(** The loop has nothing left to do on the buffer of [c]. *)
Definition settled_down (c : t) : Prop :=
  handle_loop (List.length (dataBuffer c)) c = (c, []).

(** The socket's 'data' events, one after the other. *)
Fixpoint deliver (c : t) (chunks : list (list byte)) : t * list effect :=
  match chunks with
  | [] => (c, [])
  | chunk :: rest =>
      let '(c1, effs) := handleData c chunk in
      let '(c2, later) := deliver c1 rest in
      (c2, effs ++ later)
  end.

(** As for the Unix client, [socket.end()] is an effect that does not throw. *)
Definition disconnect (c : t) : outcome unit * t * list effect :=
  match socket c with
  | Some s => (Returned tt, set_connected false c, [Ended s])
  | None => (Returned tt, c, [])
  end.

Definition isConnected (c : t) : bool := connected c.

(** ** The instance in its surroundings *)

(** What the enclave side does: the outcome of each connection attempt,
    whether each [writeSync] throws (and with what message), and the
    chunks that arrive while each [readMessage] promise is pending. *)
Record peer := mkPeer {
  handshakes : nat -> handshake;
  writes : nat -> option string;
  replies : nat -> list (list byte)
}.

Record world := mkWorld {
  client : t;
  sockets_made : nat;
  handshakes_made : nat;
  writes_made : nat;
  reads_made : nat;
  effects : list effect
}.

Definition start : world :=
  {| client := create; sockets_made := 0; handshakes_made := 0;
     writes_made := 0; reads_made := 0; effects := [] |}.

Definition with_client (f : t -> t) (w : world) : world :=
  {| client := f (client w); sockets_made := sockets_made w;
     handshakes_made := handshakes_made w; writes_made := writes_made w;
     reads_made := reads_made w; effects := effects w |}.

Definition log (effs : list effect) (w : world) : world :=
  {| client := client w; sockets_made := sockets_made w;
     handshakes_made := handshakes_made w; writes_made := writes_made w;
     reads_made := reads_made w; effects := effects w ++ effs |}.

Definition count_handshake (w : world) : world :=
  {| client := client w; sockets_made := sockets_made w;
     handshakes_made := S (handshakes_made w); writes_made := writes_made w;
     reads_made := reads_made w; effects := effects w |}.

Definition count_write (w : world) : world :=
  {| client := client w; sockets_made := sockets_made w;
     handshakes_made := handshakes_made w; writes_made := S (writes_made w);
     reads_made := reads_made w; effects := effects w |}.

Definition count_read (w : world) : world :=
  {| client := client w; sockets_made := sockets_made w;
     handshakes_made := handshakes_made w; writes_made := writes_made w;
     reads_made := S (reads_made w); effects := effects w |}.

(** [this.socket = new this.vsock.VsockSocket()] *)
Definition open_socket (w : world) : world :=
  log [Created (sockets_made w)]
    {| client := set_socket (Some (sockets_made w)) (client w);
       sockets_made := S (sockets_made w);
       handshakes_made := S (handshakes_made w);
       writes_made := writes_made w; reads_made := reads_made w;
       effects := effects w |}.

Definition destroy_socket (w : world) : world :=
  match socket (client w) with
  | Some s => log [Destroyed s] w
  | None => w
  end.

Variable enclave : peer.
Variable config : VsockConfig.

(** The operation [connect] hands to [retryWithBackoff]. *)
Definition connect_attempt (w : world) : Retry.answer unit * world :=
  match handshakes enclave (handshakes_made w) with
  | Connects => (Retry.Resolves tt, with_client (set_connected true) (open_socket w))
  | Fails msg =>
      (Retry.Rejects (VsocketError ("Connection failed: " ^^ msg)),
       with_client (set_connected false) (open_socket w))
  | TimesOut =>
      let w1 := open_socket w in
      if connected (client w1) then (Retry.NeverSettles, w1)
      else (Retry.Rejects (VsocketError "Connection timeout"), destroy_socket w1)
  | CannotCreate msg =>
      (Retry.Rejects (VsocketError ("Failed to create vsock: " ^^ msg)),
       count_handshake w)
  end.

Definition connect (w : world) : outcome unit * world :=
  fst (Retry.retryWithBackoff connect_attempt (connect_options config) w).

Definition writeMessage (msg : TeeRequest) (w : world) : outcome unit * world :=
  match socket (client w) with
  | None => (Thrown (Some (VsocketError "Socket not available")), w)
  | Some s =>
      match encode_frame msg with
      | None =>
          (Thrown (Some (RangeError "The value of 'value' is out of range.")), w)
      | Some combined =>
          match writes enclave (writes_made w) with
          | None => (Returned tt, log [Wrote s combined] (count_write w))
          | Some msg' =>
              (Thrown (Some (VsocketError ("Write failed: " ^^ msg'))),
               log [WriteFailed s combined] (count_write w))
          end
      end
  end.

(** How the promise [p] fares in a batch of effects. *)
Fixpoint settlement (p : nat) (effs : list effect) : option (Error + jsval) :=
  match effs with
  | [] => None
  | Resolve q response :: rest =>
      if Nat.eqb p q then Some (inr response) else settlement p rest
  | Reject q error :: rest =>
      if Nat.eqb p q then Some (inl error) else settlement p rest
  | _ :: rest => settlement p rest
  end.

(** Waiting on the promise of [readMessage] while chunks come in; when no
    more data ever arrives the promise stays pending. *)
Fixpoint await (p : nat) (chunks : list (list byte)) (w : world)
    : outcome jsval * world :=
  match chunks with
  | [] => (Pending, w)
  | chunk :: rest =>
      let '(c1, effs) := handleData (client w) chunk in
      let w1 := log effs (with_client (fun _ => c1) w) in
      match settlement p effs with
      | Some (inr response) => (Returned response, w1)
      | Some (inl error) => (Thrown (Some error), w1)
      | None => await p rest w1
      end
  end.

Definition readMessage (w : world) : outcome jsval * world :=
  let p := reads_made w in
  await p (replies enclave p)
    (count_read (with_client (set_pendingResponse (Some p)) w)).

(** Sequencing of awaited calls, and [try]/[catch]: a rejection skips what
    follows, up to the nearest handler. *)
Definition and_then {A B : Type} (first : world -> outcome A * world)
    (next : A -> world -> outcome B * world) (w : world) : outcome B * world :=
  match first w with
  | (Returned a, w1) => next a w1
  | (Thrown reason, w1) => (Thrown reason, w1)
  | (Pending, w1) => (Pending, w1)
  end.

Definition try_catch {A : Type} (body : world -> outcome A * world)
    (handler : option Error -> world -> outcome A * world) (w : world)
    : outcome A * world :=
  match body w with
  | (Thrown reason, w1) => handler reason w1
  | done => done
  end.

(** The [catch] block's clean-up before it reconnects. *)
Definition drop_socket (w : world) : world :=
  with_client (set_socket None)
    (destroy_socket (with_client (set_connected false) w)).

(** The [try] block holds both [writeMessage] and [readMessage]; the
    [catch] block handles whatever either of them throws. *)
Definition sendRequest (req : TeeRequest) (w : world) : outcome jsval * world :=
  and_then
    (fun w0 =>
       if negb (connected (client w0)) || negb (has_socket (client w0))
       then connect w0
       else (Returned tt, w0))
    (fun _ =>
       try_catch
         (and_then (writeMessage req) (fun _ => readMessage))
         (fun _ w1 =>
            and_then connect
              (fun _ => and_then (writeMessage req) (fun _ => readMessage))
              (drop_socket w1)))
    w.

Definition run_disconnect (w : world) : outcome unit * world :=
  let '(r, c, effs) := disconnect (client w) in
  (r, log effs (with_client (fun _ => c) w)).

(** The states an instance goes through: calls of the public methods, and
    the events of the socket it holds outside those calls: data, 'close'
    and 'error', and a 'connect' that comes late. *)
Inductive reachable : world -> Prop :=
| reach_start : reachable start
| reach_connect w : reachable w -> reachable (snd (connect w))
| reach_send req w : reachable w -> reachable (snd (sendRequest req w))
| reach_disconnect w : reachable w -> reachable (snd (run_disconnect w))
| reach_data chunk w :
    reachable w -> socket (client w) <> None ->
    reachable (with_client (fun c => fst (handleData c chunk)) w)
| reach_closed w :
    reachable w -> socket (client w) <> None ->
    reachable (with_client (set_connected false) w)
| reach_connected w :
    reachable w -> socket (client w) <> None ->
    reachable (with_client (set_connected true) w).

End Client.
End VsocketClient.

#[global] Instance vsocket_client : Wire.SocketClient VsocketClient.t :=
  {| Wire.isConnected := VsocketClient.isConnected;
     Wire.disconnect := VsocketClient.disconnect |}.

(* ================================================================== *)
(** * A runtime and sample data to run the model on                     *)
(* ================================================================== *)

Module Sample.
Import JS Wire.

(** JSON text without insignificant white space, over integers and
    strings whose only escapes are the quote and the backslash: enough of
    [JSON.stringify] and [JSON.parse] to exchange envelopes. *)
Definition quote : ascii := "034"%char.
Definition backslash : ascii := "092"%char.

Fixpoint escape (s : string) : string :=
  match s with
  | EmptyString => EmptyString
  | String c rest =>
      if Ascii.eqb c quote || Ascii.eqb c backslash
      then String backslash (String c (escape rest))
      else String c (escape rest)
  end.

Definition quoted (s : string) : string :=
  String quote (escape s ^^ String quote EmptyString).

Definition decimalZ (z : Z) : string :=
  match z with
  | Z0 => "0"
  | Zpos p => L3.decimal (Npos p)
  | Zneg p => "-" ^^ L3.decimal (Npos p)
  end.

Fixpoint stringify (v : jsval) : string :=
  match v with
  | JUndefined | JNull => "null"
  | JBool true => "true"
  | JBool false => "false"
  | JNumber z => decimalZ z
  | JString s => quoted s
  | JArray items =>
      "[" ^^ (fix elements (vs : list jsval) (first : bool) : string :=
                match vs with
                | [] => ""
                | x :: rest =>
                    (if first then "" else ",") ^^ stringify x ^^ elements rest false
                end) items true ^^ "]"
  | JObject fields =>
      "{" ^^ (fix members (fs : list (string * jsval)) (first : bool) : string :=
                match fs with
                | [] => ""
                | (_, JUndefined) :: rest => members rest first
                | (k, x) :: rest =>
                    (if first then "" else ",") ^^ quoted k ^^ ":" ^^ stringify x
                      ^^ members rest false
                end) fields true ^^ "}"
  end.

Fixpoint parse_string (s : list ascii) : option (string * list ascii) :=
  match s with
  | [] => None
  | c :: rest =>
      if Ascii.eqb c quote then Some (EmptyString, rest)
      else if Ascii.eqb c backslash then
        match rest with
        | e :: rest' =>
            match parse_string rest' with
            | Some (str, r) => Some (String e str, r)
            | None => None
            end
        | [] => None
        end
      else
        match parse_string rest with
        | Some (str, r) => Some (String c str, r)
        | None => None
        end
  end.

Definition is_digit (c : ascii) : bool :=
  let n := N_of_ascii c in ((48 <=? n) && (n <=? 57))%N.

Fixpoint parse_digits (acc : N) (s : list ascii) : N * list ascii :=
  match s with
  | c :: rest =>
      if is_digit c then parse_digits (acc * 10 + (N_of_ascii c - 48)) rest
      else (acc, s)
  | [] => (acc, [])
  end.

Fixpoint parse_value (fuel : nat) (s : list ascii) {struct fuel}
    : option (jsval * list ascii) :=
  match fuel with
  | O => None
  | S fuel' =>
      match s with
      | "n"%char :: "u"%char :: "l"%char :: "l"%char :: r => Some (JNull, r)
      | "t"%char :: "r"%char :: "u"%char :: "e"%char :: r => Some (JBool true, r)
      | "f"%char :: "a"%char :: "l"%char :: "s"%char :: "e"%char :: r =>
          Some (JBool false, r)
      | "["%char :: "]"%char :: r => Some (JArray [], r)
      | "["%char :: r =>
          match parse_elements fuel' r with
          | Some (vs, r') => Some (JArray vs, r')
          | None => None
          end
      | "{"%char :: "}"%char :: r => Some (JObject [], r)
      | "{"%char :: r =>
          match parse_members fuel' r with
          | Some (fs, r') => Some (JObject fs, r')
          | None => None
          end
      | "-"%char :: c :: r =>
          if is_digit c then
            let '(n, r') := parse_digits 0 (c :: r) in Some (JNumber (- Z.of_N n), r')
          else None
      | c :: r =>
          if Ascii.eqb c quote then
            match parse_string r with
            | Some (str, r') => Some (JString str, r')
            | None => None
            end
          else if is_digit c then
            let '(n, r') := parse_digits 0 (c :: r) in Some (JNumber (Z.of_N n), r')
          else None
      | [] => None
      end
  end
with parse_elements (fuel : nat) (s : list ascii) {struct fuel}
    : option (list jsval * list ascii) :=
  match fuel with
  | O => None
  | S fuel' =>
      match parse_value fuel' s with
      | Some (v, ","%char :: r) =>
          match parse_elements fuel' r with
          | Some (vs, r') => Some (v :: vs, r')
          | None => None
          end
      | Some (v, "]"%char :: r) => Some ([v], r)
      | _ => None
      end
  end
with parse_members (fuel : nat) (s : list ascii) {struct fuel}
    : option (list (string * jsval) * list ascii) :=
  match fuel with
  | O => None
  | S fuel' =>
      match s with
      | c :: r =>
          if Ascii.eqb c quote then
            match parse_string r with
            | Some (k, ":"%char :: r1) =>
                match parse_value fuel' r1 with
                | Some (v, ","%char :: r2) =>
                    match parse_members fuel' r2 with
                    | Some (fs, r3) => Some ((k, v) :: fs, r3)
                    | None => None
                    end
                | Some (v, "}"%char :: r2) => Some ([(k, v)], r2)
                | _ => None
                end
            | _ => None
            end
          else None
      | [] => None
      end
  end.

Definition parse (text : string) : string + jsval :=
  let s := list_ascii_of_string text in
  match parse_value (S (List.length s)) s with
  | Some (v, []) => inr v
  | _ => inl "Unexpected token in JSON"
  end.

(** Text as its bytes: UTF-8 on the ASCII range. *)
Definition runtime : Runtime :=
  {| JSON_stringify := stringify;
     JSON_parse := parse;
     Buffer_from_utf8 := list_byte_of_string;
     toString_utf8 := string_of_list_byte |}.

(** ** Sample scenarios *)

(** An operation that always fails, as in the retry tests, and one that
    succeeds on its third call; the world counts the calls. *)
Definition stubborn (calls : nat) : Retry.answer string * nat :=
  (Retry.Rejects (mkError "Error" "Persistent failure"), S calls).

Definition third_time_lucky (calls : nat) : Retry.answer string * nat :=
  (if Nat.ltb calls 2 then Retry.Rejects (mkError "Error" "Attempt failed")
   else Retry.Resolves "success", S calls).

Definition three_attempts : Retry.RetryOptions :=
  Retry.mkRetryOptions 3 100 2 None.

Definition three_guardians : L3.L3Config :=
  L3.mkL3Config
    ["https://guardian-a.example"; "https://guardian-b.example";
     "https://guardian-c.example"] 30000.

Definition bundle : L3.AttestationBundle :=
  L3.mkBundle (list_byte_of_string "attestation") [list_byte_of_string "cert"]
    "0x04abcdef" "tapp-1".

Definition accepted : jsval :=
  JObject [ ("attestation_id", JString "att-1");
            ("submission_time", JString "2024-01-01T00:00:00.000Z");
            ("status", JString "pending") ].

(** Every request gets HTTP 500. *)
Definition all_down : L3.network := fun _ _ => L3.Response 500 JNull.

(** The first two requests get HTTP 500, later ones HTTP 200. *)
Definition third_accepts : L3.network :=
  fun sent _ =>
    if Nat.ltb sent 2 then L3.Response 500 JNull else L3.Response 200 accepted.

(** A body whose [submission_time] cannot be made a [Date]. *)
Definition unreadable : jsval :=
  JObject [ ("attestation_id", JString "att-0");
            ("submission_time", JObject [("toString", JNumber 0)]);
            ("status", JString "pending") ].

(** The first request gets HTTP 200 with the unreadable body, later ones
    HTTP 200 with the proper one. *)
Definition second_accepts : L3.network :=
  fun sent _ =>
    if Nat.eqb sent 0 then L3.Response 200 unreadable else L3.Response 200 accepted.

(** The second probe times out, the others get HTTP 200. *)
Definition one_times_out : L3.network :=
  fun sent _ =>
    if Nat.eqb sent 1 then L3.TimedOut else L3.Response 200 (JObject []).

Definition vsock_config : VsockConfig := mkVsockConfig 16 5000 5000 3 100.

Definition price_request : TeeRequest :=
  mkTeeRequest "req-1" "get_price" (JObject [("symbol", JString "BTCUSDT")])
    1700000000000.

(** A request whose [params] is [undefined], and one whose [params] is
    the array [[undefined]]. *)
Definition bare_request : TeeRequest :=
  mkTeeRequest "req-2" "ping" JUndefined 1700000000000.

Definition holey_request : TeeRequest :=
  mkTeeRequest "req-3" "ping" (JArray [JUndefined]) 1700000000000.

Definition price_response : jsval :=
  JObject [ ("id", JString "req-1"); ("success", JBool true);
            ("data", JObject [("price", JString "43000.00")]) ].

(** A complete frame whose four payload bytes are not JSON. *)
Definition garbled_frame : list byte :=
  frame_bytes (list_byte_of_string "oops").

Definition response_frame : list byte :=
  frame_bytes (list_byte_of_string (stringify price_response)).

(** An enclave that accepts every connection and every write, answers the
    first request with the garbled frame and later ones properly. *)
Definition garbling_enclave : VsocketClient.peer :=
  VsocketClient.mkPeer
    (fun _ => Connects)
    (fun _ => None)
    (fun reads => match reads with
                  | O => [garbled_frame]
                  | S _ => [response_frame]
                  end).

(** A client that awaits the response promise number 0. *)
Definition awaiting : VsocketClient.t :=
  VsocketClient.set_pendingResponse (Some 0) VsocketClient.create.

(** A stream cut one byte at a time, and three bytes at a time. *)
Definition bytewise (stream : list byte) : list (list byte) :=
  map (fun b => [b]) stream.

Fixpoint in_threes (stream : list byte) : list (list byte) :=
  match stream with
  | a :: b :: c :: rest => [a; b; c] :: in_threes rest
  | [] => []
  | short => [short]
  end.

(** Two complete frames and the first three bytes of a third. *)
Definition small_payloads : list (list byte) :=
  [list_byte_of_string "{}"; list_byte_of_string "[1,2]"].

Definition leftover : list byte := [x00; x00; x00].

Definition unsolicited_stream : list byte :=
  List.concat (map frame_bytes small_payloads) ++ leftover.

(** A listener that accepts every connection. *)
Definition accepting : nat -> handshake := fun _ => Connects.

End Sample.

(* ================================================================== *)
(** * More of the code: reading retry traces                            *)
(* ================================================================== *)

Module RetryTrace.
Import JS Retry.

(** What the observer was told, in order. *)
Fixpoint observations (tr : list event) : list (Z * Error) :=
  match tr with
  | [] => []
  | Observed attempt error :: rest => (attempt, error) :: observations rest
  | _ :: rest => observations rest
  end.

Definition total_wait (tr : list event) : Z :=
  fold_right Z.add 0%Z (sleeps tr).

(** The whole trace of a run whose attempts [k], [k+1], ... fail with
    [errors] before one more attempt is made: every failed attempt is
    followed by the observer's call, when there is an observer, and by the
    wait. *)
Fixpoint retried (observed : bool) (initialDelay multiplier : Z) (k : Z)
    (errors : list Error) : list event :=
  match errors with
  | [] => [Invoked k]
  | error :: rest =>
      Invoked k
        :: (if observed then [Observed k error] else [])
        ++ Slept (initialDelay * multiplier ^ (k - 1))
        :: retried observed initialDelay multiplier (k + 1) rest
  end.

Definition has_observer (options : RetryOptions) : bool :=
  match onRetry options with
  | Some _ => true
  | None => false
  end.

End RetryTrace.

(* ================================================================== *)
(** * Reading the runs of the socket clients                            *)
(* ================================================================== *)

Module Connection.
Import JS Wire.

(** The attempt does not end in the socket's 'connect' event. *)
Definition refuses (h : handshake) : bool :=
  match h with
  | Connects => false
  | _ => true
  end.

(** What such an attempt of [VsocketClient.connect] rejects with on an
    instance that is not connected: the error built by the 'error'
    handler, by the timer, or by the [catch] around the construction. *)
Definition vsock_refusal (h : handshake) : option Error :=
  match h with
  | Connects => None
  | Fails msg => Some (VsocketError ("Connection failed: " ^^ msg))
  | TimesOut => Some (VsocketError "Connection timeout")
  | CannotCreate msg => Some (VsocketError ("Failed to create vsock: " ^^ msg))
  end.

(** The same for [UnixSocketClient.connect], which has no [catch] around
    [net.connect]: what that throws rejects the promise as it is. *)
Definition unix_refusal (h : handshake) : option Error :=
  match h with
  | Connects => None
  | Fails msg => Some (VsocketError ("Connection failed: " ^^ msg))
  | TimesOut => Some (VsocketError "Connection timeout")
  | CannotCreate msg => Some (mkError "Error" msg)
  end.

(** The frames handed to [writeSync], in order, whether it threw or not. *)
Fixpoint write_attempts (effs : list effect) : list (list byte) :=
  match effs with
  | [] => []
  | Wrote _ bytes :: rest => bytes :: write_attempts rest
  | WriteFailed _ bytes :: rest => bytes :: write_attempts rest
  | _ :: rest => write_attempts rest
  end.

(** From [w] to [w'] the frame was handed to [writeSync] at most [a] times
    and nothing else was, at most [b] reads were started and at most [c]
    connection attempts made. *)
Definition within (frame : list byte) (a b c : nat)
    (w w' : VsocketClient.world) : Prop :=
  (exists k, k <= a
             /\ write_attempts (VsocketClient.effects w')
                = write_attempts (VsocketClient.effects w) ++ repeat frame k)
  /\ VsocketClient.reads_made w <= VsocketClient.reads_made w'
     <= VsocketClient.reads_made w + b
  /\ VsocketClient.handshakes_made w <= VsocketClient.handshakes_made w'
     <= VsocketClient.handshakes_made w + c.

End Connection.

(* ================================================================== *)
(** * src/vsock/client.ts: UnixSocketClient, sending and receiving      *)
(* ================================================================== *)

Module UnixRequests.
Import JS Wire.

(** The socket as [readExactly] sees it, a readable stream that is not
    flowing: the bytes in its internal buffer, the chunks still to arrive,
    whether the peer ends the stream after them, and whether the end has
    been reached. *)
Record stream := mkStream {
  buffered : list byte;
  arriving : list (list byte);
  closes : bool;
  ended : bool
}.

Definition is_empty (buf : list byte) : bool :=
  match buf with
  | [] => true
  | _ => false
  end.

(** [socket.read(size)]: [size] bytes when the buffer holds that many;
    otherwise [null], unless the stream has ended, in which case all that
    is left in the buffer, if anything. *)
Definition read (size : nat) (st : stream) : option (list byte) * stream :=
  if Nat.eqb size 0 then (None, st)
  else if Nat.leb size (List.length (buffered st)) then
    (Some (firstn size (buffered st)),
     {| buffered := skipn size (buffered st); arriving := arriving st;
        closes := closes st; ended := ended st |})
  else if ended st && negb (is_empty (buffered st)) then
    (Some (buffered st),
     {| buffered := []; arriving := arriving st;
        closes := closes st; ended := ended st |})
  else (None, st).

(** [await new Promise((resolve) => this.socket!.once('readable', resolve))]:
    the next chunk comes in, or the end of the stream is reached; once the
    end has been reached, or when the peer just stays silent, the event
    never fires. *)
Definition once_readable (st : stream) : option stream :=
  if ended st then None
  else
    match arriving st with
    | chunk :: rest =>
        Some {| buffered := buffered st ++ chunk; arriving := rest;
                closes := closes st; ended := false |}
    | [] =>
        if closes st then
          Some {| buffered := buffered st; arriving := [];
                  closes := true; ended := true |}
        else None
    end.

(** What surrounds an instance during a request: the stream of its socket
    and the number of [socket.write] calls made so far. *)
Record io := mkIo {
  incoming : stream;
  writes_made : nat
}.

Definition with_incoming (st : stream) (w : io) : io :=
  {| incoming := st; writes_made := writes_made w |}.

Definition count_write (w : io) : io :=
  {| incoming := incoming w; writes_made := S (writes_made w) |}.

Definition has_socket (c : UnixSocketClient.t) : bool :=
  match UnixSocketClient.socket c with
  | Some _ => true
  | None => false
  end.

Section Requests.
Context {rt : Runtime}.
(** The error the callback of each [socket.write] is called with, if any. *)
Variable writes : nat -> option string.
(** What the runtime throws when asked for a buffer of, and a read of,
    that many bytes at once, if anything. *)
Variable size_limit : N -> option Error.

Definition writeMessage (msg : TeeRequest) (c : UnixSocketClient.t) (w : io)
    : outcome unit * io * list effect :=
  match UnixSocketClient.socket c with
  | None => (Thrown (Some (VsocketError "Socket not available")), w, [])
  | Some s =>
      let jsonBuffer := serialize msg in
      match writeUInt32BE (N.of_nat (List.length jsonBuffer)) with
      | None =>
          (Thrown (Some (RangeError "The value of 'value' is out of range.")), w, [])
      | Some lengthBuffer =>
          match writes (writes_made w) with
          | Some err =>
              (Thrown (Some (VsocketError ("Write failed: " ^^ err))),
               count_write w, [WriteFailed s lengthBuffer])
          | None =>
              match writes (S (writes_made w)) with
              | Some err =>
                  (Thrown (Some (VsocketError ("Write failed: " ^^ err))),
                   count_write (count_write w),
                   [Wrote s lengthBuffer; WriteFailed s jsonBuffer])
              | None =>
                  (Returned tt, count_write (count_write w),
                   [Wrote s lengthBuffer; Wrote s jsonBuffer])
              end
          end
      end
  end.

(** [while (offset < bytes) { ... }], with [offset] the length of what has
    been copied.  Every iteration copies at least one byte or uses up one
    event of the stream, and after a read that came up short no event is
    left, so [fuel] beyond the number of chunks to arrive plus four is
    never used up. *)
Fixpoint read_loop (fuel : nat) (bytes : nat) (copied : list byte) (st : stream)
    : outcome (list byte) * stream :=
  match fuel with
  | O => (Pending, st)
  | S fuel' =>
      if Nat.ltb (List.length copied) bytes then
        match read (bytes - List.length copied) st with
        | (None, _) =>
            match once_readable st with
            | Some st1 => read_loop fuel' bytes copied st1
            | None => (Pending, st)
            end
        | (Some chunk, st1) => read_loop fuel' bytes (copied ++ chunk) st1
        end
      else (Returned (firstn bytes copied), st)
  end.

Definition readExactly (bytes : nat) (c : UnixSocketClient.t) (st : stream)
    : outcome (list byte) * stream :=
  match UnixSocketClient.socket c with
  | None => (Thrown (Some (VsocketError "Socket not available")), st)
  | Some _ =>
      match size_limit (N.of_nat bytes) with
      | Some error => (Thrown (Some error), st)
      | None => read_loop (List.length (arriving st) + 4) bytes [] st
      end
  end.

Definition readMessage (c : UnixSocketClient.t) (w : io)
    : outcome jsval * io * list effect :=
  match UnixSocketClient.socket c with
  | None => (Thrown (Some (VsocketError "Socket not available")), w, [])
  | Some _ =>
      match readExactly 4 c (incoming w) with
      | (Returned lengthBuffer, st1) =>
          let length :=
            uint32BE (nth 0 lengthBuffer x00) (nth 1 lengthBuffer x00)
                     (nth 2 lengthBuffer x00) (nth 3 lengthBuffer x00) in
          match readExactly (N.to_nat length) c st1 with
          | (Returned dataBuffer, st2) =>
              match deserialize dataBuffer with
              | inr response =>
                  (Returned response, with_incoming st2 w, [Deserialized dataBuffer])
              | inl msg =>
                  (Thrown (Some (VsocketError ("JSON parse failed: " ^^ msg))),
                   with_incoming st2 w, [Deserialized dataBuffer])
              end
          | (Thrown reason, st2) => (Thrown reason, with_incoming st2 w, [])
          | (Pending, st2) => (Pending, with_incoming st2 w, [])
          end
      | (Thrown reason, st1) => (Thrown reason, with_incoming st1 w, [])
      | (Pending, st1) => (Pending, with_incoming st1 w, [])
      end
  end.

(** No field of the instance is assigned on the way, and nothing is
    caught: what [writeMessage] or [readMessage] throws is thrown on. *)
Definition sendRequest (req : TeeRequest) (c : UnixSocketClient.t) (w : io)
    : outcome jsval * io * list effect :=
  if negb (UnixSocketClient.connected c) || negb (has_socket c) then
    (Thrown (Some (VsocketError "Not connected to enclave")), w, [])
  else
    match writeMessage req c w with
    | (Returned _, w1, effs) =>
        let '(r, w2, later) := readMessage c w1 in
        (r, w2, effs ++ later)
    | (Thrown reason, w1, effs) => (Thrown reason, w1, effs)
    | (Pending, w1, effs) => (Pending, w1, effs)
    end.

End Requests.

(** All the bytes the stream has or will have. *)
Definition pending_bytes (st : stream) : list byte :=
  buffered st ++ List.concat (arriving st).

(** Iterations [read_loop] can still make. *)
Definition iterations_left (bytes : nat) (copied : list byte) (st : stream) : nat :=
  if Nat.ltb (List.length copied) bytes then
    if ended st then (if is_empty (buffered st) then 1 else 2)
    else List.length (arriving st) + (if closes st then 1 else 0) + 3
  else 1.

End UnixRequests.

(* ================================================================== *)
(** * src/l3/client.ts: queryConsensusStatus                            *)
(* ================================================================== *)

Module L3Query.
Import JS L3.

Record ConsensusStatus := mkStatus {
  attestationId : jsval;
  status : jsval;
  guardiansVerified : jsval;
  totalGuardians : jsval
}.

Definition query_request (config : L3Config) (id : string) (endpoint : string)
    : request :=
  {| rq_method := GET;
     rq_url := endpoint ^^ "/attestation/status/" ^^ id;
     rq_body := None;
     rq_timeout := timeoutMs config;
     rq_headers := [] |}.

(** The object literal built from [response.data], and the argument of the
    [logger.debug] call after it, which interpolates two of its fields. *)
Definition read_status (data : jsval) : Error + ConsensusStatus :=
  match get_prop data "attestation_id" with
  | inl e => inl e
  | inr attestation_id =>
      match get_prop data "status" with
      | inl e => inl e
      | inr st =>
          match get_prop data "guardians_verified" with
          | inl e => inl e
          | inr verified =>
              match get_prop data "total_guardians" with
              | inl e => inl e
              | inr total =>
                  match to_primitive verified with
                  | Some e => inl e
                  | None =>
                      match to_primitive total with
                      | Some e => inl e
                      | None =>
                          inr {| attestationId := attestation_id;
                                 status := st;
                                 guardiansVerified := verified;
                                 totalGuardians := total |}
                      end
                  end
              end
          end
      end
  end.

(** The [try] block for one endpoint. *)
Definition query_endpoint (net : network) (config : L3Config) (id : string)
    (sent : nat) (endpoint : string) : outcome ConsensusStatus :=
  let rq := query_request config id endpoint in
  match axios rq (net sent rq) with
  | Returned data =>
      match read_status data with
      | inr st => Returned st
      | inl e => Thrown (Some e)
      end
  | Thrown reason => Thrown reason
  | Pending => Pending
  end.

(** [for (const endpoint of this.config.endpoints)]; the [catch] block
    only logs, reading [message] off what it caught. *)
Fixpoint query_loop (net : network) (config : L3Config) (id : string)
    (remaining : list string) (sent : nat)
    : outcome ConsensusStatus * list request :=
  match remaining with
  | [] =>
      (Thrown (Some (L3Error "Failed to query consensus status from all guardians")),
       [])
  | endpoint :: rest =>
      let rq := query_request config id endpoint in
      match query_endpoint net config id sent endpoint with
      | Returned st => (Returned st, [rq])
      | Pending => (Pending, [rq])
      | Thrown (Some _) =>
          let '(r, tr) := query_loop net config id rest (S sent) in
          (r, rq :: tr)
      | Thrown None =>
          (Thrown (Some (TypeError
                           "Cannot read properties of undefined (reading 'message')")),
           [rq])
      end
  end.

Definition queryConsensusStatus (net : network) (config : L3Config)
    (id : string) : outcome ConsensusStatus * list request :=
  query_loop net config id (endpoints config) 0.

(** Reading a run: the reply to a GET gives no status.  A reply that does
    not come counts when the request has a time limit, and with a negative
    time limit no reply is of use. *)
Definition no_status (timeout : Z) (r : reply) : Prop :=
  (timeout < 0)%Z
  \/ match r with
     | NetworkError _ => True
     | TimedOut => timeout <> 0%Z
     | Response code data =>
         ~ (200 <= code < 300)%N
         \/ data = JNull
         \/ data = JUndefined
         \/ exists fields,
              data = JObject fields
              /\ (printable (lookup_field "guardians_verified" fields) = false
                  \/ printable (lookup_field "total_guardians" fields) = false)
     end.

End L3Query.

(* ================================================================== *)
(** * src/l3/client.ts, the client for a single endpoint                *)
(* ================================================================== *)

Module L3Single.
Import JS L3.

Record L3Config := mkL3Config {
  endpoint : string;
  timeoutMs : Z;
  retryAttempts : Z
}.

(** The part of the configuration the requests are built from. *)
Definition request_config (config : L3Config) : L3.L3Config :=
  {| L3.endpoints := [endpoint config]; L3.timeoutMs := timeoutMs config |}.

(** The operation [submitAttestation] hands to [retryWithBackoff]: the
    [try] block is the one of the client for many endpoints, the [catch]
    block wraps the message of what was thrown.  The state is the number
    of requests sent. *)
Definition submit_attempt (net : network) (config : L3Config) (payload : jsval)
    (sent : nat) : Retry.answer AttestationSubmission * nat :=
  (match try_endpoint net (request_config config) payload sent (endpoint config) with
   | Returned submission => Retry.Resolves submission
   | Thrown (Some error) =>
       Retry.Rejects (L3Error ("Failed to submit attestation: " ^^ message error))
   | Thrown None =>
       Retry.Rejects
         (TypeError "Cannot read properties of undefined (reading 'message')")
   | Pending => Retry.NeverSettles
   end,
   S sent).

Definition submit_options (config : L3Config) : Retry.RetryOptions :=
  {| Retry.maxAttempts := retryAttempts config;
     Retry.delayMs := 1000;
     Retry.backoffMultiplier := 2;
     Retry.onRetry := None |}.

Definition submitAttestation (net : network) (config : L3Config)
    (bundle : AttestationBundle)
    : outcome AttestationSubmission * nat * list Retry.event :=
  Retry.retryWithBackoff (submit_attempt net config (submit_payload bundle))
    (submit_options config) 0.

(** [checkHealth] is one probe of [checkGuardiansHealth]. *)
Definition checkHealth (net : network) (config : L3Config)
    : outcome bool * list request :=
  (probe net 0 (endpoint config), [health_request (endpoint config)]).

End L3Single.

(* ================================================================== *)
(** * src/api/routes/health.ts and src/api/routes/status.ts             *)
(* ================================================================== *)

Module Routes.
Import JS Wire.

(** What the handler does with [res]: the status code set (200 unless
    [res.status] was called) and the object handed to [res.json]. *)
Record reply := mkReply {
  code : N;
  body : jsval
}.

Definition verdict (enclaveConnected l3Reachable : bool) : jsval :=
  JString (if enclaveConnected && l3Reachable then "healthy" else "unhealthy").

(** [Math.floor((Date.now() - startTime) / 1000)] *)
Definition uptimeSeconds (startTime now : Z) : Z := ((now - startTime) / 1000)%Z.

Section Handlers.
Context {C : Type} `{SocketClient C}.

(** The handler made by [createHealthHandler]; [checked] is how
    [l3Client.checkHealth()] ends.  In the [catch] block [error.message]
    is read, which itself throws when the rejection value is
    [undefined]: then, and when the check never settles, no reply is
    sent. *)
Definition healthHandler (vsockClient : C) (checked : outcome bool)
    (startTime now : Z) : option reply :=
  let enclaveConnected := isConnected vsockClient in
  match checked with
  | Returned l3Reachable =>
      Some {| code := 200;
              body := JObject
                        [ ("status", verdict enclaveConnected l3Reachable);
                          ("enclaveConnected", JBool enclaveConnected);
                          ("l3Reachable", JBool l3Reachable);
                          ("uptimeSeconds", JNumber (uptimeSeconds startTime now)) ] |}
  | Thrown (Some error) =>
      Some {| code := 503;
              body := JObject [ ("status", JString "unhealthy");
                                ("error", JString (message error)) ] |}
  | Thrown None => None
  | Pending => None
  end.

(** The handler made by [createStatusHandler]. *)
Definition statusHandler (vsockClient : C) (checked : outcome bool)
    (startTime now requestsProcessed : Z) : option reply :=
  let enclaveConnected := isConnected vsockClient in
  match checked with
  | Returned l3Reachable =>
      Some {| code := 200;
              body := JObject
                        [ ("hostVersion", JString "0.1.0");
                          ("status", verdict enclaveConnected l3Reachable);
                          ("enclaveConnected", JBool enclaveConnected);
                          ("enclavePublicKey", JUndefined);
                          ("l3Reachable", JBool l3Reachable);
                          ("l3GuardiansReachable",
                            JNumber (if l3Reachable then 1 else 0));
                          ("uptimeSeconds", JNumber (uptimeSeconds startTime now));
                          ("requestsProcessed", JNumber requestsProcessed) ] |}
  | Thrown (Some error) =>
      Some {| code := 503;
              body := JObject [ ("error", JString (message error)) ] |}
  | Thrown None => None
  | Pending => None
  end.

End Handlers.
End Routes.

(* ================================================================== *)
(** * More sample data                                                  *)
(* ================================================================== *)

Module More.
Import JS Wire.
Local Open Scope string_scope.
Local Open Scope list_scope.

Definition gave_up : Error := mkError "Error" "observer gave up".

(** An observer that throws when told of the second failure. *)
Definition give_up_on_second (attempt : Z) (error : Error) : option Error :=
  if (attempt =? 2)%Z then Some gave_up else None.

Definition impatient : Retry.RetryOptions :=
  Retry.mkRetryOptions 5 100 2 (Some give_up_on_second).

(** An operation whose second call never settles. *)
Definition hangs_second (calls : nat) : Retry.answer string * nat :=
  (if Nat.eqb calls 0 then Retry.Rejects (mkError "Error" "Attempt failed")
   else Retry.NeverSettles, S calls).

(** The payload of the sample response. *)
Definition response_payload : list byte :=
  list_byte_of_string (Sample.stringify Sample.price_response).


(** The same enclave behind a socket whose first write fails. *)
Definition flaky_enclave : VsocketClient.peer :=
  VsocketClient.mkPeer
    (fun _ => Connects)
    (fun written => if Nat.eqb written 0 then Some "EPIPE" else None)
    (fun _ => Sample.in_threes Sample.response_frame).

(** No enclave at all. *)
Definition refusing : nat -> handshake := fun _ => Fails "ECONNREFUSED".

Definition absent_enclave : VsocketClient.peer :=
  VsocketClient.mkPeer refusing (fun _ => None) (fun _ => []).

(** A [VsocketClient] after one successful [connect]. *)
Definition connected_world : VsocketClient.world :=
  {| VsocketClient.client :=
       {| VsocketClient.socket := Some 0;
          VsocketClient.connected := true;
          VsocketClient.dataBuffer := [];
          VsocketClient.pendingResponse := None |};
     VsocketClient.sockets_made := 1;
     VsocketClient.handshakes_made := 1;
     VsocketClient.writes_made := 0;
     VsocketClient.reads_made := 0;
     VsocketClient.effects := [Created 0] |}.

(** A [UnixSocketClient] after one successful [connect]. *)
Definition unix_connected : UnixSocketClient.t :=
  {| UnixSocketClient.socket := Some 0; UnixSocketClient.connected := true |}.

Definition writable : nat -> option string := fun _ => None.

Definition broken_pipe : nat -> option string := fun _ => Some "EPIPE".

(** A runtime that refuses to read more than 1 GiB at once. *)
Definition one_gibibyte (size : N) : option Error :=
  if (1073741824 <? size)%N
  then Some (RangeError "The value of 'size' is out of range.")
  else None.

(** The response frame and three bytes of the next one, arriving three
    bytes at a time on a stream that stays open. *)
Definition answering : UnixRequests.io :=
  {| UnixRequests.incoming :=
       {| UnixRequests.buffered := [];
          UnixRequests.arriving :=
            Sample.in_threes (Sample.response_frame ++ Sample.leftover);
          UnixRequests.closes := false;
          UnixRequests.ended := false |};
     UnixRequests.writes_made := 0 |}.

(** The first ten bytes of the response frame, after which the peer ends
    the stream. *)
Definition cut_off : UnixRequests.io :=
  {| UnixRequests.incoming :=
       {| UnixRequests.buffered := [];
          UnixRequests.arriving := Sample.in_threes (firstn 10 Sample.response_frame);
          UnixRequests.closes := true;
          UnixRequests.ended := false |};
     UnixRequests.writes_made := 0 |}.

Definition one_guardian : L3Single.L3Config :=
  L3Single.mkL3Config "https://guardian.example" 30000 3.

Definition no_retries : L3Single.L3Config :=
  L3Single.mkL3Config "https://guardian.example" 30000 0.

End More.

(* ================================================================== *)
(** * Properties of the retry wrapper                                   *)
(* ================================================================== *)

Section RetryProperties.
Import JS Retry.
Context {W T : Type}.
Variable operation : W -> answer T * W.
Variable options : RetryOptions.

Local Abbreviation loop := (retry_loop operation options).
Local Abbreviation answers := (nth_answer operation).

Lemma nth_answer_shift (w : W) (i : nat) :
  answers w (S i) = answers (snd (operation w)) i.
Proof. reflexivity. Qed.

Lemma world_after_shift (w : W) (n : nat) :
  world_after operation (S n) w = world_after operation n (snd (operation w)).
Proof. reflexivity. Qed.

Lemma fails_inv (a : answer T) : fails a -> exists e, a = Rejects e.
Proof. destruct a; simpl; intros H; try contradiction. now exists error. Qed.

(** With a quiet observer a failed attempt always leads to the next
    iteration; only the delay and the trace differ between the branches. *)
Lemma retry_loop_step (remaining : nat) (w w1 : W) (attempt delay : Z)
    (lastError : option Error) (e : Error) :
  observer_quiet options ->
  operation w = (Rejects e, w1) ->
  exists delay' pre,
    loop (S remaining) w attempt delay lastError =
      (let '(r, w2, tr) := loop remaining w1 (attempt + 1) delay' (Some e) in
       (r, w2, Invoked attempt :: pre ++ tr))
    /\ filter is_invocation pre = []
    /\ ((attempt <? maxAttempts options)%Z = true ->
        delay' = (delay * backoffMultiplier options)%Z
        /\ timeline pre = [Slept delay])
    /\ ((attempt <? maxAttempts options)%Z = false -> delay' = delay /\ pre = []).
Proof.
  intros Hq Hop. simpl. rewrite Hop.
  destruct (attempt <? maxAttempts options)%Z eqn:Hlt.
  - unfold observer_quiet in Hq.
    destruct (onRetry options) as [cb|].
    + rewrite Hq.
      exists (delay * backoffMultiplier options)%Z, [Observed attempt e; Slept delay].
      split; [|repeat split; try reflexivity; discriminate].
      destruct (loop remaining w1 _ _ _) as [[r w2] tr]. reflexivity.
    + exists (delay * backoffMultiplier options)%Z, [Slept delay].
      split; [|repeat split; try reflexivity; discriminate].
      destruct (loop remaining w1 _ _ _) as [[r w2] tr]. reflexivity.
  - exists delay, [].
    split; [|repeat split; try reflexivity; discriminate].
    destruct (loop remaining w1 _ _ _) as [[r w2] tr]. reflexivity.
Qed.

Lemma invocations_cons_pre (attempt : Z) (pre tr : list event) :
  filter is_invocation pre = [] ->
  invocations (Invoked attempt :: pre ++ tr) = S (invocations tr).
Proof.
  intros Hpre. unfold invocations. simpl. rewrite filter_app, Hpre. reflexivity.
Qed.

Lemma last_append (A : Type) (l tr : list A) (d : A) :
  tr <> [] -> last (l ++ tr) d = last tr d.
Proof.
  intros Hne. induction l as [|x l IH]; [reflexivity|].
  simpl. destruct (l ++ tr) eqn:Happ; [|exact IH].
  destruct l, tr; try discriminate. now contradiction Hne.
Qed.

Lemma last_cons_pre (attempt : Z) (pre tr : list event) (d : event) :
  tr <> [] -> last (Invoked attempt :: pre ++ tr) d = last tr d.
Proof.
  intros Hne. change (Invoked attempt :: pre ++ tr) with ((Invoked attempt :: pre) ++ tr).
  now apply last_append.
Qed.

(** Step into the recursive call of the loop that the goal shows, with the
    induction hypothesis specialised to it. *)
Ltac into_next_iteration IH :=
  match goal with
  | |- context [retry_loop ?op ?opts ?n ?w ?a ?d ?e] =>
      specialize (IH w a d e);
      destruct (retry_loop op opts n w a d e) as [[? ?] ?]
  end.

(** The operation is never called more often than iterations remain. *)
Lemma retry_loop_bound (remaining : nat) :
  forall w attempt delay lastError,
    invocations (snd (loop remaining w attempt delay lastError)) <= remaining.
Proof.
  induction remaining as [|n IH]; intros w attempt delay lastError; simpl.
  - apply Nat.le_0_l.
  - destruct (operation w) as [[v|e|] w1]; simpl;
      try (unfold invocations; simpl; lia).
    destruct (attempt <? maxAttempts options)%Z;
      [destruct (onRetry options) as [cb|]; [destruct (cb attempt e)|]|];
      try (unfold invocations; simpl; lia);
      into_next_iteration IH; simpl in *; unfold invocations in *; simpl; lia.
Qed.

(** The first success ends the loop at once, with that result. *)
Lemma retry_loop_first_success (n : nat) :
  forall remaining w attempt delay lastError v,
    observer_quiet options ->
    (forall i, i < n -> fails (answers w i)) ->
    answers w n = Resolves v ->
    n < remaining ->
    exists tr,
      loop remaining w attempt delay lastError
        = (Returned v, world_after operation (S n) w, tr)
      /\ invocations tr = S n
      /\ last tr (Slept 0) = Invoked (attempt + Z.of_nat n).
Proof.
  induction n as [|n IH]; intros remaining w attempt delay lastError v Hq Hfail Hok Hlt.
  - destruct remaining as [|remaining]; [lia|].
    unfold nth_answer in Hok. simpl in Hok. simpl.
    destruct (operation w) as [a w1]. simpl in Hok. subst a.
    exists [Invoked attempt]. repeat split. simpl. f_equal. lia.
  - destruct remaining as [|remaining]; [lia|].
    destruct (fails_inv _ (Hfail 0 (Nat.lt_0_succ n))) as [e He].
    unfold nth_answer in He. simpl in He.
    destruct (operation w) as [a w1] eqn:Hop. simpl in He. subst a.
    destruct (retry_loop_step remaining w w1 attempt delay lastError e Hq Hop)
      as (delay' & pre & Heq & Hpre & _).
    destruct (IH remaining w1 (attempt + 1)%Z delay' (Some e) v Hq) as (tr & Htr & Hinv & Hlast).
    + intros i Hi. specialize (Hfail (S i) (proj1 (Nat.succ_lt_mono _ _) Hi)).
      rewrite nth_answer_shift, Hop in Hfail. exact Hfail.
    + rewrite nth_answer_shift, Hop in Hok. exact Hok.
    + lia.
    + rewrite Htr in Heq. exists (Invoked attempt :: pre ++ tr).
      split; [|split].
      * rewrite Heq. simpl. rewrite Hop. reflexivity.
      * rewrite invocations_cons_pre by assumption. now rewrite Hinv.
      * rewrite last_cons_pre.
        -- rewrite Hlast. f_equal. lia.
        -- intros ->. discriminate.
Qed.

(** When every attempt fails the loop runs to its end and throws the last
    error it caught. *)
Lemma retry_loop_all_fail (remaining : nat) :
  forall w attempt delay lastError,
    observer_quiet options ->
    (forall i, i < S remaining -> fails (answers w i)) ->
    exists e tr,
      answers w remaining = Rejects e
      /\ loop (S remaining) w attempt delay lastError
         = (Thrown (Some e), world_after operation (S remaining) w, tr)
      /\ invocations tr = S remaining.
Proof.
  induction remaining as [|n IH]; intros w attempt delay lastError Hq Hfail.
  - destruct (fails_inv _ (Hfail 0 (Nat.lt_0_succ 0))) as [e He].
    exists e. unfold nth_answer in He. simpl in He.
    destruct (operation w) as [a w1] eqn:Hop. simpl in He. subst a.
    destruct (retry_loop_step 0 w w1 attempt delay lastError e Hq Hop)
      as (delay' & pre & Heq & Hpre & _).
    exists (Invoked attempt :: pre ++ []).
    split; [|split].
    + unfold nth_answer. simpl. now rewrite Hop.
    + rewrite Heq. simpl. now rewrite Hop.
    + now rewrite invocations_cons_pre.
  - destruct (fails_inv _ (Hfail 0 (Nat.lt_0_succ _))) as [e He].
    unfold nth_answer in He. simpl in He.
    destruct (operation w) as [a w1] eqn:Hop. simpl in He. subst a.
    destruct (retry_loop_step (S n) w w1 attempt delay lastError e Hq Hop)
      as (delay' & pre & Heq & Hpre & _).
    destruct (IH w1 (attempt + 1)%Z delay' (Some e) Hq) as (e' & tr & Hlast & Htr & Hinv).
    + intros i Hi. specialize (Hfail (S i) (proj1 (Nat.succ_lt_mono _ _) Hi)).
      rewrite nth_answer_shift, Hop in Hfail. exact Hfail.
    + exists e', (Invoked attempt :: pre ++ tr).
      split; [|split].
      * rewrite nth_answer_shift, Hop. exact Hlast.
      * rewrite Heq, Htr. simpl. rewrite Hop. reflexivity.
      * rewrite invocations_cons_pre by assumption. now rewrite Hinv.
Qed.

(** The calls and waits of a run follow the specified schedule. *)
Lemma retry_loop_schedule (remaining : nat) :
  forall w attempt delay lastError,
    observer_quiet options ->
    (1 <= attempt)%Z ->
    Z.of_nat (S remaining) = (maxAttempts options + 1 - attempt)%Z ->
    delay = (delayMs options * backoffMultiplier options ^ (attempt - 1))%Z ->
    exists j,
      1 <= j <= S remaining
      /\ invocations (snd (loop (S remaining) w attempt delay lastError)) = j
      /\ timeline (snd (loop (S remaining) w attempt delay lastError))
         = spec_schedule_from (delayMs options) (backoffMultiplier options)
             attempt (pred j)
      /\ hd_error (snd (loop (S remaining) w attempt delay lastError))
         = Some (Invoked attempt)
      /\ last (snd (loop (S remaining) w attempt delay lastError)) (Slept 0)
         = Invoked (attempt + Z.of_nat (pred j)).
Proof.
  induction remaining as [|n IH]; intros w attempt delay lastError Hq Hge Hrem Hdelay.
  - exists 1. destruct (operation w) as [[v|e|] w1] eqn:Hop.
    + simpl. rewrite Hop. simpl. repeat split; try lia. f_equal; lia.
    + destruct (retry_loop_step 0 w w1 attempt delay lastError e Hq Hop)
        as (delay' & pre & Heq & Hpre & _ & Hlast).
      assert (Hnlt : (attempt <? maxAttempts options)%Z = false) by (apply Z.ltb_ge; lia).
      destruct (Hlast Hnlt) as [_ ->]. rewrite Heq. simpl.
      repeat split; try lia. f_equal; lia.
    + simpl. rewrite Hop. simpl. repeat split; try lia. f_equal; lia.
  - destruct (operation w) as [[v|e|] w1] eqn:Hop.
    + exists 1. simpl. rewrite Hop. simpl. repeat split; try lia. f_equal; lia.
    + destruct (retry_loop_step (S n) w w1 attempt delay lastError e Hq Hop)
        as (delay' & pre & Heq & Hpre & Hlt & _).
      assert (Hislt : (attempt <? maxAttempts options)%Z = true) by (apply Z.ltb_lt; lia).
      destruct (Hlt Hislt) as [Hd' Htl].
      destruct (IH w1 (attempt + 1)%Z delay' (Some e) Hq) as (j & Hj & Hinv & Hsched & Hhd & Hlastj).
      * lia.
      * lia.
      * rewrite Hd', Hdelay, <- Z.mul_assoc. f_equal.
        replace (attempt + 1 - 1)%Z with (Z.succ (attempt - 1)) by lia.
        rewrite Z.pow_succ_r by lia. apply Z.mul_comm.
      * exists (S j). rewrite Heq.
        destruct (loop (S n) w1 (attempt + 1)%Z delay' (Some e)) as [[r w2] tr].
        simpl snd in *. split; [lia|]. split; [|split; [|split]].
        -- rewrite invocations_cons_pre by assumption. now rewrite Hinv.
        -- unfold timeline in *. simpl. rewrite filter_app, Htl, Hsched. simpl.
           destruct j as [|j]; [lia|]. simpl. now rewrite Hdelay.
        -- reflexivity.
        -- rewrite last_cons_pre.
           ++ rewrite Hlastj. f_equal. simpl. destruct j; [lia|]. simpl. lia.
           ++ intros ->. unfold invocations in Hinv. simpl in Hinv. lia.
    + exists 1. simpl. rewrite Hop. simpl. repeat split; try lia. f_equal; lia.
Qed.

Lemma sleeps_timeline (tr : list event) : sleeps (timeline tr) = sleeps tr.
Proof.
  induction tr as [|ev tr IH]; [reflexivity|].
  destruct ev; simpl; now rewrite ?IH.
Qed.

(** In the specified schedule the wait number [i] (from 0), which follows
    attempt [k + i], lasts [initialDelay * multiplier^(k + i - 1)]. *)
Lemma sleeps_spec_schedule_from (d m : Z) (n : nat) :
  forall k,
    List.length (sleeps (spec_schedule_from d m k n)) = n
    /\ forall i, i < n ->
         nth_error (sleeps (spec_schedule_from d m k n)) i
         = Some (d * m ^ (k + Z.of_nat i - 1))%Z.
Proof.
  induction n as [|n IH]; intros k.
  - split; [reflexivity|]. intros i Hi. lia.
  - destruct (IH (k + 1)%Z) as [Hlen Hnth]. simpl. split; [now rewrite Hlen|].
    intros [|i] Hi; simpl.
    + do 3 f_equal. lia.
    + rewrite Hnth by lia. do 3 f_equal. lia.
Qed.

Lemma calls_timeline (tr : list event) :
  filter is_invocation (timeline tr) = filter is_invocation tr.
Proof.
  induction tr as [|ev tr IH]; [reflexivity|].
  destruct ev; simpl; now rewrite ?IH.
Qed.

(** Call number [i] (from 0) of the specified schedule is attempt [k + i]. *)
Lemma calls_spec_schedule_from (d m : Z) (n : nat) :
  forall k i,
    i <= n ->
    nth_error (filter is_invocation (spec_schedule_from d m k n)) i
    = Some (Invoked (k + Z.of_nat i)).
Proof.
  induction n as [|n IH]; intros k i Hi.
  - assert (i = 0) by lia. subst i. simpl. do 2 f_equal. lia.
  - destruct i as [|i]; simpl.
    + do 2 f_equal. lia.
    + rewrite IH by lia. do 2 f_equal. lia.
Qed.

(** Whatever the operation keeps invariant, the wrapper keeps invariant. *)
Lemma retry_loop_preserves (P : W -> Prop) :
  (forall w, P w -> P (snd (operation w))) ->
  forall remaining w attempt delay lastError,
    P w -> P (snd (fst (loop remaining w attempt delay lastError))).
Proof.
  intros Hop. induction remaining as [|n IH]; intros w attempt delay lastError Hw.
  - exact Hw.
  - simpl. specialize (Hop w Hw).
    destruct (operation w) as [[v|e|] w1]; simpl in Hop; try exact Hop.
    destruct (attempt <? maxAttempts options)%Z;
      [destruct (onRetry options) as [cb|]; [destruct (cb attempt e)|]|];
      try exact Hop;
      into_next_iteration IH; simpl in *; now apply IH.
Qed.

(** C5. For every operation and every [maxAttempts >= 1] (the observer, if
    any, not throwing): the operation is invoked at most [maxAttempts]
    times; when call number [n] is the first to succeed, the wrapper
    returns that result right after it, with no further call; and when
    every attempt fails, the operation is invoked exactly [maxAttempts]
    times and the wrapper throws the very error of the last attempt. *)
Theorem C5_retry_attempt_bound (w : W) :
  (1 <= maxAttempts options)%Z ->
  observer_quiet options ->
  exists r w' tr,
    retryWithBackoff operation options w = (r, w', tr)
    /\ (Z.of_nat (invocations tr) <= maxAttempts options)%Z
    /\ (forall n v,
          (Z.of_nat n < maxAttempts options)%Z ->
          (forall i, i < n -> fails (answers w i)) ->
          answers w n = Resolves v ->
          r = Returned v
          /\ invocations tr = S n
          /\ w' = world_after operation (S n) w
          /\ last tr (Slept 0) = Invoked (Z.of_nat (S n)))
    /\ ((forall i, (Z.of_nat i < maxAttempts options)%Z -> fails (answers w i)) ->
        Z.of_nat (invocations tr) = maxAttempts options
        /\ exists e,
             answers w (pred (Z.to_nat (maxAttempts options))) = Rejects e
             /\ r = Thrown (Some e)).
Proof.
  intros Hmax Hq. unfold retryWithBackoff.
  destruct (retry_loop operation options (Z.to_nat (maxAttempts options)) w 1
              (delayMs options) None) as [[r w'] tr] eqn:Hrun.
  exists r, w', tr. split; [reflexivity|]. split; [|split].
  - pose proof (retry_loop_bound (Z.to_nat (maxAttempts options)) w 1
                  (delayMs options) None) as Hb.
    rewrite Hrun in Hb. simpl in Hb. lia.
  - intros n v Hn Hfail Hok.
    destruct (retry_loop_first_success n (Z.to_nat (maxAttempts options)) w 1
                (delayMs options) None v Hq Hfail Hok) as (tr' & Htr & Hinv & Hlast);
      [lia|].
    rewrite Hrun in Htr. inversion Htr; subst.
    repeat split; try assumption. rewrite Hlast. f_equal. lia.
  - intros Hfail.
    destruct (Z.to_nat (maxAttempts options)) as [|k] eqn:Hk; [lia|].
    destruct (retry_loop_all_fail k w 1 (delayMs options) None Hq)
      as (e & tr' & He & Htr & Hinv).
    + intros i Hi. apply Hfail. lia.
    + rewrite Hrun in Htr. inversion Htr; subst.
      split; [lia|]. exists e. now split.
Qed.

(** As long as the attempts fail and the guard lets one more through,
    the next attempt is made; the first attempt that does not fail is the
    last one. *)
Lemma retry_loop_attempts (n : nat) :
  forall remaining w attempt delay lastError,
    observer_quiet options ->
    (forall i, i < n -> fails (answers w i)) ->
    n < remaining ->
    S n <= invocations (snd (loop remaining w attempt delay lastError))
    /\ (~ fails (answers w n) ->
        invocations (snd (loop remaining w attempt delay lastError)) = S n).
Proof.
  induction n as [|n IH]; intros remaining w attempt delay lastError Hq Hfail Hlt.
  - destruct remaining as [|remaining]; [lia|].
    unfold nth_answer. cbn [world_after].
    destruct (operation w) as [[v|e|] w1] eqn:Hop.
    + simpl. rewrite Hop. unfold invocations. simpl. split; [lia | reflexivity].
    + destruct (retry_loop_step remaining w w1 attempt delay lastError e Hq Hop)
        as (delay' & pre & Heq & Hpre & _).
      rewrite Heq.
      destruct (loop remaining w1 (attempt + 1)%Z delay' (Some e)) as [[r w2] tr].
      cbn [snd fst]. rewrite invocations_cons_pre by assumption.
      split; [lia|]. intros Hnot. exfalso. apply Hnot. exact I.
    + simpl. rewrite Hop. unfold invocations. simpl. split; [lia | reflexivity].
  - destruct remaining as [|remaining]; [lia|].
    destruct (fails_inv _ (Hfail 0 (Nat.lt_0_succ n))) as [e He].
    unfold nth_answer in He. simpl in He.
    destruct (operation w) as [a w1] eqn:Hop. simpl in He. subst a.
    destruct (retry_loop_step remaining w w1 attempt delay lastError e Hq Hop)
      as (delay' & pre & Heq & Hpre & _).
    destruct (IH remaining w1 (attempt + 1)%Z delay' (Some e) Hq) as [Hge Hstop].
    + intros i Hi. specialize (Hfail (S i) (proj1 (Nat.succ_lt_mono _ _) Hi)).
      rewrite nth_answer_shift, Hop in Hfail. exact Hfail.
    + lia.
    + rewrite Heq. rewrite nth_answer_shift, Hop. cbn [snd].
      destruct (loop remaining w1 (attempt + 1)%Z delay' (Some e)) as [[r w2] tr].
      cbn [snd fst] in *. rewrite invocations_cons_pre by assumption.
      split; [lia|]. intros Hnot. now rewrite (Hstop Hnot).
Qed.

(** C6. For [maxAttempts >= 1] (the observer, if any, not throwing): a run
    makes [j <= maxAttempts] attempts; it starts with attempt 1 and ends
    with attempt [j]; there are [j - 1] waits, the one between attempt [k]
    and attempt [k+1] lasting [delayMs * backoffMultiplier^(k-1)], so
    nothing is waited before the first attempt or after the last; with
    [maxAttempts = 1] the run is one call and nothing else.  The number
    [j] is set by what the operation answers: when the first [k] attempts
    fail and [k < maxAttempts], the wait after attempt [k] takes place and
    attempt [k+1] is made; the first attempt that does not fail is the
    last; and when all fail [j = maxAttempts]. *)
Theorem C6_backoff_schedule (w : W) :
  (1 <= maxAttempts options)%Z ->
  observer_quiet options ->
  exists r w' tr j,
    retryWithBackoff operation options w = (r, w', tr)
    /\ 1 <= j /\ (Z.of_nat j <= maxAttempts options)%Z
    /\ invocations tr = j
    /\ timeline tr
       = spec_schedule (delayMs options) (backoffMultiplier options) j
    /\ hd_error tr = Some (Invoked 1)
    /\ last tr (Slept 0) = Invoked (Z.of_nat j)
    /\ List.length (sleeps tr) = pred j
    /\ (forall k, 1 <= k < j ->
          nth_error (sleeps tr) (pred k)
          = Some (delayMs options * backoffMultiplier options ^ (Z.of_nat k - 1))%Z)
    /\ (maxAttempts options = 1%Z -> tr = [Invoked 1])
    /\ (forall k,
          1 <= k ->
          (Z.of_nat k < maxAttempts options)%Z ->
          (forall i, i < k -> fails (answers w i)) ->
          k < j
          /\ nth_error (sleeps tr) (pred k)
             = Some (delayMs options
                     * backoffMultiplier options ^ (Z.of_nat k - 1))%Z
          /\ nth_error (filter is_invocation tr) k
             = Some (Invoked (Z.of_nat k + 1)))
    /\ (forall n,
          (Z.of_nat n < maxAttempts options)%Z ->
          (forall i, i < n -> fails (answers w i)) ->
          ~ fails (answers w n) ->
          j = S n)
    /\ ((forall i, (Z.of_nat i < maxAttempts options)%Z -> fails (answers w i)) ->
        Z.of_nat j = maxAttempts options).
Proof.
  intros Hmax Hq. unfold retryWithBackoff.
  destruct (Z.to_nat (maxAttempts options)) as [|k] eqn:Hk; [lia|].
  destruct (retry_loop_schedule k w 1 (delayMs options) None Hq)
    as (j & Hj & Hinv & Hsched & Hhd & Hlast).
  - lia.
  - lia.
  - simpl. lia.
  - assert (Hone : maxAttempts options = 1%Z ->
                   snd (loop (S k) w 1%Z (delayMs options) None) = [Invoked 1]).
    { intros H1. assert (k = 0) by lia. subst k. simpl. rewrite H1.
      destruct (operation w) as [[v|e|] w1]; reflexivity. }
    pose proof (fun n => retry_loop_attempts n (S k) w 1%Z (delayMs options)
                           None Hq) as Hsteps.
    pose proof (retry_loop_all_fail k w 1%Z (delayMs options) None Hq) as Hall.
    destruct (loop (S k) w 1%Z (delayMs options) None) as [[r w'] tr].
    simpl snd in *. exists r, w', tr, j.
    destruct (sleeps_spec_schedule_from (delayMs options)
                (backoffMultiplier options) (pred j) 1) as [Hlen Hnth].
    assert (Hwaits : forall i, 1 <= i < j ->
              nth_error (sleeps tr) (pred i)
              = Some (delayMs options
                      * backoffMultiplier options ^ (Z.of_nat i - 1))%Z).
    { intros i Hi. rewrite <- sleeps_timeline, Hsched. unfold spec_schedule.
      rewrite Hnth by lia. do 3 f_equal. lia. }
    split; [reflexivity|]. split; [lia|]. split; [lia|].
    split; [assumption|]. split; [exact Hsched|]. split; [assumption|].
    split; [|split; [|split; [|split; [|split; [|split]]]]].
    + rewrite Hlast. f_equal. destruct j; [lia|]. rewrite Nat.pred_succ. lia.
    + now rewrite <- sleeps_timeline, Hsched.
    + exact Hwaits.
    + assumption.
    + intros n Hn Hmore Hfail.
      destruct (Hsteps n Hfail) as [Hge _]; [lia|].
      split; [lia|]. split; [apply Hwaits; lia|].
      rewrite <- (calls_timeline tr), Hsched. unfold spec_schedule.
      rewrite calls_spec_schedule_from by lia. do 2 f_equal. lia.
    + intros n Hn Hfail Hstop.
      destruct (Hsteps n Hfail) as [_ Heq]; [lia|].
      rewrite <- Hinv. now apply Heq.
    + intros Hfail.
      destruct Hall as (e & tr' & _ & Htr & Hcount).
      * intros i Hi. apply Hfail. lia.
      * inversion Htr; subst. rewrite Hcount. lia.
Qed.

End RetryProperties.

(** C10. With [maxAttempts = 0] the loop body never runs: the operation is
    not invoked, nothing is waited, and the call rejects with [undefined],
    the value [lastError] was declared with. *)
Theorem C10_zero_attempts_rejects_undefined {W T : Type}
    (operation : W -> Retry.answer T * W) (delay multiplier : Z)
    (observer : option (Z -> JS.Error -> option JS.Error)) (w : W) :
  Retry.retryWithBackoff operation
    (Retry.mkRetryOptions 0 delay multiplier observer) w
  = (JS.Thrown None, w, []).
Proof. reflexivity. Qed.

(* ================================================================== *)
(** * Properties of the guardian submitter                              *)
(* ================================================================== *)

Section SubmitterProperties.
Import JS L3.
Variable net : network.
Variable config : L3Config.
Variable payload : jsval.

Local Abbreviation loop := (submit_loop net config payload).
Local Abbreviation post := (submit_request config payload).
Local Abbreviation attempt := (try_endpoint net config payload).

Lemma every_endpoint_fails_tail (sent : nat) (endpoint : string) (rest : list string) :
  every_endpoint_fails net config payload sent (endpoint :: rest) ->
  every_endpoint_fails net config payload (S sent) rest.
Proof.
  intros H i e Hi. specialize (H (S i) e Hi).
  now rewrite Nat.add_succ_r in H.
Qed.

(** A body cannot be read when it is [null] or [undefined], or when its
    [submission_time] cannot be made a [Date]. *)
Lemma read_submission_fails (data : jsval) :
  (exists err, read_submission data = inl err)
  <-> data = JNull
      \/ data = JUndefined
      \/ exists fields,
           data = JObject fields
           /\ printable (lookup_field "submission_time" fields) = false.
Proof.
  unfold read_submission, new_Date, to_primitive. split.
  - intros [err Herr].
    destruct data as [| |b|z|s|items|fields]; cbn [get_prop] in Herr;
      try (now left); try (right; now left); try discriminate.
    right. right. exists fields. split; [reflexivity|].
    destruct (printable (lookup_field "submission_time" fields));
      [discriminate | reflexivity].
  - intros [->|[->|(fields & -> & Hbad)]].
    + eexists. reflexivity.
    + eexists. reflexivity.
    + cbn [get_prop]. rewrite Hbad. eexists. reflexivity.
Qed.

Lemma read_submission_object (fields : list (string * jsval)) :
  printable (lookup_field "submission_time" fields) = true ->
  read_submission (JObject fields)
  = inr {| attestationId := lookup_field "attestation_id" fields;
           submissionTime := NewDate (lookup_field "submission_time" fields);
           status := lookup_field "status" fields |}.
Proof.
  intros Hok. unfold read_submission, new_Date, to_primitive.
  cbn [get_prop]. now rewrite Hok.
Qed.

(** An attempt succeeds exactly when the time limit is not negative, the
    reply has a 2xx status and the three fields of its body can be read. *)
Lemma try_endpoint_succeeds (sent : nat) (endpoint : string)
    (submission : AttestationSubmission) :
  attempt sent endpoint = Returned submission
  <-> (0 <= timeoutMs config)%Z
      /\ exists code data,
           net sent (post endpoint) = Response code data
           /\ (200 <= code < 300)%N
           /\ read_submission data = inr submission.
Proof.
  unfold try_endpoint, axios. cbv zeta.
  change (rq_timeout (post endpoint)) with (timeoutMs config).
  destruct (timeoutMs config <? 0)%Z eqn:Hneg;
    [apply Z.ltb_lt in Hneg | apply Z.ltb_ge in Hneg].
  { split; [discriminate | intros [Hpos _]; lia]. }
  split.
  - destruct (net sent (post endpoint)) as [msg| |code data]; try discriminate.
    + destruct (timeoutMs config =? 0)%Z; discriminate.
    + destruct ((200 <=? code)%N && (code <? 300)%N) eqn:Hcode; [|discriminate].
      cbv beta iota.
      destruct (read_submission data) as [err|found] eqn:Hread; [discriminate|].
      intros H. injection H as <-. split; [exact Hneg|]. exists code, data.
      apply andb_prop in Hcode as [Hlo Hhi].
      apply N.leb_le in Hlo. apply N.ltb_lt in Hhi. repeat split; assumption.
  - intros (_ & code & data & -> & [Hlo Hhi] & Hread).
    apply N.leb_le in Hlo. apply N.ltb_lt in Hhi. rewrite Hlo, Hhi.
    cbn [andb]. cbv beta iota. now rewrite Hread.
Qed.

(** It fails exactly when the reply is of no use. *)
Lemma try_endpoint_fails (sent : nat) (endpoint : string) :
  (exists err, attempt sent endpoint = Thrown (Some err))
  <-> unusable (timeoutMs config) (net sent (post endpoint)).
Proof.
  unfold try_endpoint, axios, unusable. cbv zeta.
  change (rq_timeout (post endpoint)) with (timeoutMs config).
  destruct (timeoutMs config <? 0)%Z eqn:Hneg;
    [apply Z.ltb_lt in Hneg | apply Z.ltb_ge in Hneg].
  { split; [intros _; now left | intros _; eexists; reflexivity]. }
  destruct (net sent (post endpoint)) as [msg| |code data].
  - split; [intros _; now right | intros _; eexists; reflexivity].
  - destruct (timeoutMs config =? 0)%Z eqn:Hzero.
    + apply Z.eqb_eq in Hzero.
      split; [intros [err H]; discriminate | intros [H|H]; lia].
    + apply Z.eqb_neq in Hzero.
      split; [intros _; now right | intros _; eexists; reflexivity].
  - destruct ((200 <=? code)%N && (code <? 300)%N) eqn:Hcode.
    + apply andb_prop in Hcode as [Hlo Hhi].
      apply N.leb_le in Hlo. apply N.ltb_lt in Hhi.
      cbv beta iota.
      pose proof (read_submission_fails data) as [Hthere Hback]. split.
      * intros [err Herr]. right. right. apply Hthere.
        destruct (read_submission data) as [e|found]; [now exists e | discriminate].
      * intros [Hlimit|[Hcode|Hbody]]; [lia | lia |].
        destruct (Hback Hbody) as [err Herr]. rewrite Herr. now exists err.
    + split; [|intros _; eexists; reflexivity].
      intros _. right. left. intros [Hlo Hhi].
      apply N.leb_le in Hlo. apply N.ltb_lt in Hhi. now rewrite Hlo, Hhi in Hcode.
Qed.

(** It never gets past the [await] exactly when no answer comes and the
    request has no time limit. *)
Lemma try_endpoint_pending (sent : nat) (endpoint : string) :
  attempt sent endpoint = Pending
  <-> net sent (post endpoint) = TimedOut /\ timeoutMs config = 0%Z.
Proof.
  unfold try_endpoint, axios. cbv zeta.
  change (rq_timeout (post endpoint)) with (timeoutMs config).
  destruct (timeoutMs config <? 0)%Z eqn:Hneg;
    [apply Z.ltb_lt in Hneg | apply Z.ltb_ge in Hneg].
  { split; [discriminate | intros [_ H]; lia]. }
  destruct (net sent (post endpoint)) as [msg| |code data].
  - split; [discriminate | intros [H _]; discriminate].
  - destruct (timeoutMs config =? 0)%Z eqn:Hzero.
    + apply Z.eqb_eq in Hzero. now split.
    + apply Z.eqb_neq in Hzero. split; [discriminate | intros [_ H]; contradiction].
  - split; [|intros [H _]; discriminate].
    destruct ((200 <=? code)%N && (code <? 300)%N); [|discriminate].
    cbv beta iota. destruct (read_submission data); discriminate.
Qed.

(** What it throws is never [undefined]. *)
Lemma try_endpoint_throws_error (sent : nat) (endpoint : string) :
  attempt sent endpoint <> Thrown None.
Proof.
  unfold try_endpoint, axios. cbv zeta.
  destruct (rq_timeout (post endpoint) <? 0)%Z; [discriminate|].
  destruct (net sent (post endpoint)) as [msg| |code data]; try discriminate.
  - destruct (rq_timeout (post endpoint) =? 0)%Z; discriminate.
  - destruct ((200 <=? code)%N && (code <? 300)%N); [|discriminate].
    cbv beta iota. destruct (read_submission data); discriminate.
Qed.

(** Requests go out in list order, one per endpoint, up to some point. *)
Lemma submit_loop_prefix (eps : list string) :
  forall sent lastError,
    exists n, n <= List.length eps
              /\ snd (loop eps sent lastError) = map post (firstn n eps).
Proof.
  induction eps as [|endpoint rest IH]; intros sent lastError.
  - exists 0. split; [apply Nat.le_refl | reflexivity].
  - cbn [submit_loop].
    destruct (attempt sent endpoint) as [submission|[err|]|].
    + exists 1. split; [simpl; lia | reflexivity].
    + destruct (IH (S sent) (Some err)) as (n & Hn & Htr).
      exists (S n). split; [simpl; lia|].
      destruct (loop rest (S sent) (Some err)) as [r tr]. simpl in *.
      now rewrite Htr.
    + exists 1. split; [simpl; lia | reflexivity].
    + exists 1. split; [simpl; lia | reflexivity].
Qed.

(** The first endpoint whose attempt succeeds ends the loop. *)
Lemma submit_loop_first_success (before : list string) :
  forall sent lastError endpoint after submission,
    every_endpoint_fails net config payload sent before ->
    attempt (sent + List.length before) endpoint = Returned submission ->
    loop (before ++ endpoint :: after) sent lastError
    = (Returned submission, map post (before ++ [endpoint])).
Proof.
  induction before as [|b before IH];
    intros sent lastError endpoint after submission Hfail Hok.
  - simpl in *. rewrite Nat.add_0_r in Hok. now rewrite Hok.
  - simpl. destruct (Hfail 0 b eq_refl) as [err Herr].
    rewrite Nat.add_0_r in Herr. rewrite Herr.
    rewrite (IH (S sent) (Some err) endpoint after submission).
    + reflexivity.
    + eapply every_endpoint_fails_tail; eassumption.
    + simpl in Hok. now rewrite Nat.add_succ_r in Hok.
Qed.


(** Replies of no use, one after the other, are failed attempts. *)
Lemma unusable_replies_fail (sent : nat) (eps : list string) :
  (forall i endpoint,
      nth_error eps i = Some endpoint ->
      unusable (timeoutMs config) (net (sent + i) (post endpoint))) ->
  every_endpoint_fails net config payload sent eps.
Proof.
  intros H i endpoint Hi. apply try_endpoint_fails. now apply H.
Qed.

End SubmitterProperties.

(** C4. [submitAttestation] sends, in list order and at most once each,
    a POST to [endpoint/attestation/submit] with the bundle as its body,
    and nothing else.  When every endpoint before [endpoint] gave a reply
    of no use and [endpoint] answers with a 2xx status and a body that can
    be read (the time limit configured not being negative), it returns the
    submission read from that body, having posted to those endpoints and
    [endpoint] only; a body that is an object with a [submission_time]
    that can be made a [Date] can be read, and the submission is then
    made of the body's fields. *)
Theorem C4_failover_order_and_short_circuit (net : L3.network)
    (config : L3.L3Config) (bundle : L3.AttestationBundle) :
  let post := fun endpoint =>
    {| L3.rq_method := L3.POST;
       L3.rq_url := endpoint ^^ "/attestation/submit";
       L3.rq_body :=
         Some (JS.JObject
                 [ ("attestation_doc",
                     JS.JString (L3.base64 (L3.attestationDoc bundle)));
                   ("certificate_chain",
                     JS.JArray (map (fun cert => JS.JString (L3.base64 cert))
                                  (L3.certificateChain bundle)));
                   ("enclave_public_key", JS.JString (L3.enclavePublicKey bundle));
                   ("tapp_id", JS.JString (L3.tappId bundle)) ]);
       L3.rq_timeout := L3.timeoutMs config;
       L3.rq_headers := [("Content-Type", "application/json")] |} in
  (exists n,
      n <= List.length (L3.endpoints config)
      /\ snd (L3.submitAttestation net config bundle)
         = map post (firstn n (L3.endpoints config)))
  /\ (forall before endpoint after code data submission,
        L3.endpoints config = before ++ endpoint :: after ->
        (forall i e, nth_error before i = Some e ->
                     L3.unusable (L3.timeoutMs config) (net i (post e))) ->
        (0 <= L3.timeoutMs config)%Z ->
        net (List.length before) (post endpoint) = L3.Response code data ->
        (200 <= code < 300)%N ->
        L3.read_submission data = inr submission ->
        L3.submitAttestation net config bundle
        = (JS.Returned submission, map post (before ++ [endpoint])))
  /\ (forall before endpoint after code fields,
        L3.endpoints config = before ++ endpoint :: after ->
        (forall i e, nth_error before i = Some e ->
                     L3.unusable (L3.timeoutMs config) (net i (post e))) ->
        (0 <= L3.timeoutMs config)%Z ->
        net (List.length before) (post endpoint)
        = L3.Response code (JS.JObject fields) ->
        (200 <= code < 300)%N ->
        JS.printable (JS.lookup_field "submission_time" fields) = true ->
        L3.submitAttestation net config bundle
        = (JS.Returned
             {| L3.attestationId := JS.lookup_field "attestation_id" fields;
                L3.submissionTime :=
                  L3.NewDate (JS.lookup_field "submission_time" fields);
                L3.status := JS.lookup_field "status" fields |},
           map post (before ++ [endpoint]))).
Proof.
  intros post.
  change post with (L3.submit_request config (L3.submit_payload bundle)).
  clear post. split; [|split].
  - apply submit_loop_prefix.
  - intros before endpoint after code data submission Heps Hfail Hlimit Hreply
           Hcode Hread.
    unfold L3.submitAttestation. rewrite Heps.
    apply submit_loop_first_success; [now apply unusable_replies_fail|].
    apply try_endpoint_succeeds. split; [exact Hlimit|].
    now exists code, data.
  - intros before endpoint after code fields Heps Hfail Hlimit Hreply Hcode Hdate.
    unfold L3.submitAttestation. rewrite Heps.
    apply submit_loop_first_success; [now apply unusable_replies_fail|].
    apply try_endpoint_succeeds. split; [exact Hlimit|].
    exists code, (JS.JObject fields).
    split; [exact Hreply|]. split; [exact Hcode|].
    now apply read_submission_object.
Qed.


Section HealthProperties.
Import JS L3.

(** A probe always answers: its request has a time limit. *)
Lemma probe_responds_ok (net : network) (sent : nat) (endpoint : string) :
  probe net sent endpoint = Returned (healthy net (sent, endpoint)).
Proof.
  unfold probe, healthy, axios, responds_ok. simpl.
  destruct (net sent (health_request endpoint)) as [msg| |code data]; try reflexivity.
  now destruct ((200 <=? code)%N && (code <? 300)%N).
Qed.

Lemma probe_all_numbered (net : network) (eps : list string) :
  forall sent,
    probe_all net sent eps
    = map (fun p => Returned (healthy net p)) (numbered sent eps).
Proof.
  induction eps as [|endpoint rest IH]; intros sent; [reflexivity|].
  unfold numbered in *. simpl. now rewrite probe_responds_ok, IH.
Qed.

Lemma Promise_all_fulfilled {A B : Type} (f : A -> B) (l : list A) :
  Promise_all (map (fun x => Returned (f x)) l) = Returned (map f l).
Proof.
  induction l as [|x l IH]; [reflexivity|]. simpl. now rewrite IH.
Qed.

Lemma count_true_map {A : Type} (f : A -> bool) (l : list A) :
  List.length (filter (fun r => r) (map f l)) = List.length (filter f l).
Proof.
  induction l as [|x l IH]; [reflexivity|].
  simpl. destruct (f x); simpl; now rewrite IH.
Qed.

Lemma filter_length_mono {A : Type} (f g : A -> bool) (l : list A) :
  (forall x, In x l -> f x = true -> g x = true) ->
  List.length (filter f l) <= List.length (filter g l).
Proof.
  induction l as [|x l IH]; intros H; [apply Nat.le_refl|].
  simpl. assert (IH' := IH (fun y Hy => H y (or_intror Hy))).
  destruct (f x) eqn:Hf.
  - rewrite (H x (or_introl eq_refl) Hf). simpl. lia.
  - destruct (g x); simpl; lia.
Qed.

Lemma numbered_length (sent : nat) (eps : list string) :
  List.length (numbered sent eps) = List.length eps.
Proof.
  unfold numbered. rewrite length_combine, length_seq. apply Nat.min_id.
Qed.

(** The run of [checkGuardiansHealth], whatever the network does. *)
Lemma checkGuardiansHealth_run (net : network) (config : L3Config) :
  checkGuardiansHealth net config
  = (Returned
       {| reachable :=
            List.length (filter (healthy net) (numbered 0 (endpoints config)));
          total := List.length (endpoints config) |},
     map health_request (endpoints config)).
Proof.
  unfold checkGuardiansHealth.
  now rewrite probe_all_numbered, Promise_all_fulfilled, count_true_map.
Qed.

End HealthProperties.

(** C7. [checkGuardiansHealth] never throws and always returns: whatever
    the network does, it sends one GET to [endpoint/health] per configured
    endpoint, each with a time limit of 5000 ms, and returns the number of
    endpoints whose own reply was a 2xx response together with the number
    configured; a network error, a missing answer or another status only
    leaves that endpoint out of the count, and a network on which more
    probes fail only yields a smaller count. *)
Theorem C7_health_probe_independence (net : L3.network) (config : L3.L3Config) :
  let get := fun endpoint =>
    {| L3.rq_method := L3.GET;
       L3.rq_url := endpoint ^^ "/health";
       L3.rq_body := None;
       L3.rq_timeout := 5000;
       L3.rq_headers := [] |} in
  let answered := fun (network : L3.network) (probe : nat * string) =>
    match network (fst probe) (get (snd probe)) with
    | L3.Response code _ => ((200 <=? code) && (code <? 300))%N
    | _ => false
    end in
  let probes :=
    combine (seq 0 (List.length (L3.endpoints config))) (L3.endpoints config) in
  L3.checkGuardiansHealth net config
  = (JS.Returned
       {| L3.reachable := List.length (filter (answered net) probes);
          L3.total := List.length (L3.endpoints config) |},
     map get (L3.endpoints config))
  /\ List.length (filter (answered net) probes) <= List.length (L3.endpoints config)
  /\ L3.probe_all net 0 (L3.endpoints config)
     = map (fun probe => JS.Returned (answered net probe)) probes
  /\ (forall net',
        (forall probe, In probe probes ->
                       answered net' probe = true -> answered net probe = true) ->
        exists h h',
          fst (L3.checkGuardiansHealth net config) = JS.Returned h
          /\ fst (L3.checkGuardiansHealth net' config) = JS.Returned h'
          /\ L3.reachable h' <= L3.reachable h
          /\ snd (L3.checkGuardiansHealth net' config)
             = snd (L3.checkGuardiansHealth net config)).
Proof.
  intros get answered probes.
  change get with L3.health_request.
  change answered with L3.healthy.
  change probes with (L3.numbered 0 (L3.endpoints config)).
  clear get answered probes.
  split; [apply checkGuardiansHealth_run|]. split; [|split].
  - etransitivity; [apply filter_length_le|].
    rewrite numbered_length. apply Nat.le_refl.
  - apply probe_all_numbered.
  - intros net' Hworse. rewrite !checkGuardiansHealth_run.
    eexists. eexists. split; [reflexivity|]. split; [reflexivity|].
    cbn [fst snd L3.reachable]. split; [|reflexivity].
    now apply filter_length_mono.
Qed.

(* ================================================================== *)
(** * Properties of the wire format and of the data handler             *)
(* ================================================================== *)

Section WireProperties.
Import JS Wire.

Lemma to_N_byte_of_N (n : N) : Byte.to_N (byte_of_N n) = (n mod 256)%N.
Proof.
  unfold byte_of_N.
  pose proof (Byte.to_of_N_option_map (n mod 256)) as H.
  destruct (Byte.of_N (n mod 256)) as [b|] eqn:E.
  - now apply Byte.to_of_N.
  - assert (Hle : (n mod 256 <=? 255)%N = true).
    { apply N.leb_le. pose proof (N.mod_upper_bound n 256). lia. }
    rewrite Hle in H. discriminate.
Qed.

(** Big-endian: reading the four bytes gives the number back. *)
Lemma uint32BE_uint32_bytes (n : N) :
  (n < 4294967296)%N ->
  uint32BE (byte_of_N (n / 16777216)) (byte_of_N (n / 65536))
           (byte_of_N (n / 256)) (byte_of_N n) = n.
Proof.
  intros Hn. unfold uint32BE. rewrite !to_N_byte_of_N.
  zify. Z.to_euclidean_division_equations. lia.
Qed.

End WireProperties.

Section HandlerProperties.
Import JS Wire VsocketClient.
Context {rt : Runtime}.

Lemma set_dataBuffer_twice (b b' : list byte) (c : t) :
  set_dataBuffer b (set_dataBuffer b' c) = set_dataBuffer b c.
Proof. reflexivity. Qed.

Lemma set_dataBuffer_same (c : t) : set_dataBuffer (dataBuffer c) c = c.
Proof. now destruct c. Qed.

Lemma settle_dataBuffer (parsed : string + jsval) (c : t) :
  dataBuffer (fst (settle parsed c)) = dataBuffer c.
Proof. unfold settle. destruct parsed, (pendingResponse c); reflexivity. Qed.

(** [settle] does not look at the buffer. *)
Lemma settle_set_dataBuffer (parsed : string + jsval) (b : list byte) (c : t) :
  settle parsed (set_dataBuffer b c)
  = (set_dataBuffer b (fst (settle parsed c)), snd (settle parsed c)).
Proof. unfold settle. simpl. destruct parsed, (pendingResponse c); reflexivity. Qed.

Lemma settle_other_buffer (parsed : string + jsval) (b b' : list byte) (c : t) :
  settle parsed (set_dataBuffer b' c)
  = (set_dataBuffer b' (fst (settle parsed (set_dataBuffer b c))),
     snd (settle parsed (set_dataBuffer b c))).
Proof. now rewrite !settle_set_dataBuffer. Qed.

Lemma settle_no_promise (parsed : string + jsval) (c : t) :
  pendingResponse c = None -> settle parsed c = (c, []).
Proof. intros H. unfold settle. rewrite H. now destruct parsed. Qed.

Lemma settle_deserialized (parsed : string + jsval) (c : t) :
  deserialized (snd (settle parsed c)) = [].
Proof. unfold settle. destruct parsed, (pendingResponse c); reflexivity. Qed.

Lemma deserialized_app (e1 e2 : list effect) :
  deserialized (e1 ++ e2) = deserialized e1 ++ deserialized e2.
Proof.
  induction e1 as [|e e1 IH]; [reflexivity|].
  destruct e; simpl; now rewrite ?IH.
Qed.

(** One turn of the loop, on a buffer of at least four bytes. *)
Lemma handle_loop_step (fuel : nat) (c : t) (b0 b1 b2 b3 : byte) (rest : list byte) :
  dataBuffer c = b0 :: b1 :: b2 :: b3 :: rest ->
  handle_loop (S fuel) c
  = if (4 + uint32BE b0 b1 b2 b3 <=? N.of_nat (List.length (dataBuffer c)))%N then
      let messageBuffer :=
        slice 4 (4 + N.to_nat (uint32BE b0 b1 b2 b3)) (dataBuffer c) in
      let c1 :=
        set_dataBuffer
          (slice_from (4 + N.to_nat (uint32BE b0 b1 b2 b3)) (dataBuffer c)) c in
      let '(c2, settled) := settle (deserialize messageBuffer) c1 in
      let '(c3, later) := handle_loop fuel c2 in
      (c3, Deserialized messageBuffer :: settled ++ later)
    else (c, []).
Proof.
  intros Hb. cbn [handle_loop]. rewrite Hb. reflexivity.
Qed.

(** On an incomplete buffer the loop stops at once. *)
Lemma handle_loop_incomplete (fuel : nat) (c : t) :
  incomplete (dataBuffer c) -> handle_loop fuel c = (c, []).
Proof.
  intros Hinc. destruct fuel as [|fuel]; [reflexivity|].
  destruct (dataBuffer c) as [|b0 [|b1 [|b2 [|b3 rest]]]] eqn:Hb;
    try (cbn [handle_loop]; rewrite Hb; reflexivity).
  rewrite (handle_loop_step fuel c b0 b1 b2 b3 rest Hb).
  unfold incomplete in Hinc. rewrite Hb.
  apply N.leb_gt in Hinc. now rewrite Hinc.
Qed.

(** A buffer is incomplete or starts with a complete frame. *)
Lemma incomplete_or_complete (buf : list byte) :
  incomplete buf
  \/ exists b0 b1 b2 b3 rest,
       buf = b0 :: b1 :: b2 :: b3 :: rest
       /\ (4 + uint32BE b0 b1 b2 b3 <= N.of_nat (List.length buf))%N.
Proof.
  destruct buf as [|b0 [|b1 [|b2 [|b3 rest]]]]; try (left; exact I).
  destruct (N.lt_ge_cases (N.of_nat (List.length (b0 :: b1 :: b2 :: b3 :: rest)))
              (4 + uint32BE b0 b1 b2 b3)) as [Hlt|Hge].
  - left. exact Hlt.
  - right. now exists b0, b1, b2, b3, rest.
Qed.

Lemma skipn_length_le (n fuel : nat) (buf : list byte) :
  List.length buf <= S fuel -> 4 <= n -> List.length (skipn n buf) <= fuel.
Proof. intros H Hn. rewrite length_skipn. lia. Qed.

(** Fuel beyond the length of the buffer changes nothing. *)
Lemma handle_loop_fuel (fuel : nat) :
  forall fuel' c,
    List.length (dataBuffer c) <= fuel ->
    List.length (dataBuffer c) <= fuel' ->
    handle_loop fuel c = handle_loop fuel' c.
Proof.
  induction fuel as [|fuel IH]; intros fuel' c Hf Hf'.
  - rewrite !handle_loop_incomplete; trivial;
      destruct (dataBuffer c); try exact I; simpl in Hf; lia.
  - destruct (incomplete_or_complete (dataBuffer c))
      as [Hinc | (b0 & b1 & b2 & b3 & rest & Hb & Hlen)].
    + now rewrite !handle_loop_incomplete.
    + destruct fuel' as [|fuel']; [rewrite Hb in Hf'; simpl in Hf'; lia|].
      rewrite !(handle_loop_step _ c b0 b1 b2 b3 rest Hb).
      destruct (_ <=? _)%N; [|reflexivity]. cbv zeta.
      destruct (settle _ _) as [c2 settled] eqn:Hs.
      assert (Hc2 : dataBuffer c2 = slice_from (4 + N.to_nat (uint32BE b0 b1 b2 b3))
                                      (dataBuffer c)).
      { change c2 with (fst (c2, settled)). rewrite <- Hs.
        now rewrite settle_dataBuffer. }
      rewrite (IH fuel' c2); [reflexivity| |];
        rewrite Hc2; unfold slice_from; apply skipn_length_le; lia.
Qed.

(** After the loop the buffer holds no complete frame. *)
Lemma handle_loop_settles_down (fuel : nat) :
  forall c,
    List.length (dataBuffer c) <= fuel ->
    settled_down (fst (handle_loop fuel c)).
Proof.
  induction fuel as [|fuel IH]; intros c Hf.
  - simpl. unfold settled_down. apply handle_loop_incomplete.
    destruct (dataBuffer c); [exact I | simpl in Hf; lia].
  - destruct (incomplete_or_complete (dataBuffer c))
      as [Hinc | (b0 & b1 & b2 & b3 & rest & Hb & Hlen)].
    + rewrite handle_loop_incomplete by assumption. simpl.
      unfold settled_down. now apply handle_loop_incomplete.
    + rewrite (handle_loop_step _ c b0 b1 b2 b3 rest Hb).
      destruct (_ <=? _)%N eqn:Hc.
      * cbv zeta. destruct (settle _ _) as [c2 settled] eqn:Hs.
        assert (Hc2 : dataBuffer c2 = slice_from (4 + N.to_nat (uint32BE b0 b1 b2 b3))
                                        (dataBuffer c)).
        { change c2 with (fst (c2, settled)). rewrite <- Hs.
          now rewrite settle_dataBuffer. }
        specialize (IH c2). destruct (handle_loop fuel c2) as [c3 later].
        cbn [fst] in *. apply IH. rewrite Hc2. unfold slice_from.
        apply skipn_length_le; lia.
      * apply N.leb_le in Hlen. congruence.
Qed.

(** Data that arrives later does not change what the loop does with the
    frames already complete: handling [buf ++ extra] is handling [buf] and
    then what is left followed by [extra]. *)
Lemma handle_loop_append (fuel : nat) :
  forall c extra,
    List.length (dataBuffer c) <= fuel ->
    handle_loop (fuel + List.length extra) (set_dataBuffer (dataBuffer c ++ extra) c)
    = let '(c1, e1) := handle_loop fuel c in
      let '(c2, e2) :=
        handle_loop (List.length (dataBuffer c1 ++ extra))
          (set_dataBuffer (dataBuffer c1 ++ extra) c1) in
      (c2, e1 ++ e2).
Proof.
  induction fuel as [|fuel IH]; intros c extra Hf.
  - assert (Hnil : dataBuffer c = []) by (destruct (dataBuffer c); [reflexivity | simpl in Hf; lia]).
    simpl. rewrite Hnil. simpl.
    now destruct (handle_loop _ _).
  - destruct (incomplete_or_complete (dataBuffer c))
      as [Hinc | (b0 & b1 & b2 & b3 & rest & Hb & Hlen)].
    + rewrite (handle_loop_incomplete (S fuel) c Hinc).
      rewrite (handle_loop_fuel _ (List.length (dataBuffer c ++ extra)));
        [now destruct (handle_loop _ _) | |]; simpl; rewrite length_app; lia.
    + assert (Hb' : dataBuffer (set_dataBuffer (dataBuffer c ++ extra) c)
                    = b0 :: b1 :: b2 :: b3 :: (rest ++ extra)).
      { unfold set_dataBuffer. cbn [dataBuffer]. now rewrite Hb. }
      change (S fuel + List.length extra) with (S (fuel + List.length extra)).
      rewrite (handle_loop_step _ _ b0 b1 b2 b3 _ Hb').
      rewrite (handle_loop_step _ c b0 b1 b2 b3 rest Hb).
      assert (Hlen' : (4 + uint32BE b0 b1 b2 b3
                       <= N.of_nat (List.length
                            (dataBuffer (set_dataBuffer (dataBuffer c ++ extra) c))))%N).
      { unfold set_dataBuffer. cbn [dataBuffer]. rewrite length_app. lia. }
      apply N.leb_le in Hlen, Hlen'. rewrite Hlen, Hlen'. cbv zeta.
      apply N.leb_le in Hlen.
      set (n := 4 + N.to_nat (uint32BE b0 b1 b2 b3)) in *.
      assert (Hn : n <= List.length (dataBuffer c)) by (unfold n; lia).
      assert (Hmsg : slice 4 n (dataBuffer (set_dataBuffer (dataBuffer c ++ extra) c))
                     = slice 4 n (dataBuffer c)).
      { unfold slice. simpl dataBuffer. rewrite skipn_app, firstn_app.
        replace (n - 4 - List.length (skipn 4 (dataBuffer c))) with 0
          by (rewrite length_skipn; lia).
        rewrite firstn_0. apply app_nil_r. }
      assert (Hrest : slice_from n (dataBuffer (set_dataBuffer (dataBuffer c ++ extra) c))
                      = slice_from n (dataBuffer c) ++ extra).
      { unfold slice_from. simpl dataBuffer. rewrite skipn_app.
        replace (n - List.length (dataBuffer c)) with 0 by lia. reflexivity. }
      rewrite Hmsg, Hrest, set_dataBuffer_twice.
      rewrite (settle_other_buffer _ (slice_from n (dataBuffer c))).
      destruct (settle (deserialize (slice 4 n (dataBuffer c)))
                  (set_dataBuffer (slice_from n (dataBuffer c)) c)) as [c2 settled] eqn:Hs.
      cbn [fst snd].
      assert (Hc2 : dataBuffer c2 = slice_from n (dataBuffer c)).
      { change c2 with (fst (c2, settled)). rewrite <- Hs.
        now rewrite settle_dataBuffer. }
      rewrite <- Hc2. rewrite (IH c2 extra).
      * destruct (handle_loop fuel c2) as [c3 later].
        destruct (handle_loop _ _) as [c4 e4].
        cbn [app]. now rewrite app_assoc.
      * rewrite Hc2. unfold slice_from. apply skipn_length_le; [assumption | unfold n; lia].
Qed.

(** However the stream is cut into chunks, the handler does what it does
    on the whole stream at once. *)
Lemma deliver_concat (chunks : list (list byte)) :
  forall c,
    settled_down c ->
    deliver c chunks = handleData c (List.concat chunks).
Proof.
  induction chunks as [|chunk rest IH]; intros c Hc.
  - simpl. unfold handleData. rewrite app_nil_r, set_dataBuffer_same.
    simpl. symmetry. exact Hc.
  - cbn [deliver List.concat]. unfold handleData at 1.
    set (c0 := set_dataBuffer (dataBuffer c ++ chunk) c).
    pose proof (handle_loop_append (List.length (dataBuffer c0)) c0 (List.concat rest)
                  (Nat.le_refl _)) as Happ.
    pose proof (handle_loop_settles_down (List.length (dataBuffer c0)) c0
                  (Nat.le_refl _)) as Hdown.
    destruct (handle_loop (List.length (dataBuffer c0)) c0) as [c1 e1].
    cbn [fst] in Hdown. rewrite (IH c1 Hdown).
    unfold handleData.
    destruct (handle_loop _ (set_dataBuffer (dataBuffer c1 ++ List.concat rest) c1))
      as [c2 e2] eqn:H2.
    clear H2.
    assert (E1 : set_dataBuffer (dataBuffer c0 ++ List.concat rest) c0
                 = set_dataBuffer (dataBuffer c ++ chunk ++ List.concat rest) c).
    { unfold c0, set_dataBuffer. cbn [dataBuffer socket connected pendingResponse].
      now rewrite <- app_assoc. }
    assert (E2 : List.length (dataBuffer c0) + List.length (List.concat rest)
                 = List.length (dataBuffer (set_dataBuffer
                                  (dataBuffer c ++ chunk ++ List.concat rest) c))).
    { unfold c0, set_dataBuffer. cbn [dataBuffer]. rewrite !length_app. lia. }
    rewrite E1, E2 in Happ. now rewrite Happ.
Qed.

Lemma frame_bytes_cons (payload : list byte) :
  frame_bytes payload
  = byte_of_N (N.of_nat (List.length payload) / 16777216)
      :: byte_of_N (N.of_nat (List.length payload) / 65536)
      :: byte_of_N (N.of_nat (List.length payload) / 256)
      :: byte_of_N (N.of_nat (List.length payload))
      :: payload.
Proof. reflexivity. Qed.

(** A complete frame at the head of the buffer is cut off, handed to the
    deserializer, and the loop goes on with what follows it. *)
Lemma handle_loop_frame (fuel : nat) (c : t) (payload rest : list byte) :
  dataBuffer c = frame_bytes payload ++ rest ->
  (N.of_nat (List.length payload) < 4294967296)%N ->
  handle_loop (S fuel) c
  = let '(c2, settled) := settle (deserialize payload) (set_dataBuffer rest c) in
    let '(c3, later) := handle_loop fuel c2 in
    (c3, Deserialized payload :: settled ++ later).
Proof.
  intros Hb Hlen. rewrite frame_bytes_cons in Hb. cbn [app] in Hb.
  rewrite (handle_loop_step fuel c _ _ _ _ _ Hb).
  rewrite (uint32BE_uint32_bytes _ Hlen).
  assert (Hsize : List.length (dataBuffer c)
                  = 4 + (List.length payload + List.length rest)).
  { rewrite Hb. cbn [List.length]. now rewrite length_app. }
  assert (Hle : (4 + N.of_nat (List.length payload)
                 <=? N.of_nat (List.length (dataBuffer c)))%N = true).
  { apply N.leb_le. rewrite Hsize. lia. }
  rewrite Hle. cbv zeta. rewrite Nat2N.id.
  assert (Hmsg : slice 4 (4 + List.length payload) (dataBuffer c) = payload).
  { unfold slice. rewrite Hb. cbn [skipn].
    replace (4 + List.length payload - 4) with (List.length payload + 0) by lia.
    rewrite firstn_app_2. cbn [firstn]. apply app_nil_r. }
  assert (Hrest : slice_from (4 + List.length payload) (dataBuffer c) = rest).
  { unfold slice_from. rewrite Hb. cbn [skipn Nat.add].
    rewrite skipn_app, skipn_all, Nat.sub_diag. reflexivity. }
  now rewrite Hmsg, Hrest.
Qed.

(** Short of its last byte, a frame is incomplete. *)
Lemma strict_prefix_incomplete (buf rest payload : list byte) :
  buf ++ rest = frame_bytes payload ->
  rest <> [] ->
  (N.of_nat (List.length payload) < 4294967296)%N ->
  incomplete buf.
Proof.
  intros Heq Hrest Hlen.
  destruct buf as [|b0 [|b1 [|b2 [|b3 tl]]]]; try exact I.
  rewrite frame_bytes_cons in Heq. cbn [app] in Heq.
  inversion Heq as [[H0 H1 H2 H3 Htl]]. unfold incomplete. clear Heq.
  rewrite Htl, (uint32BE_uint32_bytes _ Hlen), <- Htl, length_app.
  cbn [List.length].
  destruct rest; [contradiction|]. cbn [List.length]. lia.
Qed.

(** The loop on a buffer made of complete frames followed by an incomplete
    remainder: each payload goes to the deserializer once, in order, and
    the remainder stays. *)
Lemma handle_loop_frames (payloads : list (list byte)) :
  forall fuel c tail,
    dataBuffer c = List.concat (map frame_bytes payloads) ++ tail ->
    Forall (fun payload => (N.of_nat (List.length payload) < 4294967296)%N) payloads ->
    incomplete tail ->
    List.length (dataBuffer c) <= fuel ->
    deserialized (snd (handle_loop fuel c)) = payloads
    /\ dataBuffer (fst (handle_loop fuel c)) = tail
    /\ (pendingResponse c = None ->
        handle_loop fuel c = (set_dataBuffer tail c, map Deserialized payloads)).
Proof.
  induction payloads as [|payload payloads IH]; intros fuel c tail Hb Hok Htail Hfuel.
  - simpl in Hb. rewrite handle_loop_incomplete by (now rewrite Hb).
    repeat split; try assumption. intros _. now rewrite <- Hb, set_dataBuffer_same.
  - inversion Hok as [|? ? Hlen Hok']; subst.
    cbn [map List.concat] in Hb. rewrite <- app_assoc in Hb.
    destruct fuel as [|fuel].
    { rewrite Hb, frame_bytes_cons in Hfuel. cbn [app List.length] in Hfuel. lia. }
    rewrite (handle_loop_frame fuel c payload _ Hb Hlen).
    destruct (settle (deserialize payload)
                (set_dataBuffer (List.concat (map frame_bytes payloads) ++ tail) c))
      as [c2 settled] eqn:Hs.
    assert (Hc2 : dataBuffer c2 = List.concat (map frame_bytes payloads) ++ tail).
    { change c2 with (fst (c2, settled)). rewrite <- Hs. now rewrite settle_dataBuffer. }
    assert (Hfuel2 : List.length (dataBuffer c2) <= fuel).
    { rewrite Hc2. rewrite Hb, frame_bytes_cons in Hfuel.
      cbn [app List.length] in Hfuel. rewrite length_app in Hfuel. lia. }
    destruct (IH fuel c2 tail Hc2 Hok' Htail Hfuel2) as (Hdes & Hbuf & Hnone).
    destruct (handle_loop fuel c2) as [c3 later] eqn:Hrun. cbn [fst snd] in *.
    split; [|split].
    + cbn [deserialized]. rewrite deserialized_app, Hdes.
      change settled with (snd (c2, settled)). rewrite <- Hs.
      now rewrite settle_deserialized.
    + exact Hbuf.
    + intros Hp. rewrite settle_no_promise in Hs by exact Hp.
      injection Hs as Hc2' Hsettled. subst c2 settled.
      pose proof (Hnone Hp) as Hfin. injection Hfin as Hc3 Hlater.
      rewrite Hc3, Hlater. reflexivity.
Qed.

End HandlerProperties.

Section FramingTheorems.
Import JS Wire VsocketClient.
Context {rt : Runtime}.

Lemma empty_buffer_settled_down (c : t) : dataBuffer c = [] -> settled_down c.
Proof. intros H. unfold settled_down. now rewrite H. Qed.

Lemma encode_frame_inv (r : TeeRequest) (frame : list byte) :
  encode_frame r = Some frame ->
  frame = frame_bytes (serialize r)
  /\ (N.of_nat (List.length (serialize r)) < 4294967296)%N.
Proof.
  unfold encode_frame, writeUInt32BE. cbv zeta.
  destruct (_ <? _)%N eqn:Hlt; [|discriminate].
  intros H. injection H as <-. split; [reflexivity | now apply N.ltb_lt].
Qed.

Lemma handleData_on_empty (c : t) (stream : list byte) :
  dataBuffer c = [] ->
  handleData c stream
  = handle_loop (List.length stream) (set_dataBuffer stream c).
Proof. intros H. unfold handleData. now rewrite H. Qed.

Lemma encode_frame_fits (r : TeeRequest) :
  (N.of_nat (List.length (serialize r)) < 4294967296)%N ->
  encode_frame r = Some (frame_bytes (serialize r)).
Proof.
  intros Hlen. unfold encode_frame, writeUInt32BE. cbv zeta.
  apply N.ltb_lt in Hlen. now rewrite Hlen.
Qed.

Lemma encode_frame_too_long (r : TeeRequest) :
  (4294967296 <= N.of_nat (List.length (serialize r)))%N ->
  encode_frame r = None.
Proof.
  intros Hlen. unfold encode_frame, writeUInt32BE. cbv zeta.
  apply N.ltb_ge in Hlen. now rewrite Hlen.
Qed.

(** A client that awaits a response and has nothing buffered, fed one
    frame cut into chunks anywhere, hands the payload to the parser once
    and settles the promise with what the parser answers. *)
Lemma deliver_one_frame (c : t) (p : nat) (payload : list byte)
    (chunks : list (list byte)) :
  dataBuffer c = [] ->
  pendingResponse c = Some p ->
  (N.of_nat (List.length payload) < 4294967296)%N ->
  List.concat chunks = frame_bytes payload ->
  deliver c chunks
  = (set_pendingResponse None c,
     [ Deserialized payload;
       match deserialize payload with
       | inr decoded => Resolve p decoded
       | inl msg => Reject p (VsocketError ("JSON parse failed: " ^^ msg))
       end ]).
Proof.
  intros Hbuf Hp Hlen Hchunks.
  rewrite (deliver_concat chunks c (empty_buffer_settled_down c Hbuf)), Hchunks.
  rewrite (handleData_on_empty c _ Hbuf).
  rewrite frame_bytes_cons at 1. cbn [List.length].
  rewrite (handle_loop_frame _ _ payload []);
    [| now rewrite app_nil_r | exact Hlen].
  unfold settle. cbn [pendingResponse set_dataBuffer]. rewrite Hp.
  destruct c as [s conn buf pend]. simpl in Hbuf. subst buf.
  destruct (deserialize payload) as [msg|decoded];
    now rewrite handle_loop_incomplete by exact I.
Qed.

(** C3 (amended). The request object [{id, method, params, timestamp}] of
    [r] goes on the wire as four bytes holding, big-endian, the byte
    length of its UTF-8 JSON, followed by those bytes, provided the JSON
    is shorter than 2^32 bytes (a longer one is not sent: writing the
    length raises).  Fed to the handler of a client that awaits a response
    and has nothing buffered, in chunks cut anywhere, the frame makes the
    handler parse the payload once and settle the awaited promise with
    what [JSON.parse] gives: a value equal to the request object when
    [JSON.parse] gives back what [JSON.stringify] was given, and not for
    every request.  As long as the chunks received make up less than the
    whole frame the handler does nothing, so the parser is not called
    before the last payload byte is in. *)
Theorem C3_framing_round_trip (r : TeeRequest) (p : nat) (c : t) :
  let envelope :=
    JObject [ ("id", JString (id r));
              ("method", JString (method r));
              ("params", params r);
              ("timestamp", JNumber (timestamp r)) ] in
  let json := Buffer_from_utf8 (JSON_stringify envelope) in
  dataBuffer c = [] ->
  pendingResponse c = Some p ->
  ((4294967296 <= N.of_nat (List.length json))%N -> encode_frame r = None)
  /\ ((N.of_nat (List.length json) < 4294967296)%N ->
      exists b0 b1 b2 b3,
        encode_frame r = Some (b0 :: b1 :: b2 :: b3 :: json)
        /\ uint32BE b0 b1 b2 b3 = N.of_nat (List.length json)
        /\ (forall chunks,
              List.concat chunks = b0 :: b1 :: b2 :: b3 :: json ->
              deliver c chunks
              = (set_pendingResponse None c,
                 [ Deserialized json;
                   match JSON_parse (toString_utf8 json) with
                   | inr decoded => Resolve p decoded
                   | inl msg =>
                       Reject p (VsocketError ("JSON parse failed: " ^^ msg))
                   end ]))
        /\ (JSON_parse (toString_utf8 json) = inr envelope ->
            forall chunks,
              List.concat chunks = b0 :: b1 :: b2 :: b3 :: json ->
              deliver c chunks
              = (set_pendingResponse None c,
                 [Deserialized json; Resolve p envelope]))
        /\ (forall chunks rest,
              rest <> [] ->
              List.concat chunks ++ rest = b0 :: b1 :: b2 :: b3 :: json ->
              deliver c chunks = (set_dataBuffer (List.concat chunks) c, []))).
Proof.
  intros envelope json.
  change json with (serialize r). change envelope with (request_value r).
  clear json envelope. intros Hbuf Hp.
  split; [apply encode_frame_too_long|]. intros Hlen.
  do 4 eexists. split; [|split; [|split; [|split]]].
  - rewrite (encode_frame_fits r Hlen), frame_bytes_cons. reflexivity.
  - now apply uint32BE_uint32_bytes.
  - intros chunks Hchunks. rewrite <- frame_bytes_cons in Hchunks.
    exact (deliver_one_frame c p (serialize r) chunks Hbuf Hp Hlen Hchunks).
  - intros Hround chunks Hchunks. rewrite <- frame_bytes_cons in Hchunks.
    rewrite (deliver_one_frame c p (serialize r) chunks Hbuf Hp Hlen Hchunks).
    unfold deserialize. now rewrite Hround.
  - intros chunks rest Hrest Hchunks. rewrite <- frame_bytes_cons in Hchunks.
    rewrite (deliver_concat chunks c (empty_buffer_settled_down c Hbuf)).
    rewrite (handleData_on_empty c _ Hbuf).
    apply handle_loop_incomplete. cbn [dataBuffer set_dataBuffer].
    now apply (strict_prefix_incomplete _ rest (serialize r)).
Qed.

Lemma incomplete_settled_down (c : t) :
  incomplete (dataBuffer c) -> settled_down c.
Proof. intros H. unfold settled_down. now apply handle_loop_incomplete. Qed.

(** C9. Let the buffer hold no complete frame, and let the bytes it holds
    followed by those that arrive, cut into chunks anywhere, make up
    complete frames and an incomplete remainder.  Then every frame's payload
    is handed to the deserializer exactly once, in order, and leaves the
    buffer, which ends up holding the remainder only.  With no response
    awaited, nothing but the deserializer calls happens: no promise is
    settled and the client is left as it was but for the buffer, so a
    [readMessage] issued afterwards starts from a state in which those
    frames never arrived. *)
Theorem C9_frames_consumed_once (c : t) (payloads : list (list byte))
    (tail : list byte) (chunks : list (list byte)) :
  incomplete (dataBuffer c) ->
  Forall (fun payload => (N.of_nat (List.length payload) < 4294967296)%N) payloads ->
  incomplete tail ->
  dataBuffer c ++ List.concat chunks
  = List.concat (map frame_bytes payloads) ++ tail ->
  deserialized (snd (deliver c chunks)) = payloads
  /\ dataBuffer (fst (deliver c chunks)) = tail
  /\ (pendingResponse c = None ->
      deliver c chunks = (set_dataBuffer tail c, map Deserialized payloads)
      /\ filter is_settlement (snd (deliver c chunks)) = []
      /\ forall q later,
           deliver (set_pendingResponse (Some q) (fst (deliver c chunks))) later
           = deliver (set_pendingResponse (Some q) (set_dataBuffer tail c)) later).
Proof.
  intros Hbuf Hok Htail Hchunks.
  rewrite (deliver_concat chunks c (incomplete_settled_down c Hbuf)).
  unfold handleData. rewrite Hchunks.
  destruct (handle_loop_frames payloads
              (List.length (List.concat (map frame_bytes payloads) ++ tail))
              (set_dataBuffer (List.concat (map frame_bytes payloads) ++ tail) c)
              tail eq_refl Hok Htail (Nat.le_refl _)) as (Hdes & Hrest & Hnone).
  cbn [dataBuffer set_dataBuffer] in *.
  split; [exact Hdes|]. split; [exact Hrest|].
  intros Hp. rewrite (Hnone Hp). cbn [fst snd]. rewrite set_dataBuffer_twice.
  split; [reflexivity|]. split; [|reflexivity].
  clear. induction payloads as [|payload payloads IH]; [reflexivity | exact IH].
Qed.

End FramingTheorems.

(* ================================================================== *)
(** * Properties of the socket clients                                  *)
(* ================================================================== *)

Section UnixClientProperties.
Import JS Wire UnixSocketClient.

(** A connected instance holds a socket. *)
Lemma unix_connect_attempt_attached (peer : nat -> handshake) (w : world) :
  (connected (client w) = true -> socket (client w) <> None) ->
  connected (client (snd (connect_attempt peer w))) = true ->
  socket (client (snd (connect_attempt peer w))) <> None.
Proof.
  intros Hw. unfold connect_attempt.
  destruct (peer (handshakes_made w)); simpl; try discriminate; try exact Hw.
  destruct (connected (client w)); simpl; discriminate.
Qed.

Lemma unix_reachable_attached (w : world) :
  reachable w -> connected (client w) = true -> socket (client w) <> None.
Proof.
  induction 1 as [|peer config w Hw IH|w Hw IH|w Hw IH Hs|w Hw IH Hs].
  - discriminate.
  - unfold connect, Retry.retryWithBackoff.
    apply (retry_loop_preserves (connect_attempt peer) (connect_options config)
             (fun w => connected (client w) = true -> socket (client w) <> None)).
    + intros w0. apply unix_connect_attempt_attached.
    + exact IH.
  - unfold run_disconnect, disconnect.
    destruct (socket (client w)) eqn:Hs; simpl.
    + discriminate.
    + intros Hc. simpl in Hc. apply IH in Hc. congruence.
  - simpl. discriminate.
  - simpl. intros _. exact Hs.
Qed.

End UnixClientProperties.

Section VsocketClientProperties.
Import JS Wire VsocketClient.
Context {rt : Runtime}.
Variable enclave : peer.
Variable config : VsockConfig.

Local Abbreviation attached :=
  (fun w : world => connected (client w) = true -> socket (client w) <> None).

Lemma settle_link (parsed : string + jsval) (c : t) :
  socket (fst (settle parsed c)) = socket c
  /\ connected (fst (settle parsed c)) = connected c.
Proof. unfold settle. destruct parsed, (pendingResponse c); now split. Qed.

Lemma handle_loop_link (fuel : nat) :
  forall c,
    socket (fst (handle_loop fuel c)) = socket c
    /\ connected (fst (handle_loop fuel c)) = connected c.
Proof.
  induction fuel as [|fuel IH]; intros c; [now split|].
  destruct (incomplete_or_complete (dataBuffer c))
    as [Hinc | (b0 & b1 & b2 & b3 & rest & Hb & Hlen)].
  - rewrite handle_loop_incomplete by assumption. now split.
  - rewrite (handle_loop_step _ c b0 b1 b2 b3 rest Hb).
    destruct (_ <=? _)%N; [|now split]. cbv zeta.
    destruct (settle _ _) as [c2 settled] eqn:Hs.
    pose proof (settle_link
                  (deserialize (slice 4 (4 + N.to_nat (uint32BE b0 b1 b2 b3))
                                  (dataBuffer c)))
                  (set_dataBuffer (slice_from (4 + N.to_nat (uint32BE b0 b1 b2 b3))
                                     (dataBuffer c)) c)) as [Hsock Hconn].
    rewrite Hs in Hsock, Hconn.
    cbn [fst socket connected set_dataBuffer] in Hsock, Hconn.
    destruct (IH c2) as [Hsock2 Hconn2].
    destruct (handle_loop fuel c2) as [c3 later]. cbn [fst] in *.
    split; congruence.
Qed.

Lemma handleData_link (c : t) (chunk : list byte) :
  socket (fst (handleData c chunk)) = socket c
  /\ connected (fst (handleData c chunk)) = connected c.
Proof.
  unfold handleData.
  apply (handle_loop_link _ (set_dataBuffer (dataBuffer c ++ chunk) c)).
Qed.

Lemma connect_attempt_attached (w : world) :
  attached w -> attached (snd (connect_attempt enclave w)).
Proof.
  intros Hw. unfold connect_attempt.
  destruct (handshakes enclave (handshakes_made w)); simpl; try discriminate;
    try exact Hw.
  destruct (connected (client w)); simpl; discriminate.
Qed.

Lemma connect_attached (w : world) :
  attached w -> attached (snd (connect enclave config w)).
Proof.
  intros Hw. unfold connect, Retry.retryWithBackoff.
  apply (retry_loop_preserves (connect_attempt enclave) (connect_options config)
           (fun w => connected (client w) = true -> socket (client w) <> None)).
  - intros w0. apply connect_attempt_attached.
  - exact Hw.
Qed.

Lemma writeMessage_attached (msg : TeeRequest) (w : world) :
  attached w -> attached (snd (writeMessage enclave msg w)).
Proof.
  intros Hw. unfold writeMessage.
  destruct (socket (client w)) eqn:Hs; [|exact Hw].
  destruct (encode_frame msg); [|exact Hw].
  destruct (writes enclave (writes_made w)); simpl; now rewrite Hs.
Qed.

Lemma await_attached (p : nat) (chunks : list (list byte)) :
  forall w, attached w -> attached (snd (await p chunks w)).
Proof.
  induction chunks as [|chunk rest IH]; intros w Hw; [exact Hw|].
  cbn [await].
  pose proof (handleData_link (client w) chunk) as [Hsock Hconn].
  destruct (handleData (client w) chunk) as [c1 effs]. cbn [fst] in Hsock, Hconn.
  assert (Hw1 : attached (log effs (with_client (fun _ => c1) w))).
  { simpl. now rewrite Hsock, Hconn. }
  destruct (settlement p effs) as [[error|response]|]; try exact Hw1.
  now apply IH.
Qed.

Lemma readMessage_attached (w : world) :
  attached w -> attached (snd (readMessage enclave w)).
Proof. intros Hw. unfold readMessage. apply await_attached. exact Hw. Qed.

Lemma and_then_preserves {A B : Type} (P : world -> Prop)
    (first : world -> outcome A * world)
    (next : A -> world -> outcome B * world) (w : world) :
  (forall w0, P w0 -> P (snd (first w0))) ->
  (forall a w0, P w0 -> P (snd (next a w0))) ->
  P w -> P (snd (and_then first next w)).
Proof.
  intros Hfirst Hnext Hw. unfold and_then. specialize (Hfirst w Hw).
  destruct (first w) as [[a|reason|] w1]; simpl in *; auto.
Qed.

Lemma try_catch_preserves {A : Type} (P : world -> Prop)
    (body : world -> outcome A * world)
    (handler : option Error -> world -> outcome A * world) (w : world) :
  (forall w0, P w0 -> P (snd (body w0))) ->
  (forall reason w0, P w0 -> P (snd (handler reason w0))) ->
  P w -> P (snd (try_catch body handler w)).
Proof.
  intros Hbody Hhandler Hw. unfold try_catch. specialize (Hbody w Hw).
  destruct (body w) as [[a|reason|] w1]; simpl in *; auto.
Qed.

Lemma drop_socket_attached (w : world) : attached (drop_socket w).
Proof.
  unfold drop_socket, destroy_socket. simpl.
  destruct (socket (client w)); simpl; discriminate.
Qed.

Lemma sendRequest_attached (req : TeeRequest) (w : world) :
  attached w -> attached (snd (sendRequest enclave config req w)).
Proof.
  intros Hw. unfold sendRequest.
  apply (and_then_preserves attached); [| |exact Hw].
  - intros w0 Hw0. destruct (_ || _); [now apply connect_attached | exact Hw0].
  - intros _ w0 Hw0. apply (try_catch_preserves attached); [| |exact Hw0].
    + intros w1 Hw1. apply (and_then_preserves attached); [| |exact Hw1].
      * intros w2. apply writeMessage_attached.
      * intros _ w2. apply readMessage_attached.
    + intros _ w1 _. apply (and_then_preserves attached).
      * intros w2. apply connect_attached.
      * intros _ w2 Hw2. apply (and_then_preserves attached); [| |exact Hw2].
        -- intros w3. apply writeMessage_attached.
        -- intros _ w3. apply readMessage_attached.
      * apply drop_socket_attached.
Qed.

Lemma vsocket_reachable_attached (w : world) :
  reachable enclave config w -> attached w.
Proof.
  induction 1 as [|w Hw IH|req w Hw IH|w Hw IH|chunk w Hw IH Hs|w Hw IH Hs
                  |w Hw IH Hs].
  - discriminate.
  - now apply connect_attached.
  - now apply sendRequest_attached.
  - unfold run_disconnect, disconnect.
    destruct (socket (client w)) eqn:Hs; simpl.
    + discriminate.
    + intros Hc. simpl in Hc. apply IH in Hc. congruence.
  - simpl. destruct (handleData_link (client w) chunk) as [-> ->]. exact IH.
  - simpl. discriminate.
  - simpl. intros _. exact Hs.
Qed.

End VsocketClientProperties.

(** C8. For both implementations of [SocketClient]: [disconnect] never
    throws, whatever the state it is called in; calling it again leaves the
    instance as the first call left it; on a never-connected instance, and
    after [disconnect] in any state the instance can be in, [isConnected]
    answers false. *)
Theorem C8_disconnect_idempotent {rt : Wire.Runtime} :
  (forall c : UnixSocketClient.t,
      exists c' effs effs',
        Wire.disconnect c = (JS.Returned tt, c', effs)
        /\ Wire.disconnect c' = (JS.Returned tt, c', effs'))
  /\ Wire.isConnected (snd (fst (Wire.disconnect UnixSocketClient.create))) = false
  /\ (forall w,
        UnixSocketClient.reachable w ->
        Wire.isConnected (snd (fst (Wire.disconnect (UnixSocketClient.client w))))
        = false)
  /\ (forall c : VsocketClient.t,
        exists c' effs effs',
          Wire.disconnect c = (JS.Returned tt, c', effs)
          /\ Wire.disconnect c' = (JS.Returned tt, c', effs'))
  /\ Wire.isConnected (snd (fst (Wire.disconnect VsocketClient.create))) = false
  /\ (forall enclave config w,
        VsocketClient.reachable enclave config w ->
        Wire.isConnected (snd (fst (Wire.disconnect (VsocketClient.client w))))
        = false).
Proof.
  split; [|split; [|split; [|split; [|split]]]].
  - intros [[s|] conn]; do 3 eexists; split; reflexivity.
  - reflexivity.
  - intros w Hw. pose proof (unix_reachable_attached w Hw) as Hatt.
    cbn [Wire.disconnect Wire.isConnected unix_socket_client].
    unfold UnixSocketClient.disconnect, UnixSocketClient.isConnected.
    destruct (UnixSocketClient.socket (UnixSocketClient.client w)); [reflexivity|].
    simpl. destruct (UnixSocketClient.connected (UnixSocketClient.client w));
      [now contradiction Hatt | reflexivity].
  - intros [[s|] conn buf pend]; do 3 eexists; split; reflexivity.
  - reflexivity.
  - intros enclave config w Hw.
    pose proof (vsocket_reachable_attached enclave config w Hw) as Hatt.
    cbv beta in Hatt.
    cbn [Wire.disconnect Wire.isConnected vsocket_client].
    unfold VsocketClient.disconnect, VsocketClient.isConnected.
    destruct (VsocketClient.socket (VsocketClient.client w)); [reflexivity|].
    simpl. destruct (VsocketClient.connected (VsocketClient.client w));
      [now contradiction Hatt | reflexivity].
Qed.

(** C2 (what the code does instead). With a connection that can be
    re-established, a complete frame whose payload is not JSON does not
    end [VsocketClient.sendRequest] with the parse error: the rejection is
    caught like a write failure, the socket is destroyed, a new one is
    connected and the same request is written a second time; here the
    call even returns the answer to that second copy. *)
Theorem C2_parse_failure_is_caught_and_resent :
  let rt := Sample.runtime in
  let run :=
    VsocketClient.sendRequest Sample.garbling_enclave Sample.vsock_config
      Sample.price_request VsocketClient.start in
  Wire.deserialize (list_byte_of_string "oops") = inl "Unexpected token in JSON"
  /\ fst run = JS.Returned Sample.price_response
  /\ (exists frame,
        Wire.encode_frame Sample.price_request = Some frame
        /\ Wire.written (VsocketClient.effects (snd run)) = [frame; frame])
  /\ filter Wire.is_settlement (VsocketClient.effects (snd run))
     = [ Wire.Reject 0
           (JS.VsocketError "JSON parse failed: Unexpected token in JSON");
         Wire.Resolve 1 Sample.price_response ]
  /\ In (Wire.Destroyed 0) (VsocketClient.effects (snd run))
  /\ In (Wire.Created 1) (VsocketClient.effects (snd run)).
Proof.
  vm_compute. split; [reflexivity|]. split; [reflexivity|].
  split; [eexists; split; reflexivity|]. split; [reflexivity|].
  split; [right; right; right; right; left; reflexivity|].
  right; right; right; right; right; left; reflexivity.
Qed.

(* ================================================================== *)
(** * The properties at the sample scenarios                            *)
(* ================================================================== *)




(** C3 as the specification words it fails: a request whose [params] is
    [undefined] is framed and decoded, bytewise, to an object that has no
    [params] at all; and one whose [params] is [[undefined]] comes back
    with [params] equal to [[null]]. *)
Lemma C3_undefined_params_not_restored :
  (exists frame decoded,
      @Wire.encode_frame Sample.runtime Sample.bare_request = Some frame
      /\ @VsocketClient.deliver Sample.runtime Sample.awaiting
           (Sample.bytewise frame)
         = (VsocketClient.set_pendingResponse None Sample.awaiting,
            [ Wire.Deserialized
                (@Wire.serialize Sample.runtime Sample.bare_request);
              Wire.Resolve 0 decoded ])
      /\ decoded
         = JS.JObject [ ("id", JS.JString "req-2"); ("method", JS.JString "ping");
                        ("timestamp", JS.JNumber 1700000000000) ]
      /\ decoded
         <> JS.JObject [ ("id", JS.JString "req-2"); ("method", JS.JString "ping");
                         ("params", JS.JUndefined);
                         ("timestamp", JS.JNumber 1700000000000) ])
  /\ (exists frame decoded,
        @Wire.encode_frame Sample.runtime Sample.holey_request = Some frame
        /\ @VsocketClient.deliver Sample.runtime Sample.awaiting
             (Sample.bytewise frame)
           = (VsocketClient.set_pendingResponse None Sample.awaiting,
              [ Wire.Deserialized
                  (@Wire.serialize Sample.runtime Sample.holey_request);
                Wire.Resolve 0 decoded ])
        /\ decoded
           = JS.JObject [ ("id", JS.JString "req-3"); ("method", JS.JString "ping");
                          ("params", JS.JArray [JS.JNull]);
                          ("timestamp", JS.JNumber 1700000000000) ]
        /\ decoded
           <> JS.JObject [ ("id", JS.JString "req-3"); ("method", JS.JString "ping");
                           ("params", JS.JArray [JS.JUndefined]);
                           ("timestamp", JS.JNumber 1700000000000) ]).
Proof.
  split.
  - eexists. eexists. split; [reflexivity|]. split; [|split].
    + rewrite (@deliver_one_frame Sample.runtime Sample.awaiting 0
                 (@Wire.serialize Sample.runtime Sample.bare_request));
        [reflexivity | reflexivity | reflexivity | vm_compute; reflexivity
        | reflexivity].
    + vm_compute. reflexivity.
    + vm_compute. discriminate.
  - eexists. eexists. split; [reflexivity|]. split; [|split].
    + rewrite (@deliver_one_frame Sample.runtime Sample.awaiting 0
                 (@Wire.serialize Sample.runtime Sample.holey_request));
        [reflexivity | reflexivity | reflexivity | vm_compute; reflexivity
        | reflexivity].
    + vm_compute. reflexivity.
    + vm_compute. discriminate.
Qed.

Lemma C3_round_trip_witness :
  exists frame,
    @Wire.encode_frame Sample.runtime Sample.price_request = Some frame
    /\ @VsocketClient.deliver Sample.runtime Sample.awaiting (Sample.bytewise frame)
       = (VsocketClient.set_pendingResponse None Sample.awaiting,
          [ Wire.Deserialized (@Wire.serialize Sample.runtime Sample.price_request);
            Wire.Resolve 0 (Wire.request_value Sample.price_request) ])
    /\ @VsocketClient.deliver Sample.runtime Sample.awaiting (Sample.in_threes frame)
       = (VsocketClient.set_pendingResponse None Sample.awaiting,
          [ Wire.Deserialized (@Wire.serialize Sample.runtime Sample.price_request);
            Wire.Resolve 0 (Wire.request_value Sample.price_request) ]).
Proof.
  destruct (proj2 (@C3_framing_round_trip Sample.runtime Sample.price_request
                     0 Sample.awaiting eq_refl eq_refl))
    as (b0 & b1 & b2 & b3 & Hframe & _ & _ & Hround & _).
  - vm_compute. reflexivity.
  - eexists. split; [exact Hframe|].
    injection (eq_trans (eq_sym Hframe)
                 (@encode_frame_fits Sample.runtime Sample.price_request eq_refl))
      as -> -> -> ->.
    split; apply (Hround eq_refl); reflexivity.
Defined.

Lemma C4_third_endpoint_witness :
  L3.submitAttestation Sample.third_accepts Sample.three_guardians Sample.bundle
  = (JS.Returned
       (L3.mkSubmission (JS.JString "att-1")
          (L3.NewDate (JS.JString "2024-01-01T00:00:00.000Z"))
          (JS.JString "pending")),
     map (L3.submit_request Sample.three_guardians (L3.submit_payload Sample.bundle))
       (L3.endpoints Sample.three_guardians))
  /\ L3.submitAttestation Sample.second_accepts Sample.three_guardians Sample.bundle
     = (JS.Returned
          (L3.mkSubmission (JS.JString "att-1")
             (L3.NewDate (JS.JString "2024-01-01T00:00:00.000Z"))
             (JS.JString "pending")),
        map (L3.submit_request Sample.three_guardians
               (L3.submit_payload Sample.bundle))
          ["https://guardian-a.example"; "https://guardian-b.example"]).
Proof.
  split.
  - apply (proj2 (proj2 (C4_failover_order_and_short_circuit Sample.third_accepts
                           Sample.three_guardians Sample.bundle))
             ["https://guardian-a.example"; "https://guardian-b.example"]
             "https://guardian-c.example" [] 200%N
             [ ("attestation_id", JS.JString "att-1");
               ("submission_time", JS.JString "2024-01-01T00:00:00.000Z");
               ("status", JS.JString "pending") ]).
    + reflexivity.
    + intros i endpoint Hi. destruct i as [|[|i]]; simpl in Hi.
      * simpl. right. left. lia.
      * simpl. right. left. lia.
      * destruct i; discriminate.
    + simpl. lia.
    + reflexivity.
    + lia.
    + reflexivity.
  - apply (proj2 (proj2 (C4_failover_order_and_short_circuit Sample.second_accepts
                           Sample.three_guardians Sample.bundle))
             ["https://guardian-a.example"] "https://guardian-b.example"
             ["https://guardian-c.example"] 200%N
             [ ("attestation_id", JS.JString "att-1");
               ("submission_time", JS.JString "2024-01-01T00:00:00.000Z");
               ("status", JS.JString "pending") ]).
    + reflexivity.
    + intros i endpoint Hi. destruct i as [|i]; simpl in Hi.
      * simpl. right. right. right. right.
        eexists. split; reflexivity.
      * destruct i; discriminate.
    + simpl. lia.
    + reflexivity.
    + lia.
    + reflexivity.
Defined.

Lemma C5_three_attempts_witness :
  (1 <= Retry.maxAttempts Sample.three_attempts)%Z
  /\ Retry.observer_quiet Sample.three_attempts
  /\ exists r w' tr,
       Retry.retryWithBackoff Sample.stubborn Sample.three_attempts 0 = (r, w', tr)
       /\ (Z.of_nat (Retry.invocations tr) <= 3)%Z.
Proof.
  assert (H1 : (1 <= Retry.maxAttempts Sample.three_attempts)%Z)
    by (vm_compute; discriminate).
  split; [exact H1|]. split; [exact I|].
  destruct (C5_retry_attempt_bound Sample.stubborn Sample.three_attempts 0 H1 I)
    as (r & w' & tr & Hrun & Hbound & _).
  exists r, w', tr. split; assumption.
Defined.

Lemma C6_schedule_witness :
  (1 <= Retry.maxAttempts Sample.three_attempts)%Z
  /\ Retry.observer_quiet Sample.three_attempts
  /\ exists r w' tr,
       Retry.retryWithBackoff Sample.third_time_lucky Sample.three_attempts 0
       = (r, w', tr)
       /\ Retry.invocations tr = 3
       /\ Retry.timeline tr = Retry.spec_schedule 100 2 3
       /\ nth_error (Retry.sleeps tr) 0 = Some 100%Z
       /\ nth_error (Retry.sleeps tr) 1 = Some 200%Z
       /\ List.length (Retry.sleeps tr) = 2.
Proof.
  assert (H1 : (1 <= Retry.maxAttempts Sample.three_attempts)%Z)
    by (vm_compute; discriminate).
  split; [exact H1|]. split; [exact I|].
  destruct (C6_backoff_schedule Sample.third_time_lucky Sample.three_attempts 0 H1 I)
    as (r & w' & tr & j & Hrun & _ & _ & Hcalls & Hsched & _ & _ & Hlen & Hwaits
        & _ & _ & Hstop & _).
  assert (Hj : j = 3).
  { apply (Hstop 2).
    - simpl. lia.
    - intros i Hi. destruct i as [|[|i]]; [exact I | exact I | lia].
    - simpl. intros H. exact H. }
  rewrite Hj in Hcalls, Hsched, Hlen, Hwaits.
  exists r, w', tr. split; [exact Hrun|]. split; [exact Hcalls|].
  split; [exact Hsched|]. split; [exact (Hwaits 1 ltac:(lia))|].
  split; [exact (Hwaits 2 ltac:(lia)) | exact Hlen].
Defined.

Lemma C7_one_timeout_witness :
  L3.checkGuardiansHealth Sample.one_times_out Sample.three_guardians
  = (JS.Returned {| L3.reachable := 2; L3.total := 3 |},
     [ L3.mkRequest L3.GET "https://guardian-a.example/health" None 5000 [];
       L3.mkRequest L3.GET "https://guardian-b.example/health" None 5000 [];
       L3.mkRequest L3.GET "https://guardian-c.example/health" None 5000 [] ]).
Proof.
  rewrite (proj1 (C7_health_probe_independence Sample.one_times_out
                    Sample.three_guardians)).
  reflexivity.
Defined.

Lemma C8_connected_then_disconnected_witness :
  UnixSocketClient.reachable
    (snd (UnixSocketClient.connect Sample.accepting Sample.vsock_config
            UnixSocketClient.start))
  /\ Wire.isConnected
       (UnixSocketClient.client
          (snd (UnixSocketClient.connect Sample.accepting Sample.vsock_config
                  UnixSocketClient.start))) = true
  /\ Wire.isConnected
       (snd (fst (Wire.disconnect
                    (UnixSocketClient.client
                       (snd (UnixSocketClient.connect Sample.accepting
                               Sample.vsock_config UnixSocketClient.start))))))
     = false.
Proof.
  assert (Hreach : UnixSocketClient.reachable
                     (snd (UnixSocketClient.connect Sample.accepting
                             Sample.vsock_config UnixSocketClient.start)))
    by (apply UnixSocketClient.reach_connect, UnixSocketClient.reach_start).
  split; [exact Hreach|]. split; [reflexivity|].
  exact (proj1 (proj2 (proj2 (@C8_disconnect_idempotent Sample.runtime))) _ Hreach).
Defined.

Lemma C9_unsolicited_frames_witness :
  @VsocketClient.deliver Sample.runtime VsocketClient.create
    (Sample.in_threes Sample.unsolicited_stream)
  = (VsocketClient.set_dataBuffer Sample.leftover VsocketClient.create,
     map Wire.Deserialized Sample.small_payloads).
Proof.
  refine (proj1 (proj2 (proj2
            (@C9_frames_consumed_once Sample.runtime VsocketClient.create
               Sample.small_payloads Sample.leftover
               (Sample.in_threes Sample.unsolicited_stream)
               I _ I eq_refl)) eq_refl)).
  repeat constructor.
Defined.

(* ================================================================== *)
(** * More properties of the retry wrapper                              *)
(* ================================================================== *)

Section RetryTraceProperties.
Import JS Retry RetryTrace.
Context {W T : Type}.
Variable operation : W -> answer T * W.
Variable options : RetryOptions.

Local Abbreviation loop := (retry_loop operation options).
Local Abbreviation answers := (nth_answer operation).

(** The trace of a run, whole: the errors of the failed attempts that were
    retried determine it. *)
Lemma retry_loop_trace (remaining : nat) :
  forall w attempt delay lastError,
    observer_quiet options ->
    (1 <= attempt)%Z ->
    Z.of_nat (S remaining) = (maxAttempts options + 1 - attempt)%Z ->
    delay = (delayMs options * backoffMultiplier options ^ (attempt - 1))%Z ->
    exists errors,
      List.length errors < S remaining
      /\ (forall i e, nth_error errors i = Some e -> answers w i = Rejects e)
      /\ snd (loop (S remaining) w attempt delay lastError)
         = retried (has_observer options) (delayMs options)
             (backoffMultiplier options) attempt errors.
Proof.
  induction remaining as [|n IH]; intros w attempt delay lastError Hq Hge Hrem Hdelay.
  - exists []. split; [apply Nat.lt_0_succ|]. split; [intros [|i] e H; discriminate|].
    simpl. destruct (operation w) as [[v|e|] w1]; try reflexivity.
    assert (Hnlt : (attempt <? maxAttempts options)%Z = false) by (apply Z.ltb_ge; lia).
    now rewrite Hnlt.
  - destruct (operation w) as [[v|e|] w1] eqn:Hop.
    + exists []. split; [apply Nat.lt_0_succ|].
      split; [intros [|i] e H; discriminate|]. simpl. now rewrite Hop.
    + assert (Hislt : (attempt <? maxAttempts options)%Z = true) by (apply Z.ltb_lt; lia).
      assert (Hdelay' : (delay * backoffMultiplier options)%Z
                        = (delayMs options
                           * backoffMultiplier options ^ (attempt + 1 - 1))%Z).
      { rewrite Hdelay, <- Z.mul_assoc. f_equal.
        replace (attempt + 1 - 1)%Z with (Z.succ (attempt - 1)) by lia.
        rewrite Z.pow_succ_r by lia. apply Z.mul_comm. }
      destruct (IH w1 (attempt + 1)%Z (delay * backoffMultiplier options)%Z (Some e) Hq)
        as (errors & Hlen & Herr & Htr); [lia | lia | exact Hdelay' |].
      exists (e :: errors). split; [simpl; lia|]. split.
      * intros [|i] e' Hi; simpl in Hi.
        -- injection Hi as <-. unfold nth_answer. simpl. now rewrite Hop.
        -- specialize (Herr i e' Hi). unfold nth_answer in *. simpl.
           now rewrite Hop.
      * remember (S n) as n' eqn:Hn'. cbn [retry_loop]. rewrite Hop, Hislt.
        unfold observer_quiet, has_observer in *.
        destruct (onRetry options) as [cb|].
        -- rewrite Hq.
           destruct (loop n' w1 (attempt + 1)%Z _ (Some e)) as [[r w2] tr].
           cbn [snd] in *. rewrite Htr. cbn [retried app]. now rewrite Hdelay.
        -- destruct (loop n' w1 (attempt + 1)%Z _ (Some e)) as [[r w2] tr].
           cbn [snd] in *. rewrite Htr. cbn [retried app]. now rewrite Hdelay.
    + exists []. split; [apply Nat.lt_0_succ|].
      split; [intros [|i] e H; discriminate|]. simpl. now rewrite Hop.
Qed.

Lemma retried_invocations (observed : bool) (d m : Z) (errors : list Error) :
  forall k, invocations (retried observed d m k errors) = S (List.length errors).
Proof.
  induction errors as [|e errors IH]; intros k; [reflexivity|].
  unfold invocations in *. destruct observed; simpl; now rewrite IH.
Qed.

Lemma retried_observations (d m : Z) (errors : list Error) :
  forall k,
    observations (retried true d m k errors)
    = combine (map (fun i => (k + Z.of_nat i)%Z) (seq 0 (List.length errors))) errors
    /\ observations (retried false d m k errors) = [].
Proof.
  induction errors as [|e errors IH]; intros k; [now split|].
  destruct (IH (k + 1)%Z) as [Hobs Hnone]. simpl. split; [|exact Hnone].
  rewrite Hobs, Z.add_0_r. f_equal. f_equal.
  rewrite <- seq_shift, map_map. apply map_ext. intros i. lia.
Qed.

(** The sum of the waits of the schedule, in closed form. *)
Lemma retried_total_wait (observed : bool) (d m : Z) (errors : list Error) :
  forall k,
    (1 <= k)%Z ->
    ((m - 1) * total_wait (retried observed d m k errors)
     = d * m ^ (k - 1) * (m ^ Z.of_nat (List.length errors) - 1))%Z.
Proof.
  induction errors as [|e errors IH]; intros k Hk.
  - unfold total_wait. cbn [retried sleeps fold_right List.length].
    change (Z.of_nat 0) with 0%Z. rewrite Z.pow_0_r. ring.
  - specialize (IH (k + 1)%Z ltac:(lia)).
    assert (Hsum : total_wait (retried observed d m k (e :: errors))
                   = (d * m ^ (k - 1)
                      + total_wait (retried observed d m (k + 1) errors))%Z).
    { unfold total_wait. destruct observed; reflexivity. }
    rewrite Hsum, Z.mul_add_distr_l, IH.
    replace (k + 1 - 1)%Z with (Z.succ (k - 1)) by lia.
    rewrite Z.pow_succ_r by lia.
    change (List.length (e :: errors)) with (S (List.length errors)).
    rewrite Nat2Z.inj_succ, Z.pow_succ_r by lia. ring.
Qed.

Lemma retried_sleeps (observed : bool) (d m : Z) (errors : list Error) :
  forall k,
    sleeps (retried observed d m k errors)
    = map (fun i => (d * m ^ (k + Z.of_nat i - 1))%Z) (seq 0 (List.length errors)).
Proof.
  induction errors as [|e errors IH]; intros k; [reflexivity|].
  assert (Hstep : sleeps (retried observed d m k (e :: errors))
                  = (d * m ^ (k - 1))%Z :: sleeps (retried observed d m (k + 1) errors))
    by (destruct observed; reflexivity).
  rewrite Hstep, IH. cbn [List.length seq map]. f_equal.
  - do 2 f_equal. lia.
  - rewrite <- seq_shift, map_map. apply map_ext. intros i. do 2 f_equal. lia.
Qed.

(** A run from the first attempt on. *)
Lemma retry_run_trace (w : W) :
  (1 <= maxAttempts options)%Z ->
  observer_quiet options ->
  exists errors,
    (Z.of_nat (List.length errors) < maxAttempts options)%Z
    /\ (forall i e, nth_error errors i = Some e -> answers w i = Rejects e)
    /\ snd (retryWithBackoff operation options w)
       = retried (has_observer options) (delayMs options)
           (backoffMultiplier options) 1 errors.
Proof.
  intros Hmax Hq. unfold retryWithBackoff.
  destruct (Z.to_nat (maxAttempts options)) as [|k] eqn:Hk; [lia|].
  destruct (retry_loop_trace k w 1 (delayMs options) None Hq)
    as (errors & Hlen & Herr & Htr); [lia | lia | simpl; lia |].
  exists errors. split; [lia|]. split; [exact Herr | exact Htr].
Qed.

(** X1. For [maxAttempts >= 1] and an observer that does not throw, the
    whole trace of a run is determined by the errors of the attempts that
    were retried: each such attempt is followed by one call of the
    observer, if there is one, with the attempt's number and its error, and
    then by the wait; the last attempt made is followed by nothing.  So the
    observer is called once per retried failure, in order, and never for
    the attempt that ends the run. *)
Theorem X1_retry_trace_and_observer (w : W) :
  (1 <= maxAttempts options)%Z ->
  observer_quiet options ->
  exists errors,
    (Z.of_nat (List.length errors) < maxAttempts options)%Z
    /\ (forall i e, nth_error errors i = Some e -> answers w i = Rejects e)
    /\ snd (retryWithBackoff operation options w)
       = retried (has_observer options) (delayMs options)
           (backoffMultiplier options) 1 errors
    /\ invocations (snd (retryWithBackoff operation options w))
       = S (List.length errors)
    /\ observations (snd (retryWithBackoff operation options w))
       = if has_observer options
         then combine (map (fun i => Z.of_nat (S i)) (seq 0 (List.length errors)))
                errors
         else [].
Proof.
  intros Hmax Hq.
  destruct (retry_run_trace w Hmax Hq) as (errors & Hlen & Herr & Htr).
  exists errors. split; [lia|]. split; [exact Herr|]. split; [exact Htr|].
  rewrite Htr, retried_invocations. split; [reflexivity|].
  destruct (retried_observations (delayMs options) (backoffMultiplier options)
              errors 1) as [Hobs Hnone].
  destruct (has_observer options); [|exact Hnone].
  rewrite Hobs. f_equal. apply map_ext. intros i. lia.
Qed.

(** X2. For [maxAttempts >= 1] and an observer that does not throw, the
    waits of a run that made [j] attempts add up to
    [delayMs * (m^(j-1) - 1) / (m - 1)] for multiplier [m]; with the
    multiplier 2 that both [connect] methods use, to
    [delayMs * (2^(j-1) - 1)]. *)
Theorem X2_total_backoff (w : W) :
  (1 <= maxAttempts options)%Z ->
  observer_quiet options ->
  exists j,
    invocations (snd (retryWithBackoff operation options w)) = S j
    /\ (Z.of_nat (S j) <= maxAttempts options)%Z
    /\ ((backoffMultiplier options - 1)
        * total_wait (snd (retryWithBackoff operation options w))
        = delayMs options * (backoffMultiplier options ^ Z.of_nat j - 1))%Z
    /\ (backoffMultiplier options = 2%Z ->
        total_wait (snd (retryWithBackoff operation options w))
        = (delayMs options * (2 ^ Z.of_nat j - 1))%Z).
Proof.
  intros Hmax Hq.
  destruct (retry_run_trace w Hmax Hq) as (errors & Hlen & _ & Htr).
  exists (List.length errors).
  split; [now rewrite Htr, retried_invocations|]. split; [lia|].
  pose proof (retried_total_wait (has_observer options) (delayMs options)
                (backoffMultiplier options) errors 1 ltac:(lia)) as Hsum.
  rewrite <- Htr in Hsum. simpl (1 - 1)%Z in Hsum.
  rewrite Z.pow_0_r, Z.mul_1_r in Hsum. split; [exact Hsum|].
  intros Htwo. rewrite Htwo in Hsum. lia.
Qed.

(** A throwing observer ends the loop, from any iteration on. *)
Lemma retry_loop_observer_escapes (n : nat) :
  forall remaining w attempt delay lastError callback e x,
    onRetry options = Some callback ->
    (forall i e', i < n -> answers w i = Rejects e' ->
                  callback (attempt + Z.of_nat i)%Z e' = None) ->
    (forall i, i < n -> fails (answers w i)) ->
    answers w n = Rejects e ->
    callback (attempt + Z.of_nat n)%Z e = Some x ->
    (attempt + Z.of_nat n < maxAttempts options)%Z ->
    n < remaining ->
    exists tr,
      loop remaining w attempt delay lastError
      = (Thrown (Some x), world_after operation (S n) w, tr)
      /\ invocations tr = S n
      /\ List.length (sleeps tr) = n
      /\ last tr (Slept 0) = Observed (attempt + Z.of_nat n) e.
Proof.
  induction n as [|n IH];
    intros remaining w attempt delay lastError cb e x Hcb Hquiet Hfail Hlast Hx Hlt Hrem.
  - destruct remaining as [|remaining]; [lia|].
    unfold nth_answer in Hlast. simpl in Hlast. cbn [retry_loop].
    destruct (operation w) as [a w1] eqn:Hop. simpl in Hlast. subst a.
    rewrite Z.add_0_r in Hx, Hlt. apply Z.ltb_lt in Hlt. rewrite Hlt, Hcb, Hx.
    eexists. split; [simpl; rewrite Hop; reflexivity|].
    repeat split. simpl. now rewrite Z.add_0_r.
  - destruct remaining as [|remaining]; [lia|].
    destruct (fails_inv _ (Hfail 0 (Nat.lt_0_succ n))) as [e0 He0].
    pose proof (Hquiet 0 e0 (Nat.lt_0_succ n) He0) as Hq0. rewrite Z.add_0_r in Hq0.
    unfold nth_answer in He0. simpl in He0.
    destruct (operation w) as [a w1] eqn:Hop. simpl in He0. subst a.
    destruct (IH remaining w1 (attempt + 1)%Z (delay * backoffMultiplier options)%Z
                (Some e0) cb e x Hcb) as (tr & Htr & Hinv & Hsl & Hlasttr).
    + intros i e' Hi He'. replace (attempt + 1 + Z.of_nat i)%Z
        with (attempt + Z.of_nat (S i))%Z by lia.
      apply Hquiet; [lia|]. now rewrite nth_answer_shift, Hop.
    + intros i Hi. specialize (Hfail (S i) ltac:(lia)).
      now rewrite nth_answer_shift, Hop in Hfail.
    + now rewrite nth_answer_shift, Hop in Hlast.
    + now replace (attempt + 1 + Z.of_nat n)%Z with (attempt + Z.of_nat (S n))%Z by lia.
    + lia.
    + lia.
    + assert (Hislt : (attempt <? maxAttempts options)%Z = true) by (apply Z.ltb_lt; lia).
      cbn [retry_loop]. rewrite Hop, Hislt, Hcb, Hq0, Htr.
      eexists. split; [simpl; rewrite Hop; reflexivity|]. split; [|split].
      * unfold invocations in *. simpl. now rewrite Hinv.
      * simpl. now rewrite Hsl.
      * change (Invoked attempt :: Observed attempt e0 :: Slept delay :: tr)
          with ([Invoked attempt; Observed attempt e0; Slept delay] ++ tr).
        rewrite last_append.
        -- rewrite Hlasttr. f_equal. lia.
        -- intros ->. discriminate.
Qed.

(** An attempt that never settles blocks the loop, from any iteration on. *)
Lemma retry_loop_pending (n : nat) :
  forall remaining w attempt delay lastError,
    observer_quiet options ->
    (forall i, i < n -> fails (answers w i)) ->
    answers w n = NeverSettles ->
    n < remaining ->
    exists tr,
      loop remaining w attempt delay lastError
      = (Pending, world_after operation (S n) w, tr)
      /\ invocations tr = S n
      /\ last tr (Slept 0) = Invoked (attempt + Z.of_nat n).
Proof.
  induction n as [|n IH]; intros remaining w attempt delay lastError Hq Hfail Hhang Hlt.
  - destruct remaining as [|remaining]; [lia|].
    unfold nth_answer in Hhang. simpl in Hhang. simpl.
    destruct (operation w) as [a w1]. simpl in Hhang. subst a.
    exists [Invoked attempt]. repeat split. simpl. f_equal. lia.
  - destruct remaining as [|remaining]; [lia|].
    destruct (fails_inv _ (Hfail 0 (Nat.lt_0_succ n))) as [e He].
    unfold nth_answer in He. simpl in He.
    destruct (operation w) as [a w1] eqn:Hop. simpl in He. subst a.
    destruct (retry_loop_step operation options remaining w w1 attempt delay
                lastError e Hq Hop) as (delay' & pre & Heq & Hpre & _).
    destruct (IH remaining w1 (attempt + 1)%Z delay' (Some e) Hq)
      as (tr & Htr & Hinv & Hlast).
    + intros i Hi. specialize (Hfail (S i) ltac:(lia)).
      now rewrite nth_answer_shift, Hop in Hfail.
    + now rewrite nth_answer_shift, Hop in Hhang.
    + lia.
    + rewrite Htr in Heq. exists (Invoked attempt :: pre ++ tr).
      split; [|split].
      * rewrite Heq. simpl. rewrite Hop. reflexivity.
      * rewrite invocations_cons_pre by assumption. now rewrite Hinv.
      * rewrite last_cons_pre.
        -- rewrite Hlast. f_equal. lia.
        -- intros ->. discriminate.
Qed.

(** What holds of the world when the wrapper is done: [Q] if it returned,
    [P] otherwise, for a [P] every call keeps unless it resolves into [Q]. *)
Lemma retry_loop_outcome (P Q : W -> Prop) :
  (forall w a w1, P w -> operation w = (a, w1) ->
                  match a with Resolves _ => Q w1 | _ => P w1 end) ->
  forall remaining w attempt delay lastError,
    P w ->
    match fst (fst (loop remaining w attempt delay lastError)) with
    | Returned _ => Q (snd (fst (loop remaining w attempt delay lastError)))
    | _ => P (snd (fst (loop remaining w attempt delay lastError)))
    end.
Proof.
  intros Hop. induction remaining as [|n IH]; intros w attempt delay lastError Hw.
  - exact Hw.
  - cbn [retry_loop]. specialize (Hop w _ _ Hw (surjective_pairing _)).
    destruct (operation w) as [[v|e|] w1]; cbn [fst snd] in *; try exact Hop.
    destruct (attempt <? maxAttempts options)%Z;
      [destruct (onRetry options) as [cb|]; [destruct (cb attempt e)|]|];
      try exact Hop;
      match goal with
      | |- context [retry_loop ?op ?opts n ?w ?a ?d ?e] =>
          specialize (IH w a d e Hop);
          destruct (retry_loop op opts n w a d e) as [[? ?] ?]
      end; exact IH.
Qed.

(** How a run ends: the attempt after the retried ones resolves, never
    settles, or is the last one allowed and rejects. *)
Lemma retry_loop_end (remaining : nat) :
  forall w attempt delay lastError,
    observer_quiet options ->
    Z.of_nat (S remaining) = (maxAttempts options + 1 - attempt)%Z ->
    exists n,
      n < S remaining
      /\ (forall i, i < n -> fails (answers w i))
      /\ invocations (snd (loop (S remaining) w attempt delay lastError)) = S n
      /\ snd (fst (loop (S remaining) w attempt delay lastError))
         = world_after operation (S n) w
      /\ match fst (fst (loop (S remaining) w attempt delay lastError)) with
         | Returned v => answers w n = Resolves v
         | Pending => answers w n = NeverSettles
         | Thrown reason =>
             n = remaining
             /\ exists e, answers w n = Rejects e /\ reason = Some e
         end.
Proof.
  induction remaining as [|k IH]; intros w attempt delay lastError Hq Hrem.
  - exists 0. split; [lia|]. split; [intros i Hi; lia|].
    unfold nth_answer. simpl.
    destruct (operation w) as [[v|e|] w1] eqn:Hop; simpl; try now repeat split.
    assert (Hnlt : (attempt <? maxAttempts options)%Z = false) by (apply Z.ltb_ge; lia).
    rewrite Hnlt. simpl. repeat split. now exists e.
  - destruct (operation w) as [[v|e|] w1] eqn:Hop.
    + exists 0. split; [lia|]. split; [intros i Hi; lia|].
      unfold nth_answer. simpl. rewrite Hop. now repeat split.
    + destruct (retry_loop_step operation options (S k) w w1 attempt delay
                  lastError e Hq Hop) as (delay' & pre & Heq & Hpre & _).
      destruct (IH w1 (attempt + 1)%Z delay' (Some e) Hq ltac:(lia))
        as (n & Hn & Hfail & Hinv & Hworld & Hres).
      exists (S n). split; [lia|]. split.
      { intros [|i] Hi.
        - unfold nth_answer. simpl. rewrite Hop. exact I.
        - rewrite nth_answer_shift, Hop. apply Hfail. lia. }
      rewrite Heq.
      destruct (loop (S k) w1 (attempt + 1)%Z delay' (Some e)) as [[r w2] tr].
      cbn [fst snd] in *.
      split; [rewrite invocations_cons_pre by assumption; now rewrite Hinv|].
      split; [rewrite Hworld; simpl; now rewrite Hop|].
      destruct r as [v|reason|]; rewrite nth_answer_shift, Hop; cbn [snd];
        try exact Hres.
      destruct Hres as [-> Hres]. split; [reflexivity | exact Hres].
    + exists 0. split; [lia|]. split; [intros i Hi; lia|].
      unfold nth_answer. simpl. rewrite Hop. now repeat split.
Qed.

(** The operation is called once per [Invoked] event of the trace. *)
Lemma retry_loop_calls (f : W -> nat) :
  (forall w, f (snd (operation w)) = S (f w)) ->
  forall remaining w attempt delay lastError,
    f (snd (fst (loop remaining w attempt delay lastError)))
    = f w + invocations (snd (loop remaining w attempt delay lastError)).
Proof.
  intros Hf. induction remaining as [|n IH]; intros w attempt delay lastError.
  - simpl. unfold invocations. simpl. lia.
  - cbn [retry_loop]. specialize (Hf w).
    destruct (operation w) as [[v|e|] w1]; cbn [fst snd] in *;
      try (unfold invocations; simpl; lia).
    destruct (attempt <? maxAttempts options)%Z;
      [destruct (onRetry options) as [cb|]; [destruct (cb attempt e)|]|];
      try (unfold invocations; simpl; lia);
      match goal with
      | |- context [retry_loop ?op ?opts n ?w ?a ?d ?e] =>
          specialize (IH w a d e);
          destruct (retry_loop op opts n w a d e) as [[? ?] ?]
      end; cbn [fst snd] in *; unfold invocations in *; simpl; lia.
Qed.

(** X3. When the observer throws, the wrapper stops there: if the first
    [n] calls fail and the observer returns from each of them, call [n]
    fails too, more attempts would be allowed, and the observer throws [x]
    on it, then the wrapper rejects with [x] (not with the operation's
    error) after [n + 1] calls, without the wait that would have followed. *)
Theorem X3_observer_exception_escapes (n : nat) (w : W)
    (callback : Z -> Error -> option Error) (e x : Error) :
  onRetry options = Some callback ->
  (forall i e', i < n -> answers w i = Rejects e' ->
                callback (Z.of_nat (S i)) e' = None) ->
  (forall i, i < n -> fails (answers w i)) ->
  answers w n = Rejects e ->
  callback (Z.of_nat (S n)) e = Some x ->
  (Z.of_nat (S n) < maxAttempts options)%Z ->
  exists tr,
    retryWithBackoff operation options w
    = (Thrown (Some x), world_after operation (S n) w, tr)
    /\ invocations tr = S n
    /\ List.length (sleeps tr) = n
    /\ last tr (Slept 0) = Observed (Z.of_nat (S n)) e.
Proof.
  intros Hcb Hquiet Hfail Hlast Hx Hlt.
  destruct (retry_loop_observer_escapes n (Z.to_nat (maxAttempts options)) w 1
              (delayMs options) None callback e x Hcb)
    as (tr & Htr & Hinv & Hsl & Hlasttr); try assumption; try lia.
  - intros i e' Hi He'. replace (1 + Z.of_nat i)%Z with (Z.of_nat (S i)) by lia.
    now apply Hquiet.
  - now replace (1 + Z.of_nat n)%Z with (Z.of_nat (S n)) by lia.
  - exists tr. unfold retryWithBackoff. rewrite Htr. repeat split; try assumption.
    rewrite Hlasttr. f_equal. lia.
Qed.

(** X4. The wrapper has no time limit of its own: if the first [n] calls
    fail and call [n], still within [maxAttempts], never settles, the whole
    call stays pending and the operation is not called again. *)
Theorem X4_pending_attempt_blocks (n : nat) (w : W) :
  observer_quiet options ->
  (forall i, i < n -> fails (answers w i)) ->
  answers w n = NeverSettles ->
  (Z.of_nat n < maxAttempts options)%Z ->
  exists tr,
    retryWithBackoff operation options w
    = (Pending, world_after operation (S n) w, tr)
    /\ invocations tr = S n
    /\ last tr (Slept 0) = Invoked (Z.of_nat (S n)).
Proof.
  intros Hq Hfail Hhang Hlt.
  destruct (retry_loop_pending n (Z.to_nat (maxAttempts options)) w 1
              (delayMs options) None Hq Hfail Hhang)
    as (tr & Htr & Hinv & Hlast); [lia|].
  exists tr. unfold retryWithBackoff. rewrite Htr. repeat split; try assumption.
  rewrite Hlast. f_equal. lia.
Qed.

End RetryTraceProperties.

Lemma X1_three_attempts_witness :
  exists errors,
    (Z.of_nat (List.length errors) < 3)%Z
    /\ (forall i e, nth_error errors i = Some e ->
                    Retry.nth_answer Sample.third_time_lucky 0 i = Retry.Rejects e)
    /\ snd (Retry.retryWithBackoff Sample.third_time_lucky Sample.three_attempts 0)
       = RetryTrace.retried false 100 2 1 errors
    /\ Retry.invocations
         (snd (Retry.retryWithBackoff Sample.third_time_lucky Sample.three_attempts 0))
       = S (List.length errors)
    /\ RetryTrace.observations
         (snd (Retry.retryWithBackoff Sample.third_time_lucky Sample.three_attempts 0))
       = [].
Proof.
  apply (X1_retry_trace_and_observer Sample.third_time_lucky Sample.three_attempts 0).
  - vm_compute. discriminate.
  - exact I.
Defined.

Lemma X2_total_wait_witness :
  exists j,
    Retry.invocations
      (snd (Retry.retryWithBackoff Sample.stubborn Sample.three_attempts 0%nat)) = S j
    /\ (Z.of_nat (S j) <= 3)%Z
    /\ ((2 - 1)
        * RetryTrace.total_wait
            (snd (Retry.retryWithBackoff Sample.stubborn Sample.three_attempts 0%nat))
        = 100 * (2 ^ Z.of_nat j - 1))%Z
    /\ (2%Z = 2%Z ->
        RetryTrace.total_wait
          (snd (Retry.retryWithBackoff Sample.stubborn Sample.three_attempts 0%nat))
        = (100 * (2 ^ Z.of_nat j - 1))%Z).
Proof.
  apply (X2_total_backoff Sample.stubborn Sample.three_attempts 0%nat).
  - vm_compute. discriminate.
  - exact I.
Defined.

Lemma X3_impatient_observer_witness :
  exists tr,
    Retry.retryWithBackoff Sample.stubborn More.impatient 0
    = (JS.Thrown (Some More.gave_up), 2, tr)
    /\ Retry.invocations tr = 2
    /\ List.length (Retry.sleeps tr) = 1
    /\ last tr (Retry.Slept 0)
       = Retry.Observed 2 (JS.mkError "Error" "Persistent failure").
Proof.
  apply (X3_observer_exception_escapes Sample.stubborn More.impatient 1 0
           More.give_up_on_second (JS.mkError "Error" "Persistent failure")
           More.gave_up).
  - reflexivity.
  - intros [|i] e' Hi _; [reflexivity | lia].
  - intros i _. exact I.
  - reflexivity.
  - reflexivity.
  - vm_compute. reflexivity.
Defined.

Lemma X4_hanging_attempt_witness :
  exists tr,
    Retry.retryWithBackoff More.hangs_second Sample.three_attempts 0
    = (JS.Pending, 2, tr)
    /\ Retry.invocations tr = 2
    /\ last tr (Retry.Slept 0) = Retry.Invoked 2.
Proof.
  apply (X4_pending_attempt_blocks More.hangs_second Sample.three_attempts 1 0).
  - exact I.
  - intros [|i] Hi; [exact I | lia].
  - reflexivity.
  - vm_compute. reflexivity.
Defined.

(* ================================================================== *)
(** * More properties of the framing                                    *)
(* ================================================================== *)

Section LengthPrefix.
Import JS Wire.

Lemma byte_of_N_eq (n : N) (b : byte) : (n mod 256 = Byte.to_N b)%N -> byte_of_N n = b.
Proof. intros H. unfold byte_of_N. now rewrite H, Byte.of_to_N. Qed.

Lemma to_N_small (b : byte) : (Byte.to_N b < 256)%N.
Proof. pose proof (Byte.to_N_bounded b). lia. Qed.

(** Writing the four bytes of what was read gives the bytes back. *)
Lemma uint32_bytes_uint32BE (b0 b1 b2 b3 : byte) :
  uint32_bytes (uint32BE b0 b1 b2 b3) = [b0; b1; b2; b3].
Proof.
  pose proof (to_N_small b0). pose proof (to_N_small b1).
  pose proof (to_N_small b2). pose proof (to_N_small b3).
  unfold uint32_bytes, uint32BE.
  repeat f_equal; apply byte_of_N_eq;
    zify; Z.to_euclidean_division_equations; lia.
Qed.

Lemma uint32BE_bound (b0 b1 b2 b3 : byte) : (uint32BE b0 b1 b2 b3 < 4294967296)%N.
Proof.
  pose proof (to_N_small b0). pose proof (to_N_small b1).
  pose proof (to_N_small b2). pose proof (to_N_small b3).
  unfold uint32BE. lia.
Qed.

End LengthPrefix.

(** X5. The 4-byte length prefix is a bijection between the numbers below
    [2^32] and the 4-byte sequences: [writeUInt32BE] of what [readUInt32BE]
    read gives the same four bytes, what [writeUInt32BE] wrote is read back
    as the number written, and [writeUInt32BE] raises exactly for the
    numbers from [2^32] on. *)
Theorem X5_length_prefix_codec (b0 b1 b2 b3 : byte) (n : N) :
  Wire.writeUInt32BE (Wire.uint32BE b0 b1 b2 b3) = Some [b0; b1; b2; b3]
  /\ match Wire.writeUInt32BE n with
     | Some [c0; c1; c2; c3] => Wire.uint32BE c0 c1 c2 c3 = n /\ (n < 4294967296)%N
     | Some _ => False
     | None => (4294967296 <= n)%N
     end.
Proof.
  split.
  - unfold Wire.writeUInt32BE.
    pose proof (uint32BE_bound b0 b1 b2 b3) as Hlt. apply N.ltb_lt in Hlt.
    rewrite Hlt. f_equal. apply uint32_bytes_uint32BE.
  - unfold Wire.writeUInt32BE.
    destruct (n <? 4294967296)%N eqn:Hlt.
    + apply N.ltb_lt in Hlt. unfold Wire.uint32_bytes.
      split; [now apply uint32BE_uint32_bytes | exact Hlt].
    + now apply N.ltb_ge in Hlt.
Qed.

Section MoreHandlerProperties.
Import JS Wire VsocketClient.
Context {rt : Runtime}.

Lemma settle_link_fields (parsed : string + jsval) (c : t) :
  socket (fst (settle parsed c)) = socket c
  /\ connected (fst (settle parsed c)) = connected c.
Proof.
  unfold settle. destruct parsed; destruct (pendingResponse c); now split.
Qed.

(** The head of a buffer that holds a complete frame is that frame. *)
Lemma complete_head (b0 b1 b2 b3 : byte) (rest : list byte) :
  (4 + uint32BE b0 b1 b2 b3
   <= N.of_nat (List.length (b0 :: b1 :: b2 :: b3 :: rest)))%N ->
  b0 :: b1 :: b2 :: b3 :: rest
  = frame_bytes (slice 4 (4 + N.to_nat (uint32BE b0 b1 b2 b3))
                   (b0 :: b1 :: b2 :: b3 :: rest))
    ++ slice_from (4 + N.to_nat (uint32BE b0 b1 b2 b3))
         (b0 :: b1 :: b2 :: b3 :: rest).
Proof.
  intros Hle. remember (uint32BE b0 b1 b2 b3) as len eqn:Hlen.
  cbn [List.length] in Hle.
  assert (Hfit : N.to_nat len <= List.length rest) by lia.
  unfold slice, slice_from.
  replace (4 + N.to_nat len - 4) with (N.to_nat len) by lia.
  change (skipn 4 (b0 :: b1 :: b2 :: b3 :: rest)) with rest.
  change (skipn (4 + N.to_nat len) (b0 :: b1 :: b2 :: b3 :: rest))
    with (skipn (N.to_nat len) rest).
  unfold frame_bytes. rewrite length_firstn, Nat.min_l by exact Hfit.
  rewrite N2Nat.id, Hlen, uint32_bytes_uint32BE, <- Hlen.
  cbn [app]. now rewrite firstn_skipn.
Qed.

(** The loop cuts complete frames off the front of the buffer and touches
    nothing else. *)
Lemma handle_loop_conserves (fuel : nat) :
  forall c,
    List.length (dataBuffer c) <= fuel ->
    dataBuffer c
    = List.concat (map frame_bytes (deserialized (snd (handle_loop fuel c))))
      ++ dataBuffer (fst (handle_loop fuel c))
    /\ incomplete (dataBuffer (fst (handle_loop fuel c)))
    /\ socket (fst (handle_loop fuel c)) = socket c
    /\ connected (fst (handle_loop fuel c)) = connected c.
Proof.
  induction fuel as [|fuel IH]; intros c Hfuel.
  - destruct (dataBuffer c) eqn:Hb; [|simpl in Hfuel; lia].
    simpl. rewrite Hb. repeat split.
  - destruct (incomplete_or_complete (dataBuffer c))
      as [Hinc | (b0 & b1 & b2 & b3 & rest & Hb & Hle)].
    + rewrite handle_loop_incomplete by exact Hinc. simpl. now repeat split.
    + rewrite (handle_loop_step fuel c _ _ _ _ _ Hb).
      apply N.leb_le in Hle. rewrite Hle. apply N.leb_le in Hle. cbv zeta.
      set (len := uint32BE b0 b1 b2 b3) in *.
      set (payload := slice 4 (4 + N.to_nat len) (dataBuffer c)).
      set (after := slice_from (4 + N.to_nat len) (dataBuffer c)).
      assert (Hcut : dataBuffer c = frame_bytes payload ++ after).
      { unfold payload, after. rewrite Hb. apply complete_head.
        now rewrite <- Hb. }
      destruct (settle (deserialize payload) (set_dataBuffer after c))
        as [c2 settled] eqn:Hs.
      assert (Hc2 : dataBuffer c2 = after).
      { change c2 with (fst (c2, settled)). rewrite <- Hs.
        now rewrite settle_dataBuffer. }
      assert (Hlink : socket c2 = socket c /\ connected c2 = connected c).
      { change c2 with (fst (c2, settled)). rewrite <- Hs.
        exact (settle_link_fields _ (set_dataBuffer after c)). }
      assert (Hfuel2 : List.length (dataBuffer c2) <= fuel).
      { rewrite Hc2. unfold after, slice_from. rewrite length_skipn. lia. }
      destruct (IH c2 Hfuel2) as (Hcons & Hinc & Hsock & Hconn).
      destruct (handle_loop fuel c2) as [c3 later]. cbn [fst snd] in *.
      split; [|split; [exact Hinc|split; [now rewrite Hsock|now rewrite Hconn]]].
      cbn [deserialized]. rewrite deserialized_app.
      change settled with (snd (c2, settled)). rewrite <- Hs.
      rewrite settle_deserialized. cbn [app map List.concat].
      rewrite <- app_assoc, <- Hcons, Hc2. exact Hcut.
Qed.

(** How the pending promise fares in a run of the loop. *)
Lemma handle_loop_settles_once (fuel : nat) :
  forall c,
    match pendingResponse c, deserialized (snd (handle_loop fuel c)) with
    | Some p, payload :: _ =>
        pendingResponse (fst (handle_loop fuel c)) = None
        /\ filter is_settlement (snd (handle_loop fuel c))
           = [match deserialize payload with
              | inr response => Resolve p response
              | inl msg => Reject p (VsocketError ("JSON parse failed: " ^^ msg))
              end]
    | _, _ =>
        pendingResponse (fst (handle_loop fuel c)) = pendingResponse c
        /\ filter is_settlement (snd (handle_loop fuel c)) = []
    end.
Proof.
  induction fuel as [|fuel IH]; intros c.
  - simpl. destruct (pendingResponse c); now split.
  - cbn [handle_loop].
    destruct (dataBuffer c) as [|b0 [|b1 [|b2 [|b3 rest]]]] eqn:Hb;
      try (simpl; destruct (pendingResponse c); now split).
    destruct (4 + uint32BE b0 b1 b2 b3
              <=? N.of_nat (List.length (b0 :: b1 :: b2 :: b3 :: rest)))%N;
      [|simpl; destruct (pendingResponse c); now split].
    cbv zeta.
    set (payload := slice 4 _ _). set (c1 := set_dataBuffer _ c).
    assert (Hp1 : pendingResponse c1 = pendingResponse c) by reflexivity.
    destruct (settle (deserialize payload) c1) as [c2 settled] eqn:Hs.
    specialize (IH c2).
    destruct (handle_loop fuel c2) as [c3 later]. cbn [fst snd] in *.
    cbn [deserialized filter is_settlement].
    rewrite filter_app. unfold settle in Hs. rewrite Hp1 in Hs.
    destruct (pendingResponse c) as [p|].
    + assert (Hc2 : pendingResponse c2 = None)
        by (destruct (deserialize payload); injection Hs as <- _; reflexivity).
      rewrite Hc2 in IH. destruct IH as [Hp3 Hnone].
      rewrite Hp3, Hnone, app_nil_r. split; [reflexivity|].
      destruct (deserialize payload); injection Hs as _ <-; reflexivity.
    + assert (Hc2 : c2 = c1 /\ settled = [])
        by (destruct (deserialize payload); injection Hs as <- <-; now split).
      destruct Hc2 as [-> ->]. rewrite Hp1 in IH. exact IH.
Qed.

End MoreHandlerProperties.

(** X6. Whatever bytes arrive, [handleData] loses none and invents none:
    the buffer before the call followed by the chunk is the frames handed
    to the deserializer, each with the length prefix of its payload, in
    order, followed by the buffer after the call; that buffer never starts
    with a complete frame, and the socket and the connected flag are left
    as they were. *)
Theorem X6_handleData_conserves_bytes {rt : Wire.Runtime}
    (c : VsocketClient.t) (chunk : list byte) :
  VsocketClient.dataBuffer c ++ chunk
  = List.concat
      (map Wire.frame_bytes
         (Wire.deserialized (snd (VsocketClient.handleData c chunk))))
    ++ VsocketClient.dataBuffer (fst (VsocketClient.handleData c chunk))
  /\ Wire.incomplete
       (VsocketClient.dataBuffer (fst (VsocketClient.handleData c chunk)))
  /\ VsocketClient.socket (fst (VsocketClient.handleData c chunk))
     = VsocketClient.socket c
  /\ VsocketClient.connected (fst (VsocketClient.handleData c chunk))
     = VsocketClient.connected c.
Proof.
  unfold VsocketClient.handleData.
  exact (handle_loop_conserves _
           (VsocketClient.set_dataBuffer (VsocketClient.dataBuffer c ++ chunk) c)
           (le_n _)).
Qed.

(** X7. One call of [handleData] settles at most one promise: if a response
    is awaited and the call completes at least one frame, the awaited
    promise is settled by the first frame completed (resolved with the
    parsed value, or rejected with the parse failure) and forgotten, and
    every further frame completed in the same call is parsed and dropped;
    in every other case nothing is settled and the awaited promise stays. *)
Theorem X7_at_most_one_settlement {rt : Wire.Runtime}
    (c : VsocketClient.t) (chunk : list byte) :
  match VsocketClient.pendingResponse c,
        Wire.deserialized (snd (VsocketClient.handleData c chunk)) with
  | Some p, payload :: _ =>
      VsocketClient.pendingResponse (fst (VsocketClient.handleData c chunk)) = None
      /\ filter Wire.is_settlement (snd (VsocketClient.handleData c chunk))
         = [match Wire.deserialize payload with
            | inr response => Wire.Resolve p response
            | inl msg =>
                Wire.Reject p (JS.VsocketError ("JSON parse failed: " ^^ msg))
            end]
  | _, _ =>
      VsocketClient.pendingResponse (fst (VsocketClient.handleData c chunk))
      = VsocketClient.pendingResponse c
      /\ filter Wire.is_settlement (snd (VsocketClient.handleData c chunk)) = []
  end.
Proof.
  unfold VsocketClient.handleData.
  exact (handle_loop_settles_once _
           (VsocketClient.set_dataBuffer (VsocketClient.dataBuffer c ++ chunk) c)).
Qed.

(* ================================================================== *)
(** * More properties of VsocketClient                                  *)
(* ================================================================== *)

Section VsocketRuns.
Import JS Wire VsocketClient Connection.
Context {rt : Runtime}.
Variable enclave : peer.
Variable config : VsockConfig.

Local Abbreviation attempts := (Z.to_nat (retryAttempts config)).

Lemma write_attempts_app (e1 e2 : list effect) :
  write_attempts (e1 ++ e2) = write_attempts e1 ++ write_attempts e2.
Proof.
  induction e1 as [|eff e1 IH]; [reflexivity|].
  destruct eff; simpl; now rewrite ?IH.
Qed.

Lemma connect_options_quiet : Retry.observer_quiet (connect_options config).
Proof. intros attempt error. reflexivity. Qed.

(** What a connection attempt leaves alone. *)
Lemma connect_attempt_untouched (w : world) :
  dataBuffer (client (snd (connect_attempt enclave w))) = dataBuffer (client w)
  /\ pendingResponse (client (snd (connect_attempt enclave w)))
     = pendingResponse (client w)
  /\ writes_made (snd (connect_attempt enclave w)) = writes_made w
  /\ reads_made (snd (connect_attempt enclave w)) = reads_made w
  /\ write_attempts (effects (snd (connect_attempt enclave w)))
     = write_attempts (effects w).
Proof.
  unfold connect_attempt.
  destruct (handshakes enclave (handshakes_made w)); simpl;
    try (destruct (connected (client w)); simpl);
    rewrite ?write_attempts_app, ?app_nil_r; simpl; rewrite ?app_nil_r;
    repeat split.
Qed.

Lemma connect_attempt_counts (w : world) :
  handshakes_made (snd (connect_attempt enclave w)) = S (handshakes_made w).
Proof.
  unfold connect_attempt.
  destruct (handshakes enclave (handshakes_made w)); simpl; try reflexivity.
  destruct (connected (client w)); reflexivity.
Qed.

Lemma connect_untouched (w : world) :
  dataBuffer (client (snd (connect enclave config w))) = dataBuffer (client w)
  /\ pendingResponse (client (snd (connect enclave config w)))
     = pendingResponse (client w)
  /\ writes_made (snd (connect enclave config w)) = writes_made w
  /\ reads_made (snd (connect enclave config w)) = reads_made w
  /\ write_attempts (effects (snd (connect enclave config w)))
     = write_attempts (effects w).
Proof.
  unfold connect, Retry.retryWithBackoff.
  apply (retry_loop_preserves (connect_attempt enclave) (connect_options config)
           (fun w0 =>
              dataBuffer (client w0) = dataBuffer (client w)
              /\ pendingResponse (client w0) = pendingResponse (client w)
              /\ writes_made w0 = writes_made w
              /\ reads_made w0 = reads_made w
              /\ write_attempts (effects w0) = write_attempts (effects w))).
  - intros w0 (Hb & Hp & Hw & Hr & He).
    destruct (connect_attempt_untouched w0) as (Hb' & Hp' & Hw' & Hr' & He').
    repeat split; congruence.
  - repeat split.
Qed.

Lemma connect_handshakes (w : world) :
  handshakes_made w <= handshakes_made (snd (connect enclave config w))
  <= handshakes_made w + attempts.
Proof.
  unfold connect, Retry.retryWithBackoff.
  rewrite (retry_loop_calls (connect_attempt enclave) (connect_options config)
             handshakes_made connect_attempt_counts).
  pose proof (retry_loop_bound (connect_attempt enclave) (connect_options config)
                attempts w 1 (Retry.delayMs (connect_options config)) None).
  cbn [connect_options Retry.maxAttempts] in *. lia.
Qed.

(** An attempt that does not connect, on an instance that is not connected. *)
Lemma connect_attempt_refused (w : world) :
  connected (client w) = false ->
  refuses (handshakes enclave (handshakes_made w)) = true ->
  exists e w1,
    connect_attempt enclave w = (Retry.Rejects e, w1)
    /\ vsock_refusal (handshakes enclave (handshakes_made w)) = Some e
    /\ connected (client w1) = false
    /\ handshakes_made w1 = S (handshakes_made w).
Proof.
  intros Hc Hr. unfold connect_attempt.
  destruct (handshakes enclave (handshakes_made w)) as [|msg| |msg];
    [discriminate| | |].
  - eexists _, _. repeat split.
  - cbn [open_socket log client set_socket connected]. rewrite Hc.
    eexists _, _. split; [reflexivity|]. repeat split.
    unfold destroy_socket. simpl. exact Hc.
  - eexists _, _. repeat split. exact Hc.
Qed.

Lemma connect_loop_refused (remaining : nat) :
  forall w attempt delay lastError,
    connected (client w) = false ->
    (forall i, i < S remaining ->
               refuses (handshakes enclave (handshakes_made w + i)) = true) ->
    fst (fst (Retry.retry_loop (connect_attempt enclave) (connect_options config)
                (S remaining) w attempt delay lastError))
    = Thrown (vsock_refusal (handshakes enclave (handshakes_made w + remaining)))
    /\ handshakes_made
         (snd (fst (Retry.retry_loop (connect_attempt enclave)
                      (connect_options config) (S remaining) w attempt delay
                      lastError)))
       = handshakes_made w + S remaining
    /\ connected
         (client (snd (fst (Retry.retry_loop (connect_attempt enclave)
                              (connect_options config) (S remaining) w attempt
                              delay lastError))))
       = false.
Proof.
  induction remaining as [|n IH]; intros w attempt delay lastError Hc Hall.
  - pose proof (Hall 0 (Nat.lt_0_succ 0)) as H0. rewrite Nat.add_0_r in H0.
    destruct (connect_attempt_refused w Hc H0) as (e & w1 & Hop & He & Hc1 & Hh1).
    destruct (retry_loop_step (connect_attempt enclave) (connect_options config)
                0 w w1 attempt delay lastError e connect_options_quiet Hop)
      as (delay' & pre & Heq & _).
    rewrite Heq. cbn [Retry.retry_loop fst snd]. rewrite Nat.add_0_r, He.
    repeat split; [lia | exact Hc1].
  - pose proof (Hall 0 (Nat.lt_0_succ _)) as H0. rewrite Nat.add_0_r in H0.
    destruct (connect_attempt_refused w Hc H0) as (e & w1 & Hop & He & Hc1 & Hh1).
    destruct (retry_loop_step (connect_attempt enclave) (connect_options config)
                (S n) w w1 attempt delay lastError e connect_options_quiet Hop)
      as (delay' & pre & Heq & _).
    rewrite Heq.
    destruct (IH w1 (attempt + 1)%Z delay' (Some e) Hc1) as (Hr & Hh & Hcn).
    { intros i Hi. rewrite Hh1. replace (S (handshakes_made w) + i)
        with (handshakes_made w + S i) by lia. apply Hall. lia. }
    destruct (Retry.retry_loop (connect_attempt enclave) (connect_options config)
                (S n) w1 (attempt + 1)%Z delay' (Some e)) as [[r w2] tr].
    cbn [fst snd] in *. rewrite Hr, Hh, Hh1.
    replace (S (handshakes_made w) + n) with (handshakes_made w + S n) by lia.
    repeat split; [lia | exact Hcn].
Qed.

(** The peer accepts the first attempt. *)
Lemma connect_first_accepts (w : world) :
  handshakes enclave (handshakes_made w) = Connects ->
  (1 <= retryAttempts config)%Z ->
  connect enclave config w
  = (Returned tt, with_client (set_connected true) (open_socket w)).
Proof.
  intros Hh Hn. unfold connect, Retry.retryWithBackoff.
  cbn [connect_options Retry.maxAttempts].
  destruct attempts as [|k] eqn:Hk; [lia|].
  cbn [Retry.retry_loop]. unfold connect_attempt. now rewrite Hh.
Qed.

End VsocketRuns.

(** X8. [VsocketClient.connect]: when it returns, the instance is connected
    and holds the socket created last; when it does not return on an
    instance that was not connected, the instance is not connected
    afterwards; in every case it makes at most [retryAttempts] attempts,
    writes nothing, and leaves the receive buffer and the awaited promise
    as they were, so bytes buffered from an earlier connection survive a
    reconnect. *)
Theorem X8_vsock_connect_outcome {rt : Wire.Runtime}
    (enclave : VsocketClient.peer) (config : Wire.VsockConfig)
    (w : VsocketClient.world) :
  let w' := snd (VsocketClient.connect enclave config w) in
  (fst (VsocketClient.connect enclave config w) = JS.Returned tt ->
   VsocketClient.connected (VsocketClient.client w') = true
   /\ VsocketClient.socket (VsocketClient.client w')
      = Some (pred (VsocketClient.sockets_made w'))
   /\ VsocketClient.sockets_made w < VsocketClient.sockets_made w')
  /\ (VsocketClient.connected (VsocketClient.client w) = false ->
      fst (VsocketClient.connect enclave config w) <> JS.Returned tt ->
      VsocketClient.connected (VsocketClient.client w') = false)
  /\ VsocketClient.dataBuffer (VsocketClient.client w')
     = VsocketClient.dataBuffer (VsocketClient.client w)
  /\ VsocketClient.pendingResponse (VsocketClient.client w')
     = VsocketClient.pendingResponse (VsocketClient.client w)
  /\ Connection.write_attempts (VsocketClient.effects w')
     = Connection.write_attempts (VsocketClient.effects w)
  /\ VsocketClient.handshakes_made w <= VsocketClient.handshakes_made w'
     <= VsocketClient.handshakes_made w + Z.to_nat (Wire.retryAttempts config).
Proof.
  intros w'. subst w'.
  destruct (connect_untouched enclave config w) as (Hb & Hp & _ & _ & He).
  split; [|split; [|split; [exact Hb|split; [exact Hp|split; [exact He|]]]]].
  - intros Hret.
    pose proof (retry_loop_outcome (VsocketClient.connect_attempt enclave)
                  (Wire.connect_options config)
                  (fun w0 => VsocketClient.sockets_made w
                             <= VsocketClient.sockets_made w0)
                  (fun w1 =>
                     VsocketClient.connected (VsocketClient.client w1) = true
                     /\ VsocketClient.socket (VsocketClient.client w1)
                        = Some (pred (VsocketClient.sockets_made w1))
                     /\ VsocketClient.sockets_made w
                        < VsocketClient.sockets_made w1)) as Hout.
    unfold VsocketClient.connect, Retry.retryWithBackoff in *.
    specialize (Hout
      ltac:(intros w0 a w1 Hle Hop; unfold VsocketClient.connect_attempt in Hop;
            destruct (VsocketClient.handshakes enclave
                        (VsocketClient.handshakes_made w0));
            [injection Hop as <- <-; simpl; repeat split; lia
            |injection Hop as <- <-; simpl; lia
            |destruct (VsocketClient.connected
                         (VsocketClient.client (VsocketClient.open_socket w0)));
             injection Hop as <- <-; simpl; lia
            |injection Hop as <- <-; simpl; lia])
      (Z.to_nat (Retry.maxAttempts (Wire.connect_options config))) w 1%Z
      (Retry.delayMs (Wire.connect_options config)) None (le_n _)).
    rewrite Hret in Hout. exact Hout.
  - intros Hc Hnot.
    pose proof (retry_loop_outcome (VsocketClient.connect_attempt enclave)
                  (Wire.connect_options config)
                  (fun w0 => VsocketClient.connected (VsocketClient.client w0)
                             = false)
                  (fun _ => True)) as Hout.
    unfold VsocketClient.connect, Retry.retryWithBackoff in *.
    specialize (Hout
      ltac:(intros w0 a w1 Hc0 Hop; unfold VsocketClient.connect_attempt in Hop;
            destruct (VsocketClient.handshakes enclave
                        (VsocketClient.handshakes_made w0));
            [injection Hop as <- <-; exact I
            |injection Hop as <- <-; reflexivity
            |cbn [VsocketClient.open_socket VsocketClient.log
                  VsocketClient.client VsocketClient.set_socket
                  VsocketClient.connected] in Hop;
             rewrite Hc0 in Hop; injection Hop as <- <-;
             unfold VsocketClient.destroy_socket; simpl; exact Hc0
            |injection Hop as <- <-; exact Hc0])
      (Z.to_nat (Retry.maxAttempts (Wire.connect_options config))) w 1%Z
      (Retry.delayMs (Wire.connect_options config)) None Hc).
    destruct (fst (fst (Retry.retry_loop _ _ _ w 1%Z _ None))) as [[]| |];
      [contradiction | exact Hout | exact Hout].
  - apply connect_handshakes.
Qed.

(** X9. [VsocketClient.connect] against a peer that accepts none of the
    [retryAttempts >= 1] attempts, on an instance that is not connected:
    it rejects after exactly [retryAttempts] attempts, with the error of
    the last one, and the instance is not connected. *)
Theorem X9_vsock_connect_refused {rt : Wire.Runtime}
    (enclave : VsocketClient.peer) (config : Wire.VsockConfig)
    (w : VsocketClient.world) :
  (1 <= Wire.retryAttempts config)%Z ->
  VsocketClient.connected (VsocketClient.client w) = false ->
  (forall i, i < Z.to_nat (Wire.retryAttempts config) ->
             Connection.refuses
               (VsocketClient.handshakes enclave
                  (VsocketClient.handshakes_made w + i)) = true) ->
  fst (VsocketClient.connect enclave config w)
  = JS.Thrown
      (Connection.vsock_refusal
         (VsocketClient.handshakes enclave
            (VsocketClient.handshakes_made w
             + pred (Z.to_nat (Wire.retryAttempts config)))))
  /\ VsocketClient.handshakes_made (snd (VsocketClient.connect enclave config w))
     = VsocketClient.handshakes_made w + Z.to_nat (Wire.retryAttempts config)
  /\ VsocketClient.connected
       (VsocketClient.client (snd (VsocketClient.connect enclave config w)))
     = false.
Proof.
  intros Hn Hc Hall. unfold VsocketClient.connect, Retry.retryWithBackoff.
  cbn [Wire.connect_options Retry.maxAttempts Retry.delayMs].
  destruct (Z.to_nat (Wire.retryAttempts config)) as [|k] eqn:Hk; [lia|].
  exact (connect_loop_refused enclave config k w 1%Z (Wire.retryDelayMs config)
           None Hc Hall).
Qed.

Section VsocketRequests.
Import JS Wire VsocketClient Connection.
Context {rt : Runtime}.
Variable enclave : peer.
Variable config : VsockConfig.

Local Abbreviation attempts := (Z.to_nat (retryAttempts config)).

Lemma frame_length (payload : list byte) :
  List.length (frame_bytes payload) = 4 + List.length payload.
Proof. reflexivity. Qed.

(** Waiting for one frame that arrives in any number of pieces. *)
Lemma await_one_frame (p : nat) (payload : list byte) (chunks : list (list byte)) :
  forall w,
    pendingResponse (client w) = Some p ->
    dataBuffer (client w) ++ List.concat chunks = frame_bytes payload ->
    List.concat chunks <> [] ->
    (N.of_nat (List.length payload) < 4294967296)%N ->
    await p chunks w
    = (match deserialize payload with
       | inr response => Returned response
       | inl msg => Thrown (Some (VsocketError ("JSON parse failed: " ^^ msg)))
       end,
       {| client := set_pendingResponse None (set_dataBuffer [] (client w));
          sockets_made := sockets_made w;
          handshakes_made := handshakes_made w;
          writes_made := writes_made w;
          reads_made := reads_made w;
          effects :=
            effects w
            ++ [Deserialized payload;
                match deserialize payload with
                | inr response => Resolve p response
                | inl msg => Reject p (VsocketError ("JSON parse failed: " ^^ msg))
                end] |}).
Proof.
  induction chunks as [|chunk rest IH]; intros w Hp Hcat Hne Hlen;
    [now contradiction Hne|].
  cbn [await List.concat] in *. rewrite app_assoc in Hcat.
  unfold handleData.
  change (dataBuffer (set_dataBuffer (dataBuffer (client w) ++ chunk) (client w)))
    with (dataBuffer (client w) ++ chunk).
  destruct (List.concat rest) as [|b tl] eqn:Hrest.
  - (* the chunk completes the frame *)
    rewrite app_nil_r in Hcat.
    rewrite Hcat, frame_length. cbn [Nat.add].
    assert (Hbuf : dataBuffer (set_dataBuffer (frame_bytes payload) (client w))
                   = frame_bytes payload ++ [])
      by (now rewrite app_nil_r).
    rewrite (handle_loop_frame _ _ payload [] Hbuf Hlen).
    rewrite set_dataBuffer_twice.
    unfold settle. cbn [set_dataBuffer pendingResponse]. rewrite Hp.
    destruct (deserialize payload) as [msg|response];
      rewrite handle_loop_incomplete by exact I;
      cbn [settlement app]; rewrite Nat.eqb_refl; reflexivity.
  - (* more is to come *)
    assert (Hinc : incomplete (dataBuffer (client w) ++ chunk)).
    { apply (strict_prefix_incomplete _ (b :: tl) payload);
        [exact Hcat | discriminate | exact Hlen]. }
    rewrite handle_loop_incomplete by exact Hinc.
    cbn [settlement].
    rewrite (IH (log [] (with_client
                           (fun _ => set_dataBuffer (dataBuffer (client w) ++ chunk)
                                       (client w)) w))).
    + cbn [log with_client client sockets_made handshakes_made writes_made
           reads_made effects].
      now rewrite set_dataBuffer_twice, app_nil_r.
    + exact Hp.
    + exact Hcat.
    + discriminate.
    + exact Hlen.
Qed.

Lemma readMessage_one_frame (payload : list byte) (w : world) :
  dataBuffer (client w) ++ List.concat (replies enclave (reads_made w))
  = frame_bytes payload ->
  List.concat (replies enclave (reads_made w)) <> [] ->
  (N.of_nat (List.length payload) < 4294967296)%N ->
  readMessage enclave w
  = (match deserialize payload with
     | inr response => Returned response
     | inl msg => Thrown (Some (VsocketError ("JSON parse failed: " ^^ msg)))
     end,
     {| client := set_pendingResponse None (set_dataBuffer [] (client w));
        sockets_made := sockets_made w;
        handshakes_made := handshakes_made w;
        writes_made := writes_made w;
        reads_made := S (reads_made w);
        effects :=
          effects w
          ++ [Deserialized payload;
              match deserialize payload with
              | inr response => Resolve (reads_made w) response
              | inl msg =>
                  Reject (reads_made w)
                    (VsocketError ("JSON parse failed: " ^^ msg))
              end] |}).
Proof.
  intros Hcat Hne Hlen. unfold readMessage.
  rewrite (await_one_frame (reads_made w) payload); try assumption; reflexivity.
Qed.

(** ** How far one call can go *)

Lemma within_refl (frame : list byte) (a b c : nat) (w : world) :
  within frame a b c w w.
Proof.
  split; [|lia]. exists 0. split; [lia|]. simpl. now rewrite app_nil_r.
Qed.

Lemma within_trans (frame : list byte) (a b c a' b' c' : nat) (w w1 w2 : world) :
  within frame a b c w w1 -> within frame a' b' c' w1 w2 ->
  within frame (a + a') (b + b') (c + c') w w2.
Proof.
  intros ((k & Hk & Hw) & Hr & Hh) ((k' & Hk' & Hw') & Hr' & Hh').
  split; [|lia]. exists (k + k'). split; [lia|].
  now rewrite Hw', Hw, <- app_assoc, repeat_app.
Qed.

Lemma within_weaken (frame : list byte) (a b c a' b' c' : nat) (w w' : world) :
  a <= a' -> b <= b' -> c <= c' ->
  within frame a b c w w' -> within frame a' b' c' w w'.
Proof.
  intros Ha Hb Hc ((k & Hk & Hw) & Hr & Hh).
  split; [|lia]. exists k. split; [lia | exact Hw].
Qed.

Lemma and_then_within {A B : Type} (frame : list byte) (a b c a' b' c' : nat)
    (first : world -> outcome A * world)
    (next : A -> world -> outcome B * world) (w : world) :
  (forall w0, within frame a b c w0 (snd (first w0))) ->
  (forall x w0, within frame a' b' c' w0 (snd (next x w0))) ->
  within frame (a + a') (b + b') (c + c') w (snd (and_then first next w)).
Proof.
  intros Hfirst Hnext. unfold and_then. specialize (Hfirst w).
  destruct (first w) as [[x|reason|] w1]; cbn [fst snd] in *.
  - exact (within_trans _ _ _ _ _ _ _ _ _ _ Hfirst (Hnext x w1)).
  - apply (within_weaken frame a b c); try lia. exact Hfirst.
  - apply (within_weaken frame a b c); try lia. exact Hfirst.
Qed.

Lemma try_catch_within {A : Type} (frame : list byte) (a b c a' b' c' : nat)
    (body : world -> outcome A * world)
    (handler : option Error -> world -> outcome A * world) (w : world) :
  (forall w0, within frame a b c w0 (snd (body w0))) ->
  (forall reason w0, within frame a' b' c' w0 (snd (handler reason w0))) ->
  within frame (a + a') (b + b') (c + c') w (snd (try_catch body handler w)).
Proof.
  intros Hbody Hhandler. unfold try_catch. specialize (Hbody w).
  destruct (body w) as [[x|reason|] w1]; cbn [fst snd] in *.
  - apply (within_weaken frame a b c); try lia. exact Hbody.
  - exact (within_trans _ _ _ _ _ _ _ _ _ _ Hbody (Hhandler reason w1)).
  - apply (within_weaken frame a b c); try lia. exact Hbody.
Qed.

Lemma connect_within (frame : list byte) (w : world) :
  within frame 0 0 attempts w (snd (connect enclave config w)).
Proof.
  destruct (connect_untouched enclave config w) as (_ & _ & _ & Hr & He).
  pose proof (connect_handshakes enclave config w).
  split; [|lia]. exists 0. split; [lia|]. simpl. now rewrite app_nil_r.
Qed.

Lemma writeMessage_within (msg : TeeRequest) (w : world) :
  within (frame_bytes (serialize msg)) 1 0 0 w (snd (writeMessage enclave msg w)).
Proof.
  unfold writeMessage.
  destruct (socket (client w)); [|apply within_refl].
  destruct (encode_frame msg) as [frame|] eqn:Henc; [|apply within_refl].
  apply encode_frame_inv in Henc. destruct Henc as [-> _].
  destruct (writes enclave (writes_made w)); cbn [snd];
    (split; [|cbn; lia]); exists 1; (split; [lia|]);
    cbn [log count_write effects]; now rewrite write_attempts_app.
Qed.

Lemma handle_loop_writes_nothing (fuel : nat) :
  forall c, write_attempts (snd (handle_loop fuel c)) = [].
Proof.
  induction fuel as [|fuel IH]; intros c; [reflexivity|].
  cbn [handle_loop].
  destruct (dataBuffer c) as [|b0 [|b1 [|b2 [|b3 rest]]]]; try reflexivity.
  destruct (_ <=? _)%N; [|reflexivity]. cbv zeta.
  destruct (settle _ _) as [c2 settled] eqn:Hs.
  specialize (IH c2). destruct (handle_loop fuel c2) as [c3 later].
  cbn [snd write_attempts] in *. rewrite write_attempts_app, IH, app_nil_r.
  unfold settle in Hs.
  destruct (deserialize _), (pendingResponse _); injection Hs as _ <-; reflexivity.
Qed.

Lemma await_within (frame : list byte) (p : nat) (chunks : list (list byte)) :
  forall w, within frame 0 0 0 w (snd (await p chunks w)).
Proof.
  induction chunks as [|chunk rest IH]; intros w; [apply within_refl|].
  cbn [await].
  pose proof (handle_loop_writes_nothing
                (List.length (dataBuffer (client w) ++ chunk))
                (set_dataBuffer (dataBuffer (client w) ++ chunk) (client w)))
    as Hquiet.
  change (handle_loop _ _) with (handleData (client w) chunk) in Hquiet.
  destruct (handleData (client w) chunk) as [c1 effs]. cbn [snd] in Hquiet.
  assert (Hstep : within frame 0 0 0 w (log effs (with_client (fun _ => c1) w))).
  { split; [|cbn; lia]. exists 0. split; [lia|].
    cbn [log with_client effects]. now rewrite write_attempts_app, Hquiet. }
  destruct (settlement p effs) as [[error|response]|]; try exact Hstep.
  exact (within_trans _ _ _ _ _ _ _ _ _ _ Hstep (IH _)).
Qed.

Lemma readMessage_within (frame : list byte) (w : world) :
  within frame 0 1 0 w (snd (readMessage enclave w)).
Proof.
  unfold readMessage.
  apply (within_trans frame 0 1 0 0 0 0 w
           (count_read (with_client (set_pendingResponse (Some (reads_made w))) w))).
  - split; [|cbn; lia]. exists 0. split; [lia|]. simpl. now rewrite app_nil_r.
  - apply await_within.
Qed.

Lemma drop_socket_within (frame : list byte) (w : world) :
  within frame 0 0 0 w (drop_socket w).
Proof.
  unfold drop_socket, destroy_socket. cbn [with_client client set_connected socket].
  destruct (socket (client w)); (split; [|cbn; lia]); exists 0; (split; [lia|]);
    cbn [log with_client effects repeat]; rewrite ?write_attempts_app, app_nil_r;
    try reflexivity.
  simpl. now rewrite app_nil_r.
Qed.

Lemma round_within (req : TeeRequest) (w : world) :
  within (frame_bytes (serialize req)) 1 1 0 w
    (snd (and_then (writeMessage enclave req) (fun _ => readMessage enclave) w)).
Proof.
  apply (and_then_within _ 1 0 0 0 1 0).
  - apply writeMessage_within.
  - intros _. apply readMessage_within.
Qed.

End VsocketRequests.


(** X11. The reconnect path of [VsocketClient.sendRequest]: when the write
    throws, the socket is destroyed, [connect] is called, and, the peer
    accepting and the second write succeeding, the same frame is written
    on the new socket and the call returns the response; the caller does
    not see the write failure. *)
Theorem X11_vsock_write_failure_recovery {rt : Wire.Runtime}
    (enclave : VsocketClient.peer) (config : Wire.VsockConfig)
    (req : Wire.TeeRequest) (w : VsocketClient.world) (s : nat)
    (frame payload : list byte) (response : JS.jsval) (msg : string) :
  VsocketClient.connected (VsocketClient.client w) = true ->
  VsocketClient.socket (VsocketClient.client w) = Some s ->
  Wire.encode_frame req = Some frame ->
  VsocketClient.writes enclave (VsocketClient.writes_made w) = Some msg ->
  VsocketClient.handshakes enclave (VsocketClient.handshakes_made w)
  = Wire.Connects ->
  (1 <= Wire.retryAttempts config)%Z ->
  VsocketClient.writes enclave (S (VsocketClient.writes_made w)) = None ->
  VsocketClient.dataBuffer (VsocketClient.client w)
    ++ List.concat (VsocketClient.replies enclave (VsocketClient.reads_made w))
  = Wire.frame_bytes payload ->
  List.concat (VsocketClient.replies enclave (VsocketClient.reads_made w)) <> [] ->
  (N.of_nat (List.length payload) < 4294967296)%N ->
  Wire.deserialize payload = inr response ->
  VsocketClient.sendRequest enclave config req w
  = (JS.Returned response,
     {| VsocketClient.client :=
          {| VsocketClient.socket := Some (VsocketClient.sockets_made w);
             VsocketClient.connected := true;
             VsocketClient.dataBuffer := [];
             VsocketClient.pendingResponse := None |};
        VsocketClient.sockets_made := S (VsocketClient.sockets_made w);
        VsocketClient.handshakes_made := S (VsocketClient.handshakes_made w);
        VsocketClient.writes_made := S (S (VsocketClient.writes_made w));
        VsocketClient.reads_made := S (VsocketClient.reads_made w);
        VsocketClient.effects :=
          VsocketClient.effects w
          ++ [Wire.WriteFailed s frame; Wire.Destroyed s;
              Wire.Created (VsocketClient.sockets_made w);
              Wire.Wrote (VsocketClient.sockets_made w) frame;
              Wire.Deserialized payload;
              Wire.Resolve (VsocketClient.reads_made w) response] |}).
Proof.
  intros Hc Hs Henc Hwr Hh Hn Hwr2 Hcat Hne Hlen Hparse.
  unfold VsocketClient.sendRequest.
  unfold VsocketClient.and_then at 1.
  unfold VsocketClient.has_socket. rewrite Hc, Hs. cbn [negb orb].
  unfold VsocketClient.try_catch.
  unfold VsocketClient.and_then at 1.
  unfold VsocketClient.writeMessage at 1. rewrite Hs, Henc, Hwr.
  assert (Hdrop :
    VsocketClient.drop_socket
      (VsocketClient.log [Wire.WriteFailed s frame] (VsocketClient.count_write w))
    = {| VsocketClient.client :=
           VsocketClient.set_socket None
             (VsocketClient.set_connected false (VsocketClient.client w));
         VsocketClient.sockets_made := VsocketClient.sockets_made w;
         VsocketClient.handshakes_made := VsocketClient.handshakes_made w;
         VsocketClient.writes_made := S (VsocketClient.writes_made w);
         VsocketClient.reads_made := VsocketClient.reads_made w;
         VsocketClient.effects :=
           (VsocketClient.effects w ++ [Wire.WriteFailed s frame])
           ++ [Wire.Destroyed s] |}).
  { unfold VsocketClient.drop_socket, VsocketClient.destroy_socket.
    cbn [VsocketClient.with_client VsocketClient.log VsocketClient.count_write
         VsocketClient.client VsocketClient.socket VsocketClient.set_connected].
    rewrite Hs. reflexivity. }
  rewrite Hdrop. clear Hdrop.
  unfold VsocketClient.and_then at 1.
  rewrite connect_first_accepts; [|exact Hh|exact Hn].
  unfold VsocketClient.and_then at 1.
  unfold VsocketClient.writeMessage.
  cbn [VsocketClient.with_client VsocketClient.log VsocketClient.count_write
       VsocketClient.open_socket VsocketClient.client VsocketClient.socket
       VsocketClient.set_connected VsocketClient.set_socket
       VsocketClient.sockets_made VsocketClient.handshakes_made
       VsocketClient.writes_made VsocketClient.reads_made VsocketClient.effects].
  rewrite Henc, Hwr2.
  rewrite (readMessage_one_frame enclave payload); try assumption.
  rewrite Hparse.
  cbn [VsocketClient.with_client VsocketClient.log VsocketClient.count_write
       VsocketClient.client VsocketClient.socket VsocketClient.connected
       VsocketClient.dataBuffer VsocketClient.pendingResponse
       VsocketClient.set_pendingResponse VsocketClient.set_dataBuffer
       VsocketClient.sockets_made VsocketClient.handshakes_made
       VsocketClient.writes_made VsocketClient.reads_made VsocketClient.effects].
  cbn. now rewrite <- !app_assoc.
Qed.

(** X12. One call of [VsocketClient.sendRequest] hands at most two buffers
    to [writeSync], each of them the frame of the request, starts at most
    two reads and makes at most [2 * retryAttempts] connection attempts,
    whatever the peer does. *)
Theorem X12_vsock_request_written_at_most_twice {rt : Wire.Runtime}
    (enclave : VsocketClient.peer) (config : Wire.VsockConfig)
    (req : Wire.TeeRequest) (w : VsocketClient.world) :
  Connection.within (Wire.frame_bytes (Wire.serialize req)) 2 2
    (2 * Z.to_nat (Wire.retryAttempts config))
    w (snd (VsocketClient.sendRequest enclave config req w)).
Proof.
  unfold VsocketClient.sendRequest.
  set (n := Z.to_nat (Wire.retryAttempts config)).
  apply (within_weaken _ (0 + (1 + (0 + (0 + 1)))) (0 + (1 + (0 + (0 + 1))))
           (n + (0 + (0 + (n + 0))))); try lia.
  apply (and_then_within _ 0 0 n (1 + (0 + (0 + 1))) (1 + (0 + (0 + 1)))
           (0 + (0 + (n + 0)))).
  - intros w0. destruct (_ || _).
    + apply connect_within.
    + apply within_refl.
  - intros _ w0.
    apply (try_catch_within _ 1 1 0 (0 + (0 + 1)) (0 + (0 + 1)) (0 + (n + 0))).
    + apply round_within.
    + intros _ w1.
      apply (within_trans _ 0 0 0 (0 + 1) (0 + 1) (n + 0) w1
               (VsocketClient.drop_socket w1));
        [apply drop_socket_within|].
      apply (and_then_within _ 0 0 n 1 1 0).
      * apply connect_within.
      * intros _. apply round_within.
Qed.

(** X13. [VsocketClient.sendRequest] on an instance that is not connected,
    whose peer accepts none of the [retryAttempts >= 1] attempts: the call
    rejects with the error of the last attempt, and nothing is written or
    read. *)
Theorem X13_vsock_request_without_connection {rt : Wire.Runtime}
    (enclave : VsocketClient.peer) (config : Wire.VsockConfig)
    (req : Wire.TeeRequest) (w : VsocketClient.world) :
  (1 <= Wire.retryAttempts config)%Z ->
  VsocketClient.connected (VsocketClient.client w) = false ->
  (forall i, i < Z.to_nat (Wire.retryAttempts config) ->
             Connection.refuses
               (VsocketClient.handshakes enclave
                  (VsocketClient.handshakes_made w + i)) = true) ->
  fst (VsocketClient.sendRequest enclave config req w)
  = JS.Thrown
      (Connection.vsock_refusal
         (VsocketClient.handshakes enclave
            (VsocketClient.handshakes_made w
             + pred (Z.to_nat (Wire.retryAttempts config)))))
  /\ Connection.write_attempts
       (VsocketClient.effects (snd (VsocketClient.sendRequest enclave config req w)))
     = Connection.write_attempts (VsocketClient.effects w)
  /\ VsocketClient.writes_made (snd (VsocketClient.sendRequest enclave config req w))
     = VsocketClient.writes_made w
  /\ VsocketClient.reads_made (snd (VsocketClient.sendRequest enclave config req w))
     = VsocketClient.reads_made w.
Proof.
  intros Hn Hc Hall.
  unfold VsocketClient.sendRequest, VsocketClient.and_then.
  rewrite Hc. cbn [negb orb].
  destruct (connect_untouched enclave config w) as (_ & _ & Hw & Hr & He).
  unfold VsocketClient.connect, Retry.retryWithBackoff in *.
  cbn [Wire.connect_options Retry.maxAttempts Retry.delayMs] in *.
  destruct (Z.to_nat (Wire.retryAttempts config)) as [|k] eqn:Hk; [lia|].
  destruct (connect_loop_refused enclave config k w 1%Z (Wire.retryDelayMs config)
              None Hc Hall) as (Hres & _ & _).
  change (Wire.connect_options config)
    with {| Retry.maxAttempts := Wire.retryAttempts config;
            Retry.delayMs := Wire.retryDelayMs config;
            Retry.backoffMultiplier := 2;
            Retry.onRetry := Some (fun _ _ => None) |} in *.
  destruct (Retry.retry_loop _ _ (S k) w 1%Z _ None) as [[r w1] tr].
  cbn [fst snd] in *. subst r. cbn [fst snd Nat.pred]. repeat split; assumption.
Qed.

Section AwaitedPromise.
Import JS Wire VsocketClient.
Context {rt : Runtime}.

Lemma settlement_filter (p : nat) (effs : list effect) :
  settlement p effs = settlement p (filter is_settlement effs).
Proof.
  induction effs as [|eff effs IH]; [reflexivity|].
  destruct eff; cbn [filter is_settlement settlement]; try exact IH;
    (destruct (Nat.eqb p promise); [reflexivity | exact IH]).
Qed.

Lemma settlement_app (p : nat) (e1 e2 : list effect) :
  settlement p (e1 ++ e2)
  = match settlement p e1 with
    | Some result => Some result
    | None => settlement p e2
    end.
Proof.
  induction e1 as [|eff e1 IH]; [reflexivity|].
  destruct eff; cbn [app settlement]; try exact IH;
    (destruct (Nat.eqb p promise); [reflexivity | exact IH]).
Qed.

(** One call of [handleData] leaves a promise that is not the awaited one
    alone. *)
Lemma handleData_other_promise (c : t) (chunk : list byte) (p : nat) :
  pendingResponse c <> Some p ->
  settlement p (snd (handleData c chunk)) = None
  /\ pendingResponse (fst (handleData c chunk)) <> Some p.
Proof.
  intros Hother. unfold handleData.
  pose proof (handle_loop_settles_once
                (List.length (dataBuffer (set_dataBuffer (dataBuffer c ++ chunk) c)))
                (set_dataBuffer (dataBuffer c ++ chunk) c)) as Honce.
  change (pendingResponse (set_dataBuffer (dataBuffer c ++ chunk) c))
    with (pendingResponse c) in Honce.
  rewrite settlement_filter.
  destruct (pendingResponse c) as [q|] eqn:Hq.
  - destruct (deserialized (snd (handle_loop _ _))) as [|payload more].
    + destruct Honce as [-> ->]. split; [reflexivity | exact Hother].
    + destruct Honce as [-> ->]. split; [|discriminate].
      assert (Hpq : Nat.eqb p q = false).
      { apply Nat.eqb_neq. intros ->. now apply Hother. }
      destruct (deserialize payload); cbn [settlement]; now rewrite Hpq.
  - destruct Honce as [-> ->]. split; [reflexivity | discriminate].
Qed.

End AwaitedPromise.

(** X23. [handleData] settles no promise but the one stored in
    [pendingResponse]: a promise that is not stored there, such as one
    that a later [readMessage] has overwritten, is neither resolved nor
    rejected by any data that arrives, and never gets back into the
    field. *)
Theorem X23_overwritten_promise_is_lost {rt : Wire.Runtime}
    (chunks : list (list byte)) (p : nat) :
  forall c : VsocketClient.t,
    VsocketClient.pendingResponse c <> Some p ->
    VsocketClient.settlement p (snd (VsocketClient.deliver c chunks)) = None
    /\ VsocketClient.pendingResponse (fst (VsocketClient.deliver c chunks))
       <> Some p.
Proof.
  induction chunks as [|chunk rest IH]; intros c Hother.
  - split; [reflexivity | exact Hother].
  - cbn [VsocketClient.deliver].
    destruct (handleData_other_promise c chunk p Hother) as [Hnone Hstill].
    destruct (VsocketClient.handleData c chunk) as [c1 effs].
    cbn [fst snd] in *.
    destruct (IH c1 Hstill) as [Hlater Hend].
    destruct (VsocketClient.deliver c1 rest) as [c2 later]. cbn [fst snd] in *.
    split; [|exact Hend]. now rewrite settlement_app, Hnone.
Qed.


(* ================================================================== *)
(** * Properties of UnixSocketClient.sendRequest                        *)
(* ================================================================== *)

Section UnixRequestProperties.
Import JS Wire UnixRequests.
Context {rt : Runtime}.
Variable writes : nat -> option string.
Variable size_limit : N -> option Error.

Lemma iterations_left_pos (bytes : nat) (copied : list byte) (st : stream) :
  1 <= iterations_left bytes copied st.
Proof.
  unfold iterations_left.
  destruct (Nat.ltb (List.length copied) bytes), (ended st),
    (is_empty (buffered st)); lia.
Qed.

(** The fuel of [read_loop] is never what stops it. *)
Lemma read_loop_fuel (fuel : nat) :
  forall fuel' bytes copied st,
    iterations_left bytes copied st <= fuel ->
    iterations_left bytes copied st <= fuel' ->
    read_loop fuel bytes copied st = read_loop fuel' bytes copied st.
Proof.
  induction fuel as [|fuel IH]; intros fuel' bytes copied st Hf Hf'.
  { pose proof (iterations_left_pos bytes copied st). lia. }
  destruct fuel' as [|fuel'].
  { pose proof (iterations_left_pos bytes copied st). lia. }
  cbn [read_loop]. unfold iterations_left in Hf, Hf'.
  destruct (Nat.ltb (List.length copied) bytes) eqn:Hlt; [|reflexivity].
  pose proof Hlt as Hlt'.
  apply Nat.ltb_lt in Hlt.
  unfold read.
  destruct (Nat.eqb (bytes - List.length copied) 0) eqn:Hz;
    [apply Nat.eqb_eq in Hz; lia|].
  destruct (Nat.leb (bytes - List.length copied) (List.length (buffered st)))
    eqn:Hfull.
  - (* the read fills the buffer *)
    apply Nat.leb_le in Hfull.
    assert (Hne : is_empty (buffered st) = false).
    { destruct (buffered st); [simpl in Hfull; lia | reflexivity]. }
    rewrite Hne in Hf, Hf'.
    apply IH; unfold iterations_left;
      rewrite length_app, length_firstn, Nat.min_l by exact Hfull;
      replace (List.length copied + (bytes - List.length copied)) with bytes by lia;
      rewrite Nat.ltb_irrefl;
      destruct (ended st); lia.
  - destruct (ended st) eqn:He.
    + destruct (buffered st) as [|b buf] eqn:Hb; cbn [is_empty negb andb].
      * unfold once_readable. now rewrite He.
      * cbn [is_empty] in Hf, Hf'.
        apply IH; unfold iterations_left; cbn [buffered ended is_empty];
          match goal with
          | |- (if ?c then _ else _) <= _ => destruct c
          end; lia.
    + cbn [andb]. unfold once_readable. rewrite He.
      destruct (arriving st) as [|chunk rest] eqn:Harr.
      * destruct (closes st); [|reflexivity].
        apply IH; unfold iterations_left; cbn [buffered ended arriving closes];
          rewrite Hlt'; destruct (is_empty (buffered st));
          cbn [List.length] in *; lia.
      * apply IH; unfold iterations_left; cbn [buffered ended arriving closes];
          rewrite Hlt'; destruct (closes st); cbn [List.length] in *; lia.
Qed.

(** A read that the buffer can serve at once. *)
Lemma read_loop_full (want rest buf tail : list byte) (arr : list (list byte))
    (cl e : bool) (fuel : nat) :
  List.length want <= List.length buf ->
  buf ++ tail = want ++ rest ->
  2 <= fuel ->
  read_loop fuel (List.length want) [] (mkStream buf arr cl e)
  = (Returned want, mkStream (skipn (List.length want) buf) arr cl e)
  /\ skipn (List.length want) buf ++ tail = rest.
Proof.
  intros Hle Hcat Hfuel.
  assert (Hfirst : firstn (List.length want) buf = want).
  { apply (f_equal (firstn (List.length want))) in Hcat.
    rewrite firstn_app in Hcat.
    replace (List.length want - List.length buf) with 0 in Hcat by lia.
    rewrite firstn_O, app_nil_r in Hcat. rewrite Hcat.
    rewrite firstn_app, Nat.sub_diag, firstn_O, app_nil_r. apply firstn_all. }
  assert (Hskip : skipn (List.length want) buf ++ tail = rest).
  { apply (f_equal (skipn (List.length want))) in Hcat.
    rewrite skipn_app in Hcat.
    replace (List.length want - List.length buf) with 0 in Hcat by lia.
    cbn [skipn] in Hcat. rewrite Hcat.
    rewrite skipn_app, skipn_all, Nat.sub_diag. reflexivity. }
  split; [|exact Hskip].
  destruct fuel as [|[|fuel]]; try lia.
  cbn [read_loop List.length].
  destruct (Nat.ltb 0 (List.length want)) eqn:Hpos.
  - apply Nat.ltb_lt in Hpos. rewrite Nat.sub_0_r. unfold read.
    cbn [buffered arriving closes ended].
    destruct (Nat.eqb (List.length want) 0) eqn:Hz;
      [apply Nat.eqb_eq in Hz; lia|].
    apply Nat.leb_le in Hle. rewrite Hle. cbn [app].
    rewrite Hfirst, Nat.ltb_irrefl. now rewrite firstn_all.
  - apply Nat.ltb_ge in Hpos.
    destruct want; [|simpl in Hpos; lia]. reflexivity.
Qed.

(** Reading [want] off a stream that has not ended and still has, or will
    have, at least that much: the chunking does not matter, and what
    follows [want] stays in the stream. *)
Lemma read_loop_returns (want rest : list byte) (cl : bool)
    (arr : list (list byte)) :
  forall buf fuel,
    buf ++ List.concat arr = want ++ rest ->
    List.length arr + 2 <= fuel ->
    exists buf' arr',
      read_loop fuel (List.length want) [] (mkStream buf arr cl false)
      = (Returned want, mkStream buf' arr' cl false)
      /\ buf' ++ List.concat arr' = rest.
Proof.
  induction arr as [|chunk arr IH]; intros buf fuel Hcat Hfuel.
  - cbn [List.concat] in Hcat.
    assert (Hle : List.length want <= List.length buf).
    { apply (f_equal (@List.length byte)) in Hcat.
      rewrite !length_app in Hcat. simpl in Hcat. lia. }
    destruct (read_loop_full want rest buf [] [] cl false fuel Hle Hcat)
      as [Hrun Hrest]; [simpl in Hfuel; lia|].
    now exists (skipn (List.length want) buf), [].
  - destruct (le_lt_dec (List.length want) (List.length buf)) as [Hle|Hlt].
    + destruct (read_loop_full want rest buf (List.concat (chunk :: arr))
                  (chunk :: arr) cl false fuel Hle Hcat) as [Hrun Hrest];
        [lia|].
      now exists (skipn (List.length want) buf), (chunk :: arr).
    + destruct fuel as [|fuel]; [lia|]. cbn [read_loop List.length].
      assert (Hpos : Nat.ltb 0 (List.length want) = true) by (apply Nat.ltb_lt; lia).
      rewrite Hpos, Nat.sub_0_r. unfold read. cbn [buffered ended].
      destruct (Nat.eqb (List.length want) 0) eqn:Hz;
        [apply Nat.eqb_eq in Hz; lia|].
      assert (Hnle : Nat.leb (List.length want) (List.length buf) = false)
        by (apply Nat.leb_gt; exact Hlt).
      rewrite Hnle. cbn [andb once_readable ended arriving buffered closes].
      apply IH.
      * cbn [List.concat] in Hcat. now rewrite <- app_assoc.
      * cbn [List.length] in Hfuel. lia.
Qed.

(** A stream that has ended with too little left. *)
Lemma read_loop_ended_starves (bytes : nat) (copied buf : list byte)
    (arr : list (list byte)) (cl : bool) (fuel : nat) :
  List.length copied + List.length buf < bytes ->
  fst (read_loop fuel bytes copied (mkStream buf arr cl true)) = Pending.
Proof.
  intros Hshort. destruct fuel as [|fuel]; [reflexivity|].
  cbn [read_loop].
  assert (Hlt : Nat.ltb (List.length copied) bytes = true) by (apply Nat.ltb_lt; lia).
  rewrite Hlt. unfold read. cbn [buffered ended arriving closes].
  destruct (Nat.eqb (bytes - List.length copied) 0) eqn:Hz;
    [apply Nat.eqb_eq in Hz; lia|].
  assert (Hnle : Nat.leb (bytes - List.length copied) (List.length buf) = false)
    by (apply Nat.leb_gt; lia).
  rewrite Hnle. destruct buf as [|b buf]; cbn [is_empty negb andb].
  - reflexivity.
  - destruct fuel as [|fuel]; [reflexivity|]. cbn [read_loop].
    assert (Hlt2 : Nat.ltb (List.length (copied ++ b :: buf)) bytes = true).
    { apply Nat.ltb_lt. rewrite length_app. exact Hshort. }
    rewrite Hlt2. unfold read. cbn [buffered ended arriving closes List.length].
    destruct (Nat.eqb (bytes - List.length (copied ++ b :: buf)) 0) eqn:Hz2.
    + reflexivity.
    + apply Nat.eqb_neq in Hz2.
      assert (Hnle2 : Nat.leb (bytes - List.length (copied ++ b :: buf)) 0 = false)
        by (apply Nat.leb_gt; lia).
      rewrite Hnle2. reflexivity.
Qed.

(** A stream that will never have enough: with or without an end, the
    loop waits for an event that does not come. *)
Lemma read_loop_starves (bytes : nat) (cl : bool) (arr : list (list byte)) :
  forall buf fuel,
    List.length (buf ++ List.concat arr) < bytes ->
    fst (read_loop fuel bytes [] (mkStream buf arr cl false)) = Pending.
Proof.
  induction arr as [|chunk arr IH]; intros buf fuel Hshort;
    (destruct fuel as [|fuel]; [reflexivity|]);
    rewrite length_app in Hshort; cbn [read_loop List.length];
    (assert (Hpos : Nat.ltb 0 bytes = true) by (apply Nat.ltb_lt; lia));
    rewrite Hpos, Nat.sub_0_r; unfold read; cbn [buffered ended];
    (destruct (Nat.eqb bytes 0) eqn:Hz; [apply Nat.eqb_eq in Hz; lia|]);
    (assert (Hnle : Nat.leb bytes (List.length buf) = false)
       by (apply Nat.leb_gt; lia));
    rewrite Hnle; cbn [andb once_readable ended arriving buffered closes].
  - destruct cl; [|reflexivity].
    apply read_loop_ended_starves. simpl. lia.
  - apply IH. cbn [List.concat] in Hshort.
    rewrite !length_app in *. lia.
Qed.

Lemma uint32_bytes_nth (n : N) :
  (n < 4294967296)%N ->
  uint32BE (nth 0 (uint32_bytes n) x00) (nth 1 (uint32_bytes n) x00)
           (nth 2 (uint32_bytes n) x00) (nth 3 (uint32_bytes n) x00) = n.
Proof. intros Hn. unfold uint32_bytes. cbn [nth]. now apply uint32BE_uint32_bytes. Qed.


End UnixRequestProperties.


(** X15. [UnixSocketClient.sendRequest] has no time limit and does not
    notice the end of the stream: when all that a stream which has not
    ended has and will have is a frame short of some bytes, the request is
    written and the call then stays pending for ever, whether the peer
    ends the stream or just stays silent. *)
Theorem X15_unix_request_never_times_out {rt : Wire.Runtime}
    (writes : nat -> option string) (size_limit : N -> option JS.Error)
    (req : Wire.TeeRequest) (c : UnixSocketClient.t) (w : UnixRequests.io)
    (s : nat) (payload missing : list byte) :
  UnixSocketClient.connected c = true ->
  UnixSocketClient.socket c = Some s ->
  (N.of_nat (List.length (Wire.serialize req)) < 4294967296)%N ->
  writes (UnixRequests.writes_made w) = None ->
  writes (S (UnixRequests.writes_made w)) = None ->
  size_limit 4%N = None ->
  size_limit (N.of_nat (List.length payload)) = None ->
  (N.of_nat (List.length payload) < 4294967296)%N ->
  UnixRequests.ended (UnixRequests.incoming w) = false ->
  UnixRequests.pending_bytes (UnixRequests.incoming w) ++ missing
  = Wire.frame_bytes payload ->
  missing <> [] ->
  fst (fst (UnixRequests.sendRequest writes size_limit req c w)) = JS.Pending
  /\ snd (UnixRequests.sendRequest writes size_limit req c w)
     = [Wire.Wrote s (Wire.uint32_bytes (N.of_nat (List.length (Wire.serialize req))));
        Wire.Wrote s (Wire.serialize req)].
Proof.
  intros Hc Hs Henc Hw1 Hw2 H4 Hsize Hlen Hend Hbytes Hmissing.
  unfold UnixRequests.sendRequest, UnixRequests.has_socket.
  rewrite Hc, Hs. cbn [negb orb].
  unfold UnixRequests.writeMessage, Wire.writeUInt32BE. rewrite Hs.
  apply N.ltb_lt in Henc. rewrite Henc. cbv zeta. rewrite Hw1, Hw2.
  assert (Hread : exists st2,
    UnixRequests.readMessage size_limit c
      (UnixRequests.count_write (UnixRequests.count_write w))
    = (JS.Pending,
       UnixRequests.with_incoming st2
         (UnixRequests.count_write (UnixRequests.count_write w)), [])).
  { unfold UnixRequests.readMessage, UnixRequests.readExactly. rewrite Hs.
    cbn [UnixRequests.count_write UnixRequests.incoming].
    destruct (UnixRequests.incoming w) as [buf arr cl e] eqn:Hst.
    cbn [UnixRequests.ended] in Hend. subst e.
    unfold UnixRequests.pending_bytes in Hbytes.
    cbn [UnixRequests.buffered UnixRequests.arriving] in Hbytes.
    change (N.of_nat 4) with 4%N. rewrite H4.
    cbn [UnixRequests.arriving].
    destruct (le_lt_dec 4 (List.length (buf ++ List.concat arr))) as [Hhave|Hshort].
    - (* the length prefix is there, the payload is not *)
      assert (Hsplit : exists part,
                 buf ++ List.concat arr
                 = Wire.uint32_bytes (N.of_nat (List.length payload)) ++ part
                 /\ List.length part < List.length payload).
      { exists (skipn 4 (buf ++ List.concat arr)).
        assert (Hfirst : firstn 4 (buf ++ List.concat arr)
                         = Wire.uint32_bytes (N.of_nat (List.length payload))).
        { apply (f_equal (firstn 4)) in Hbytes.
          rewrite firstn_app in Hbytes.
          replace (4 - List.length (buf ++ List.concat arr)) with 0 in Hbytes by lia.
          rewrite firstn_O, app_nil_r in Hbytes. rewrite Hbytes. reflexivity. }
        split.
        - now rewrite <- Hfirst, firstn_skipn.
        - apply (f_equal (@List.length byte)) in Hbytes.
          rewrite length_app in Hbytes. rewrite length_skipn.
          change (List.length (Wire.frame_bytes payload))
            with (4 + List.length payload) in Hbytes.
          destruct missing; [contradiction|]. simpl in Hbytes. lia. }
      destruct Hsplit as (part & Hpart & Hless).
      destruct (read_loop_returns
                  (Wire.uint32_bytes (N.of_nat (List.length payload))) part cl
                  arr buf (List.length arr + 4) Hpart)
        as (buf1 & arr1 & Hhead & Hrest1); [lia|].
      change 4 with (List.length (Wire.uint32_bytes
                                    (N.of_nat (List.length payload)))) at 2.
      rewrite Hhead. cbv zeta.
      rewrite (uint32_bytes_nth _ Hlen), Nat2N.id, Hsize.
      cbn [UnixRequests.arriving].
      pose proof (read_loop_starves (List.length payload) cl arr1 buf1
                    (List.length arr1 + 4)) as Hstarve.
      rewrite Hrest1 in Hstarve. specialize (Hstarve Hless). clear Hhead.
      destruct (UnixRequests.read_loop (List.length arr1 + 4)
                  (List.length payload) [] _) as [[got|reason|] st2];
        cbn [fst] in Hstarve; try discriminate. now exists st2.
    - pose proof (read_loop_starves 4 cl arr buf (List.length arr + 4) Hshort)
        as Hstarve.
      destruct (UnixRequests.read_loop _ _ _ _) as [[got|reason|] st2];
        cbn [fst] in Hstarve; try discriminate. now exists st2. }
  destruct Hread as [st2 Hread]. rewrite Hread. now split.
Qed.

(** X16. [UnixSocketClient.sendRequest] does not retry a failed write: when
    the first [socket.write] fails, the call rejects with
    [VsocketError('Write failed: ...')], the JSON is not written and
    nothing is read; when the second one fails, the call rejects in the
    same way with the length prefix already written.  The stream is left
    as it was. *)
Theorem X16_unix_write_failure_surfaces {rt : Wire.Runtime}
    (writes : nat -> option string) (size_limit : N -> option JS.Error)
    (req : Wire.TeeRequest) (c : UnixSocketClient.t) (w : UnixRequests.io)
    (s : nat) (err : string) :
  UnixSocketClient.connected c = true ->
  UnixSocketClient.socket c = Some s ->
  (N.of_nat (List.length (Wire.serialize req)) < 4294967296)%N ->
  (writes (UnixRequests.writes_made w) = Some err ->
   UnixRequests.sendRequest writes size_limit req c w
   = (JS.Thrown (Some (JS.VsocketError ("Write failed: " ^^ err))),
      {| UnixRequests.incoming := UnixRequests.incoming w;
         UnixRequests.writes_made := S (UnixRequests.writes_made w) |},
      [Wire.WriteFailed s
         (Wire.uint32_bytes (N.of_nat (List.length (Wire.serialize req))))]))
  /\ (writes (UnixRequests.writes_made w) = None ->
      writes (S (UnixRequests.writes_made w)) = Some err ->
      UnixRequests.sendRequest writes size_limit req c w
      = (JS.Thrown (Some (JS.VsocketError ("Write failed: " ^^ err))),
         {| UnixRequests.incoming := UnixRequests.incoming w;
            UnixRequests.writes_made := S (S (UnixRequests.writes_made w)) |},
         [Wire.Wrote s
            (Wire.uint32_bytes (N.of_nat (List.length (Wire.serialize req))));
          Wire.WriteFailed s (Wire.serialize req)])).
Proof.
  intros Hc Hs Henc. apply N.ltb_lt in Henc.
  split; [intros Hw1 | intros Hw1 Hw2];
    unfold UnixRequests.sendRequest, UnixRequests.has_socket;
    rewrite Hc, Hs; cbn [negb orb];
    unfold UnixRequests.writeMessage, Wire.writeUInt32BE; rewrite Hs, Henc;
    cbv zeta; rewrite Hw1, ?Hw2; reflexivity.
Qed.

(** X17. In every state an instance of [UnixSocketClient] can be in,
    [sendRequest] does input or output exactly when [isConnected()] holds:
    when it does not hold the call rejects with
    [VsocketError('Not connected to enclave')] without writing or reading
    (there is no reconnect); when it holds, the guard lets the call
    through and, the request being encodable, the first thing done is the
    write of the length prefix on the instance's socket. *)
Theorem X17_unix_request_needs_connection {rt : Wire.Runtime}
    (writes : nat -> option string) (size_limit : N -> option JS.Error)
    (req : Wire.TeeRequest) (w : UnixSocketClient.world) (io : UnixRequests.io) :
  UnixSocketClient.reachable w ->
  (UnixSocketClient.isConnected (UnixSocketClient.client w) = false ->
   UnixRequests.sendRequest writes size_limit req (UnixSocketClient.client w) io
   = (JS.Thrown (Some (JS.VsocketError "Not connected to enclave")), io, []))
  /\ (UnixSocketClient.isConnected (UnixSocketClient.client w) = true ->
      (N.of_nat (List.length (Wire.serialize req)) < 4294967296)%N ->
      exists s rest,
        UnixSocketClient.socket (UnixSocketClient.client w) = Some s
        /\ (snd (UnixRequests.sendRequest writes size_limit req
                   (UnixSocketClient.client w) io)
            = Wire.Wrote s
                (Wire.uint32_bytes (N.of_nat (List.length (Wire.serialize req))))
              :: rest
            \/ snd (UnixRequests.sendRequest writes size_limit req
                      (UnixSocketClient.client w) io)
               = Wire.WriteFailed s
                   (Wire.uint32_bytes
                      (N.of_nat (List.length (Wire.serialize req))))
                 :: rest)).
Proof.
  intros Hreach. split.
  - unfold UnixSocketClient.isConnected. intros Hc.
    unfold UnixRequests.sendRequest. now rewrite Hc.
  - unfold UnixSocketClient.isConnected. intros Hc Henc.
    pose proof (unix_reachable_attached w Hreach Hc) as Hsock.
    destruct (UnixSocketClient.socket (UnixSocketClient.client w)) as [s|] eqn:Hs;
      [|contradiction].
    exists s. apply N.ltb_lt in Henc.
    unfold UnixRequests.sendRequest, UnixRequests.has_socket.
    rewrite Hc, Hs. cbn [negb orb].
    unfold UnixRequests.writeMessage, Wire.writeUInt32BE. rewrite Hs, Henc.
    cbv zeta.
    destruct (writes (UnixRequests.writes_made io)) as [err|].
    + exists []. split; [reflexivity | right; reflexivity].
    + destruct (writes (S (UnixRequests.writes_made io))) as [err|].
      * eexists. split; [reflexivity | left; reflexivity].
      * destruct (UnixRequests.readMessage size_limit _ _) as [[r w2] later].
        eexists. split; [reflexivity | left; reflexivity].
Qed.

(* ================================================================== *)
(** * More properties of UnixSocketClient.connect                       *)
(* ================================================================== *)

Section UnixConnectProperties.
Import JS Wire UnixSocketClient Connection.
Variable listener : nat -> handshake.
Variable config : VsockConfig.

Lemma unix_connect_options_quiet : Retry.observer_quiet (connect_options config).
Proof. intros attempt error. reflexivity. Qed.

Lemma unix_connect_attempt_refused (w : world) :
  connected (client w) = false ->
  refuses (listener (handshakes_made w)) = true ->
  exists e w1,
    connect_attempt listener w = (Retry.Rejects e, w1)
    /\ unix_refusal (listener (handshakes_made w)) = Some e
    /\ connected (client w1) = false
    /\ handshakes_made w1 = S (handshakes_made w).
Proof.
  intros Hc Hr. unfold connect_attempt.
  destruct (listener (handshakes_made w)) as [|msg| |msg]; [discriminate| | |].
  - eexists _, _. repeat split.
  - cbn [open_socket client connected]. rewrite Hc.
    eexists _, _. split; [reflexivity|]. repeat split. exact Hc.
  - eexists _, _. repeat split. exact Hc.
Qed.

Lemma unix_connect_loop_refused (remaining : nat) :
  forall w attempt delay lastError,
    connected (client w) = false ->
    (forall i, i < S remaining ->
               refuses (listener (handshakes_made w + i)) = true) ->
    fst (fst (Retry.retry_loop (connect_attempt listener) (connect_options config)
                (S remaining) w attempt delay lastError))
    = Thrown (unix_refusal (listener (handshakes_made w + remaining)))
    /\ handshakes_made
         (snd (fst (Retry.retry_loop (connect_attempt listener)
                      (connect_options config) (S remaining) w attempt delay
                      lastError)))
       = handshakes_made w + S remaining
    /\ connected
         (client (snd (fst (Retry.retry_loop (connect_attempt listener)
                              (connect_options config) (S remaining) w attempt
                              delay lastError))))
       = false.
Proof.
  induction remaining as [|n IH]; intros w attempt delay lastError Hc Hall.
  - pose proof (Hall 0 (Nat.lt_0_succ 0)) as H0. rewrite Nat.add_0_r in H0.
    destruct (unix_connect_attempt_refused w Hc H0)
      as (e & w1 & Hop & He & Hc1 & Hh1).
    destruct (retry_loop_step (connect_attempt listener) (connect_options config)
                0 w w1 attempt delay lastError e unix_connect_options_quiet Hop)
      as (delay' & pre & Heq & _).
    rewrite Heq. cbn [Retry.retry_loop fst snd]. rewrite Nat.add_0_r, He.
    repeat split; [lia | exact Hc1].
  - pose proof (Hall 0 (Nat.lt_0_succ _)) as H0. rewrite Nat.add_0_r in H0.
    destruct (unix_connect_attempt_refused w Hc H0)
      as (e & w1 & Hop & He & Hc1 & Hh1).
    destruct (retry_loop_step (connect_attempt listener) (connect_options config)
                (S n) w w1 attempt delay lastError e unix_connect_options_quiet Hop)
      as (delay' & pre & Heq & _).
    rewrite Heq.
    destruct (IH w1 (attempt + 1)%Z delay' (Some e) Hc1) as (Hr & Hh & Hcn).
    { intros i Hi. rewrite Hh1. replace (S (handshakes_made w) + i)
        with (handshakes_made w + S i) by lia. apply Hall. lia. }
    destruct (Retry.retry_loop (connect_attempt listener) (connect_options config)
                (S n) w1 (attempt + 1)%Z delay' (Some e)) as [[r w2] tr].
    cbn [fst snd] in *. rewrite Hr, Hh, Hh1.
    replace (S (handshakes_made w) + n) with (handshakes_made w + S n) by lia.
    repeat split; [lia | exact Hcn].
Qed.

(** What a call of the connection attempt establishes when it resolves. *)
Lemma unix_connect_attempt_outcome (base : nat) (w0 : world)
    (a : Retry.answer unit) (w1 : world) :
  base <= sockets_made w0 ->
  connect_attempt listener w0 = (a, w1) ->
  match a with
  | Retry.Resolves _ =>
      connected (client w1) = true
      /\ socket (client w1) = Some (pred (sockets_made w1))
      /\ base < sockets_made w1
  | _ => base <= sockets_made w1
  end.
Proof.
  intros Hle Hop. unfold connect_attempt in Hop.
  destruct (listener (handshakes_made w0)).
  - injection Hop as <- <-. simpl. repeat split. lia.
  - injection Hop as <- <-. simpl. lia.
  - destruct (connected (client (open_socket w0)));
      injection Hop as <- <-; simpl; lia.
  - injection Hop as <- <-. simpl. lia.
Qed.

End UnixConnectProperties.

(** X18. [UnixSocketClient.connect]: when it returns, the instance is
    connected and holds the socket created last; against a listener that
    accepts none of the [retryAttempts >= 1] attempts, on an instance that
    is not connected, it rejects after exactly [retryAttempts] attempts
    with the error of the last one (what [net.connect] itself throws is
    passed on as it is, not wrapped in a [VsocketError]), and the instance
    is not connected. *)
Theorem X18_unix_connect_outcome (listener : nat -> Wire.handshake)
    (config : Wire.VsockConfig) (w : UnixSocketClient.world) :
  let w' := snd (UnixSocketClient.connect listener config w) in
  (fst (UnixSocketClient.connect listener config w) = JS.Returned tt ->
   UnixSocketClient.connected (UnixSocketClient.client w') = true
   /\ UnixSocketClient.socket (UnixSocketClient.client w')
      = Some (pred (UnixSocketClient.sockets_made w'))
   /\ UnixSocketClient.sockets_made w < UnixSocketClient.sockets_made w')
  /\ ((1 <= Wire.retryAttempts config)%Z ->
      UnixSocketClient.connected (UnixSocketClient.client w) = false ->
      (forall i, i < Z.to_nat (Wire.retryAttempts config) ->
                 Connection.refuses
                   (listener (UnixSocketClient.handshakes_made w + i)) = true) ->
      fst (UnixSocketClient.connect listener config w)
      = JS.Thrown
          (Connection.unix_refusal
             (listener (UnixSocketClient.handshakes_made w
                        + pred (Z.to_nat (Wire.retryAttempts config)))))
      /\ UnixSocketClient.handshakes_made w'
         = UnixSocketClient.handshakes_made w
           + Z.to_nat (Wire.retryAttempts config)
      /\ UnixSocketClient.connected (UnixSocketClient.client w') = false).
Proof.
  intros w'. subst w'. split.
  - intros Hret.
    pose proof (retry_loop_outcome (UnixSocketClient.connect_attempt listener)
                  (Wire.connect_options config)
                  (fun w0 => UnixSocketClient.sockets_made w
                             <= UnixSocketClient.sockets_made w0)
                  (fun w1 =>
                     UnixSocketClient.connected (UnixSocketClient.client w1) = true
                     /\ UnixSocketClient.socket (UnixSocketClient.client w1)
                        = Some (pred (UnixSocketClient.sockets_made w1))
                     /\ UnixSocketClient.sockets_made w
                        < UnixSocketClient.sockets_made w1)
                  (fun w0 a w1 =>
                     unix_connect_attempt_outcome listener
                       (UnixSocketClient.sockets_made w) w0 a w1)
                  (Z.to_nat (Retry.maxAttempts (Wire.connect_options config)))
                  w 1%Z (Retry.delayMs (Wire.connect_options config)) None
                  (le_n _)) as Hout.
    unfold UnixSocketClient.connect, Retry.retryWithBackoff in *.
    rewrite Hret in Hout. exact Hout.
  - intros Hn Hc Hall.
    unfold UnixSocketClient.connect, Retry.retryWithBackoff.
    cbn [Wire.connect_options Retry.maxAttempts Retry.delayMs].
    destruct (Z.to_nat (Wire.retryAttempts config)) as [|k] eqn:Hk; [lia|].
    exact (unix_connect_loop_refused listener config k w 1%Z
             (Wire.retryDelayMs config) None Hc Hall).
Qed.

(* ================================================================== *)
(** * More properties of the L3 clients and of the routes               *)
(* ================================================================== *)

Section QueryProperties.
Import JS L3 L3Query.
Variable net : network.
Variable config : L3Config.
Variable id : string.

Local Abbreviation get := (query_request config id).
Local Abbreviation ask := (query_endpoint net config id).

(** A body gives no status when it is [null] or [undefined], or when one
    of the two counts that are logged cannot be printed. *)
Lemma read_status_fails (data : jsval) :
  (exists err, read_status data = inl err)
  <-> data = JNull
      \/ data = JUndefined
      \/ exists fields,
           data = JObject fields
           /\ (printable (lookup_field "guardians_verified" fields) = false
               \/ printable (lookup_field "total_guardians" fields) = false).
Proof.
  unfold read_status, to_primitive. split.
  - intros [err Herr].
    destruct data as [| |b|z|s|items|fields]; cbn [get_prop] in Herr;
      try (now left); try (right; now left); try discriminate.
    right. right. exists fields. split; [reflexivity|].
    destruct (printable (lookup_field "guardians_verified" fields));
      [|now left].
    destruct (printable (lookup_field "total_guardians" fields));
      [discriminate | now right].
  - intros [->|[->|(fields & -> & Hbad)]].
    + eexists. reflexivity.
    + eexists. reflexivity.
    + cbn [get_prop].
      destruct (printable (lookup_field "guardians_verified" fields)) eqn:Hv.
      * destruct Hbad as [Hbad|Hbad]; [discriminate|]. rewrite Hbad.
        eexists. reflexivity.
      * eexists. reflexivity.
Qed.

Lemma read_status_object (fields : list (string * jsval)) :
  printable (lookup_field "guardians_verified" fields) = true ->
  printable (lookup_field "total_guardians" fields) = true ->
  read_status (JObject fields)
  = inr {| attestationId := lookup_field "attestation_id" fields;
           status := lookup_field "status" fields;
           guardiansVerified := lookup_field "guardians_verified" fields;
           totalGuardians := lookup_field "total_guardians" fields |}.
Proof.
  intros Hv Ht. unfold read_status, to_primitive. cbn [get_prop].
  now rewrite Hv, Ht.
Qed.

(** How the [try] block for one endpoint ends, read off the reply. *)
Lemma query_endpoint_ends (sent : nat) (endpoint : string) :
  match ask sent endpoint with
  | Returned st =>
      (0 <= timeoutMs config)%Z
      /\ exists code data,
           net sent (get endpoint) = Response code data
           /\ (200 <= code < 300)%N
           /\ read_status data = inr st
  | Thrown reason =>
      reason <> None /\ no_status (timeoutMs config) (net sent (get endpoint))
  | Pending =>
      net sent (get endpoint) = TimedOut /\ timeoutMs config = 0%Z
  end.
Proof.
  unfold query_endpoint, axios, no_status. cbv zeta.
  change (rq_timeout (get endpoint)) with (timeoutMs config).
  destruct (timeoutMs config <? 0)%Z eqn:Hneg;
    [apply Z.ltb_lt in Hneg | apply Z.ltb_ge in Hneg].
  { split; [discriminate | now left]. }
  destruct (net sent (get endpoint)) as [msg| |code data].
  - split; [discriminate | now right].
  - destruct (timeoutMs config =? 0)%Z eqn:Hzero.
    + apply Z.eqb_eq in Hzero. now split.
    + apply Z.eqb_neq in Hzero. split; [discriminate | now right].
  - destruct ((200 <=? code)%N && (code <? 300)%N) eqn:Hcode.
    + apply andb_prop in Hcode as [Hlo Hhi].
      apply N.leb_le in Hlo. apply N.ltb_lt in Hhi. cbv beta iota.
      pose proof (read_status_fails data) as [Hthere _].
      destruct (read_status data) as [err|st] eqn:Hread.
      * split; [discriminate|]. right. right. apply Hthere. now exists err.
      * split; [exact Hneg|]. exists code, data.
        split; [reflexivity|]. split; [split; assumption | exact Hread].
    + split; [discriminate|]. right. left. intros [Hlo Hhi].
      apply N.leb_le in Hlo. apply N.ltb_lt in Hhi. now rewrite Hlo, Hhi in Hcode.
Qed.

(** A readable body in a 2xx reply is returned. *)
Lemma query_endpoint_answers (sent : nat) (endpoint : string) (code : N)
    (data : jsval) (st : ConsensusStatus) :
  (0 <= timeoutMs config)%Z ->
  net sent (get endpoint) = Response code data ->
  (200 <= code < 300)%N ->
  read_status data = inr st ->
  ask sent endpoint = Returned st.
Proof.
  intros Hlimit Hreply [Hlo Hhi] Hread. unfold query_endpoint, axios. cbv zeta.
  change (rq_timeout (get endpoint)) with (timeoutMs config).
  apply Z.ltb_ge in Hlimit. apply N.leb_le in Hlo. apply N.ltb_lt in Hhi.
  rewrite Hlimit, Hreply, Hlo, Hhi. cbn [andb]. cbv beta iota. now rewrite Hread.
Qed.

(** How the loop ends, read off the replies. *)
Lemma query_loop_run (eps : list string) :
  forall sent,
    match fst (query_loop net config id eps sent) with
    | Returned st =>
        exists before endpoint after code data,
          eps = before ++ endpoint :: after
          /\ (forall i e, nth_error before i = Some e ->
                no_status (timeoutMs config) (net (sent + i) (get e)))
          /\ (0 <= timeoutMs config)%Z
          /\ net (sent + List.length before) (get endpoint) = Response code data
          /\ (200 <= code < 300)%N
          /\ read_status data = inr st
          /\ snd (query_loop net config id eps sent)
             = map get (before ++ [endpoint])
    | Thrown reason =>
        reason
        = Some (L3Error "Failed to query consensus status from all guardians")
        /\ (forall i e, nth_error eps i = Some e ->
              no_status (timeoutMs config) (net (sent + i) (get e)))
        /\ snd (query_loop net config id eps sent) = map get eps
    | Pending =>
        exists before endpoint after,
          eps = before ++ endpoint :: after
          /\ (forall i e, nth_error before i = Some e ->
                no_status (timeoutMs config) (net (sent + i) (get e)))
          /\ net (sent + List.length before) (get endpoint) = TimedOut
          /\ timeoutMs config = 0%Z
          /\ snd (query_loop net config id eps sent)
             = map get (before ++ [endpoint])
    end.
Proof.
  induction eps as [|endpoint rest IH]; intros sent.
  - simpl. repeat split. intros [|i] e H; discriminate.
  - cbn [query_loop]. cbv zeta.
    pose proof (query_endpoint_ends sent endpoint) as Hend.
    destruct (ask sent endpoint) as [st|[err|]|].
    + destruct Hend as (Hlimit & code & data & Hreply & Hcode & Hread).
      cbn [fst snd]. exists [], endpoint, rest, code, data.
      split; [reflexivity|]. split; [intros [|i] e H; discriminate|].
      split; [exact Hlimit|]. rewrite Nat.add_0_r.
      repeat split; try assumption; apply Hcode.
    + destruct Hend as [_ Hbad]. specialize (IH (S sent)).
      assert (Hshift : forall (l : list string),
                (forall i e, nth_error l i = Some e ->
                   no_status (timeoutMs config) (net (S sent + i) (get e))) ->
                forall i e, nth_error (endpoint :: l) i = Some e ->
                   no_status (timeoutMs config) (net (sent + i) (get e))).
      { intros l Hl [|i] e Hi; simpl in Hi.
        - injection Hi as <-. now rewrite Nat.add_0_r.
        - replace (sent + S i) with (S sent + i) by lia. now apply Hl. }
      destruct (query_loop net config id rest (S sent)) as [[st|reason|] tr];
        cbn [fst snd] in *.
      * destruct IH as (before & ep & after & code & data & Heps & Hfail & Hlimit
                        & Hreply & Hcode & Hread & Htr).
        exists (endpoint :: before), ep, after, code, data.
        split; [now rewrite Heps|]. split; [now apply Hshift|].
        split; [exact Hlimit|]. cbn [List.length].
        replace (sent + S (List.length before))
          with (S sent + List.length before) by lia.
        repeat split; try assumption; try apply Hcode. simpl. now rewrite Htr.
      * destruct IH as (Hreason & Hfail & Htr). split; [exact Hreason|].
        split; [now apply Hshift|]. simpl. now rewrite Htr.
      * destruct IH as (before & ep & after & Heps & Hfail & Hreply & Hzero & Htr).
        exists (endpoint :: before), ep, after.
        split; [now rewrite Heps|]. split; [now apply Hshift|].
        cbn [List.length].
        replace (sent + S (List.length before))
          with (S sent + List.length before) by lia.
        repeat split; try assumption. simpl. now rewrite Htr.
    + destruct Hend as [Hnone _]. now contradiction Hnone.
    + destruct Hend as [Hreply Hzero]. cbn [fst snd].
      exists [], endpoint, rest. split; [reflexivity|].
      split; [intros [|i] e H; discriminate|]. rewrite Nat.add_0_r.
      repeat split; assumption.
Qed.

End QueryProperties.

(** X19. [queryConsensusStatus] of the client for many endpoints asks the
    endpoints in list order, one GET of
    [endpoint/attestation/status/id] each with the time limit configured,
    and stops at the first that answers with a 2xx status and a body it
    can read, returning the status read from that body (its four fields,
    when the body is an object); when no endpoint gives a status (none is
    asked for an empty list) it has asked all of them and throws an
    [L3Error] whose message is always the same: the errors of the
    endpoints are logged and dropped.  It stays pending exactly when an
    endpoint, reached after the ones before gave no status, does not
    answer and the time limit configured is 0, which means none. *)
Theorem X19_query_failover (net : L3.network) (config : L3.L3Config) (id : string) :
  let get := fun endpoint =>
    {| L3.rq_method := L3.GET;
       L3.rq_url := endpoint ^^ "/attestation/status/" ^^ id;
       L3.rq_body := None;
       L3.rq_timeout := L3.timeoutMs config;
       L3.rq_headers := [] |} in
  match fst (L3Query.queryConsensusStatus net config id) with
  | JS.Returned st =>
      exists before endpoint after code data,
        L3.endpoints config = before ++ endpoint :: after
        /\ (forall i e, nth_error before i = Some e ->
              L3Query.no_status (L3.timeoutMs config) (net i (get e)))
        /\ (0 <= L3.timeoutMs config)%Z
        /\ net (List.length before) (get endpoint) = L3.Response code data
        /\ (200 <= code < 300)%N
        /\ L3Query.read_status data = inr st
        /\ (forall fields,
              data = JS.JObject fields ->
              st = {| L3Query.attestationId :=
                        JS.lookup_field "attestation_id" fields;
                      L3Query.status := JS.lookup_field "status" fields;
                      L3Query.guardiansVerified :=
                        JS.lookup_field "guardians_verified" fields;
                      L3Query.totalGuardians :=
                        JS.lookup_field "total_guardians" fields |})
        /\ snd (L3Query.queryConsensusStatus net config id)
           = map get (before ++ [endpoint])
  | JS.Thrown reason =>
      reason
      = Some (JS.L3Error "Failed to query consensus status from all guardians")
      /\ (forall i e, nth_error (L3.endpoints config) i = Some e ->
            L3Query.no_status (L3.timeoutMs config) (net i (get e)))
      /\ snd (L3Query.queryConsensusStatus net config id)
         = map get (L3.endpoints config)
  | JS.Pending =>
      exists before endpoint after,
        L3.endpoints config = before ++ endpoint :: after
        /\ (forall i e, nth_error before i = Some e ->
              L3Query.no_status (L3.timeoutMs config) (net i (get e)))
        /\ net (List.length before) (get endpoint) = L3.TimedOut
        /\ L3.timeoutMs config = 0%Z
        /\ snd (L3Query.queryConsensusStatus net config id)
           = map get (before ++ [endpoint])
  end.
Proof.
  intros get. change get with (L3Query.query_request config id). clear get.
  pose proof (query_loop_run net config id (L3.endpoints config) 0) as Hrun.
  unfold L3Query.queryConsensusStatus.
  destruct (fst (L3Query.query_loop net config id (L3.endpoints config) 0))
    as [st|reason|]; [|exact Hrun|exact Hrun].
  destruct Hrun as (before & endpoint & after & code & data & Heps & Hfail & Hlimit
                    & Hreply & Hcode & Hread & Htr).
  exists before, endpoint, after, code, data.
  split; [exact Heps|]. split; [exact Hfail|]. split; [exact Hlimit|].
  split; [exact Hreply|]. split; [exact Hcode|]. split; [exact Hread|].
  split; [|exact Htr].
  intros fields ->.
  pose proof (read_status_fails (JS.JObject fields)) as [_ Hback].
  destruct (JS.printable (JS.lookup_field "guardians_verified" fields)) eqn:Hv.
  - destruct (JS.printable (JS.lookup_field "total_guardians" fields)) eqn:Ht.
    + rewrite (read_status_object fields Hv Ht) in Hread. now injection Hread.
    + destruct Hback as [err Herr];
        [right; right; exists fields; split; [reflexivity | now right]|].
      rewrite Herr in Hread. discriminate.
  - destruct Hback as [err Herr];
      [right; right; exists fields; split; [reflexivity | now left]|].
    rewrite Herr in Hread. discriminate.
Qed.

Section SingleEndpointProperties.
Import JS L3 L3Single.
Variable net : network.
Variable config : L3Config.
Variable payload : jsval.

Local Abbreviation attempt :=
  (fun i => try_endpoint net (request_config config) payload i (endpoint config)).

Lemma submit_world_after (n : nat) :
  forall sent,
    Retry.world_after (submit_attempt net config payload) n sent = sent + n.
Proof.
  induction n as [|n IH]; intros sent; simpl; [lia|]. rewrite IH. lia.
Qed.

Lemma submit_nth_answer (sent i : nat) :
  Retry.nth_answer (submit_attempt net config payload) sent i
  = match attempt (sent + i) with
    | Returned submission => Retry.Resolves submission
    | Thrown (Some error) =>
        Retry.Rejects (L3Error ("Failed to submit attestation: " ^^ message error))
    | Thrown None =>
        Retry.Rejects
          (TypeError "Cannot read properties of undefined (reading 'message')")
    | Pending => Retry.NeverSettles
    end.
Proof. unfold Retry.nth_answer. now rewrite submit_world_after. Qed.

End SingleEndpointProperties.

Section AttemptProperties.
Import JS L3.
Variable net : network.
Variable config : L3Config.
Variable payload : jsval.

Local Abbreviation post := (submit_request config payload).
Local Abbreviation attempt := (try_endpoint net config payload).

Lemma read_submission_object_inv (fields : list (string * jsval))
    (submission : AttestationSubmission) :
  read_submission (JObject fields) = inr submission ->
  submission
  = {| attestationId := lookup_field "attestation_id" fields;
       submissionTime := NewDate (lookup_field "submission_time" fields);
       status := lookup_field "status" fields |}.
Proof.
  unfold read_submission, new_Date, to_primitive. cbn [get_prop].
  destruct (printable (lookup_field "submission_time" fields)); [|discriminate].
  intros H. now injection H as <-.
Qed.

(** The error of an attempt that met a network error or a status that is
    not 2xx carries the network's message, or the one axios makes. *)
Lemma try_endpoint_network_error (sent : nat) (endpoint msg : string) (err : Error) :
  (0 <= timeoutMs config)%Z ->
  net sent (post endpoint) = NetworkError msg ->
  attempt sent endpoint = Thrown (Some err) ->
  message err = msg.
Proof.
  intros Hlimit Hreply. unfold try_endpoint, axios. cbv zeta.
  change (rq_timeout (post endpoint)) with (timeoutMs config).
  apply Z.ltb_ge in Hlimit. rewrite Hlimit, Hreply.
  intros H. now injection H as <-.
Qed.

Lemma try_endpoint_bad_status (sent : nat) (endpoint : string) (code : N)
    (data : jsval) (err : Error) :
  (0 <= timeoutMs config)%Z ->
  net sent (post endpoint) = Response code data ->
  ~ (200 <= code < 300)%N ->
  attempt sent endpoint = Thrown (Some err) ->
  message err = "Request failed with status code " ^^ decimal code.
Proof.
  intros Hlimit Hreply Hcode. unfold try_endpoint, axios. cbv zeta.
  change (rq_timeout (post endpoint)) with (timeoutMs config).
  apply Z.ltb_ge in Hlimit. rewrite Hlimit, Hreply.
  destruct ((200 <=? code)%N && (code <? 300)%N) eqn:Hok.
  - apply andb_prop in Hok as [Hlo Hhi].
    apply N.leb_le in Hlo. apply N.ltb_lt in Hhi. lia.
  - intros H. now injection H as <-.
Qed.

End AttemptProperties.

(** X20. [submitAttestation] of the client for one endpoint, with
    [retryAttempts >= 1]: what it hands to the network, up to
    [retryAttempts] times, is each time the POST of the bundle to
    [endpoint/attestation/submit] with the time limit configured; it waits
    1000 ms, 2000 ms, 4000 ms, ... between the posts; every post but the
    last got a reply of no use; it returns the submission read from the
    first 2xx response whose body can be read; when all [retryAttempts]
    posts fail it throws the [L3Error] made from the last failure,
    'Failed to submit attestation: ' followed by that failure's message
    (the network's, or the one axios makes for the status); and it stays
    pending exactly when a post gets no answer and the time limit
    configured is 0, which means none. *)
Theorem X20_single_endpoint_submit (net : L3.network) (config : L3Single.L3Config)
    (bundle : L3.AttestationBundle) :
  let post :=
    {| L3.rq_method := L3.POST;
       L3.rq_url := L3Single.endpoint config ^^ "/attestation/submit";
       L3.rq_body :=
         Some (JS.JObject
                 [ ("attestation_doc",
                     JS.JString (L3.base64 (L3.attestationDoc bundle)));
                   ("certificate_chain",
                     JS.JArray (map (fun cert => JS.JString (L3.base64 cert))
                                  (L3.certificateChain bundle)));
                   ("enclave_public_key", JS.JString (L3.enclavePublicKey bundle));
                   ("tapp_id", JS.JString (L3.tappId bundle)) ]);
       L3.rq_timeout := L3Single.timeoutMs config;
       L3.rq_headers := [("Content-Type", "application/json")] |} in
  (1 <= L3Single.retryAttempts config)%Z ->
  exists n,
    (Z.of_nat (S n) <= L3Single.retryAttempts config)%Z
    /\ snd (fst (L3Single.submitAttestation net config bundle)) = S n
    /\ Retry.invocations (snd (L3Single.submitAttestation net config bundle)) = S n
    /\ Retry.sleeps (snd (L3Single.submitAttestation net config bundle))
       = map (fun i => (1000 * 2 ^ Z.of_nat i)%Z) (seq 0 n)
    /\ (forall i, i < n -> L3.unusable (L3Single.timeoutMs config) (net i post))
    /\ match fst (fst (L3Single.submitAttestation net config bundle)) with
       | JS.Returned submission =>
           (0 <= L3Single.timeoutMs config)%Z
           /\ exists code data,
                net n post = L3.Response code data
                /\ (200 <= code < 300)%N
                /\ L3.read_submission data = inr submission
                /\ (forall fields,
                      data = JS.JObject fields ->
                      submission
                      = {| L3.attestationId :=
                             JS.lookup_field "attestation_id" fields;
                           L3.submissionTime :=
                             L3.NewDate (JS.lookup_field "submission_time" fields);
                           L3.status := JS.lookup_field "status" fields |})
       | JS.Thrown reason =>
           Z.of_nat (S n) = L3Single.retryAttempts config
           /\ L3.unusable (L3Single.timeoutMs config) (net n post)
           /\ exists err,
                L3.try_endpoint net (L3Single.request_config config)
                  (L3.submit_payload bundle) n (L3Single.endpoint config)
                = JS.Thrown (Some err)
                /\ reason
                   = Some (JS.L3Error ("Failed to submit attestation: "
                                        ^^ JS.message err))
                /\ ((0 <= L3Single.timeoutMs config)%Z ->
                    forall msg,
                      net n post = L3.NetworkError msg -> JS.message err = msg)
                /\ ((0 <= L3Single.timeoutMs config)%Z ->
                    forall code data,
                      net n post = L3.Response code data ->
                      ~ (200 <= code < 300)%N ->
                      JS.message err
                      = "Request failed with status code " ^^ L3.decimal code)
       | JS.Pending =>
           net n post = L3.TimedOut /\ L3Single.timeoutMs config = 0%Z
       end.
Proof.
  intros post.
  change post with (L3.submit_request (L3Single.request_config config)
                      (L3.submit_payload bundle) (L3Single.endpoint config)).
  clear post. intros Hmax.
  unfold L3Single.submitAttestation, Retry.retryWithBackoff.
  set (many := L3Single.request_config config).
  set (payload := L3.submit_payload bundle).
  set (ep := L3Single.endpoint config).
  change (L3Single.timeoutMs config) with (L3.timeoutMs many).
  set (op := L3Single.submit_attempt net config payload).
  set (opts := L3Single.submit_options config).
  assert (Hq : Retry.observer_quiet opts) by exact I.
  change (Retry.maxAttempts opts) with (L3Single.retryAttempts config).
  destruct (Z.to_nat (L3Single.retryAttempts config)) as [|k] eqn:Hk; [lia|].
  destruct (retry_loop_end op opts k 0 1%Z (Retry.delayMs opts) None Hq)
    as (n & Hn & Hfail & Hinv & Hworld & Hres).
  { change (Retry.maxAttempts opts) with (L3Single.retryAttempts config). lia. }
  destruct (retry_loop_trace op opts k 0 1%Z (Retry.delayMs opts) None Hq)
    as (errors & Hlen & _ & Htr).
  { lia. }
  { change (Retry.maxAttempts opts) with (L3Single.retryAttempts config). lia. }
  { simpl. lia. }
  assert (Herrors : List.length errors = n).
  { rewrite Htr, retried_invocations in Hinv. now injection Hinv. }
  exists n. split; [lia|]. split.
  { rewrite Hworld. unfold op. now rewrite submit_world_after. }
  split; [exact Hinv|]. split.
  { rewrite Htr, retried_sleeps, Herrors. apply map_ext. intros i.
    change (Retry.delayMs opts) with 1000%Z.
    change (Retry.backoffMultiplier opts) with 2%Z. do 2 f_equal. lia. }
  split.
  { intros i Hi. specialize (Hfail i Hi). unfold op in Hfail.
    rewrite submit_nth_answer in Hfail. cbn [Nat.add] in Hfail.
    apply try_endpoint_fails. fold many ep in Hfail.
    destruct (L3.try_endpoint net many payload i ep) as [submission|[err|]|] eqn:Htry;
      try contradiction; [now exists err|].
    now apply try_endpoint_throws_error in Htry. }
  unfold op in Hres. rewrite submit_nth_answer in Hres. cbn [Nat.add] in Hres.
  fold many ep in Hres.
  destruct (fst (fst (Retry.retry_loop _ opts (S k) 0 1%Z (Retry.delayMs opts) None)))
    as [submission|reason|].
  - destruct (L3.try_endpoint net many payload n ep) as [found|[err|]|] eqn:Htry;
      try discriminate.
    injection Hres as ->.
    apply try_endpoint_succeeds in Htry
      as (Hlimit & code & data & Hreply & Hcode & Hread).
    split; [exact Hlimit|]. exists code, data.
    split; [exact Hreply|]. split; [exact Hcode|]. split; [exact Hread|].
    intros fields ->. now apply read_submission_object_inv.
  - destruct Hres as (-> & e & Hrej & ->). split; [lia|].
    destruct (L3.try_endpoint net many payload k ep) as [found|[err|]|] eqn:Htry;
      try discriminate.
    + split; [apply try_endpoint_fails; now exists err|].
      exists err. split; [reflexivity|]. injection Hrej as <-.
      split; [reflexivity|]. split.
      * intros Hlimit msg Hreply.
        exact (try_endpoint_network_error net many payload k ep msg err
                 Hlimit Hreply Htry).
      * intros Hlimit code data Hreply Hcode.
        exact (try_endpoint_bad_status net many payload k ep code data err
                 Hlimit Hreply Hcode Htry).
    + now apply try_endpoint_throws_error in Htry.
  - destruct (L3.try_endpoint net many payload n ep) as [found|[err|]|] eqn:Htry;
      try discriminate.
    now apply try_endpoint_pending in Htry.
Qed.

(** X21. With [retryAttempts] zero or negative, which the configuration
    schema lets through, [submitAttestation] of the client for one endpoint
    sends nothing and rejects with [undefined]. *)
Theorem X21_single_endpoint_no_attempts (net : L3.network)
    (config : L3Single.L3Config) (bundle : L3.AttestationBundle) :
  (L3Single.retryAttempts config <= 0)%Z ->
  L3Single.submitAttestation net config bundle = (JS.Thrown None, 0, []).
Proof.
  intros Hmax. unfold L3Single.submitAttestation, Retry.retryWithBackoff.
  change (Retry.maxAttempts (L3Single.submit_options config))
    with (L3Single.retryAttempts config).
  destruct (Z.to_nat (L3Single.retryAttempts config)) eqn:Hk; [reflexivity | lia].
Qed.

(** X22. The health and status routes on top of the client for one
    endpoint: [checkHealth] never throws, so both routes always answer
    with status 200, never with 503, also when they report 'unhealthy';
    they report 'healthy' exactly when the socket client says it is
    connected and the L3 endpoint answered the probe with a 2xx status;
    the status route counts one reachable guardian in that case and none
    otherwise; the uptime is the whole seconds elapsed. *)
Theorem X22_health_routes_answer_200 {C : Type} {client : Wire.SocketClient C}
    (vsockClient : C) (net : L3.network) (config : L3Single.L3Config)
    (startTime now requestsProcessed : Z) :
  let l3Reachable :=
    L3.responds_ok (net 0 (L3.health_request (L3Single.endpoint config))) in
  let up := Routes.uptimeSeconds startTime now in
  exists health status,
    Routes.healthHandler vsockClient (fst (L3Single.checkHealth net config))
      startTime now
    = Some {| Routes.code := 200; Routes.body := JS.JObject health |}
    /\ Routes.statusHandler vsockClient (fst (L3Single.checkHealth net config))
         startTime now requestsProcessed
       = Some {| Routes.code := 200; Routes.body := JS.JObject status |}
    /\ JS.lookup_field "status" health
       = JS.JString (if Wire.isConnected vsockClient && l3Reachable
                     then "healthy" else "unhealthy")
    /\ JS.lookup_field "status" status = JS.lookup_field "status" health
    /\ JS.lookup_field "l3GuardiansReachable" status
       = JS.JNumber (if l3Reachable then 1 else 0)
    /\ JS.lookup_field "uptimeSeconds" health = JS.JNumber up
    /\ (1000 * up <= now - startTime < 1000 * up + 1000)%Z
    /\ snd (L3Single.checkHealth net config)
       = [L3.health_request (L3Single.endpoint config)].
Proof.
  intros l3Reachable up.
  unfold L3Single.checkHealth. cbn [fst snd].
  rewrite probe_responds_ok. unfold L3.healthy. cbn [fst snd].
  fold l3Reachable.
  unfold Routes.healthHandler, Routes.statusHandler.
  eexists _, _. split; [reflexivity|]. split; [reflexivity|].
  repeat split;
    try (subst up; unfold Routes.uptimeSeconds;
         zify; Z.to_euclidean_division_equations; lia).
Qed.


(* ================================================================== *)
(** * The further properties on the sample data                         *)
(* ================================================================== *)

Lemma X8_accepting_enclave_witness :
  VsocketClient.connected
    (VsocketClient.client
       (snd (VsocketClient.connect Sample.garbling_enclave Sample.vsock_config
               VsocketClient.start))) = true
  /\ VsocketClient.socket
       (VsocketClient.client
          (snd (VsocketClient.connect Sample.garbling_enclave Sample.vsock_config
                  VsocketClient.start)))
     = Some (pred (VsocketClient.sockets_made
                     (snd (VsocketClient.connect Sample.garbling_enclave
                             Sample.vsock_config VsocketClient.start)))).
Proof.
  pose proof (@X8_vsock_connect_outcome Sample.runtime Sample.garbling_enclave
                Sample.vsock_config VsocketClient.start) as H.
  cbv zeta in H. destruct H as [H _].
  destruct (H eq_refl) as (Hc & Hs & _). split; [exact Hc | exact Hs].
Defined.

Lemma X9_absent_enclave_witness :
  fst (VsocketClient.connect More.absent_enclave Sample.vsock_config
         VsocketClient.start)
  = JS.Thrown (Some (JS.VsocketError "Connection failed: ECONNREFUSED"))
  /\ VsocketClient.handshakes_made
       (snd (VsocketClient.connect More.absent_enclave Sample.vsock_config
               VsocketClient.start)) = 3.
Proof.
  destruct (@X9_vsock_connect_refused Sample.runtime More.absent_enclave
              Sample.vsock_config VsocketClient.start) as (Hr & Hh & _).
  - vm_compute. discriminate.
  - reflexivity.
  - intros i _. reflexivity.
  - split; [exact Hr | exact Hh].
Defined.


Lemma X11_flaky_socket_witness :
  fst (@VsocketClient.sendRequest Sample.runtime More.flaky_enclave
         Sample.vsock_config Sample.price_request More.connected_world)
  = JS.Returned Sample.price_response.
Proof.
  refine (f_equal fst
            (@X11_vsock_write_failure_recovery Sample.runtime More.flaky_enclave
               Sample.vsock_config Sample.price_request More.connected_world 0
               (Wire.frame_bytes (@Wire.serialize Sample.runtime Sample.price_request))
               More.response_payload Sample.price_response "EPIPE"
               _ _ _ _ _ _ _ _ _ _ _));
    try (vm_compute; reflexivity); vm_compute; discriminate.
Defined.

Lemma X13_absent_enclave_witness :
  fst (@VsocketClient.sendRequest Sample.runtime More.absent_enclave
         Sample.vsock_config Sample.price_request VsocketClient.start)
  = JS.Thrown (Some (JS.VsocketError "Connection failed: ECONNREFUSED"))
  /\ VsocketClient.writes_made
       (snd (@VsocketClient.sendRequest Sample.runtime More.absent_enclave
               Sample.vsock_config Sample.price_request VsocketClient.start))
     = 0.
Proof.
  destruct (@X13_vsock_request_without_connection Sample.runtime
              More.absent_enclave Sample.vsock_config Sample.price_request
              VsocketClient.start) as (Hr & _ & Hw & _).
  - vm_compute. discriminate.
  - reflexivity.
  - intros i _. reflexivity.
  - split; [exact Hr | exact Hw].
Defined.


Lemma X15_cut_off_stream_witness :
  fst (fst (@UnixRequests.sendRequest Sample.runtime More.writable
              More.one_gibibyte Sample.price_request More.unix_connected
              More.cut_off))
  = JS.Pending.
Proof.
  destruct (@X15_unix_request_never_times_out Sample.runtime More.writable
              More.one_gibibyte Sample.price_request More.unix_connected
              More.cut_off 0 More.response_payload
              (skipn 10 Sample.response_frame)) as (Hrun & _);
    [try (vm_compute; reflexivity) .. |].
  - vm_compute. discriminate.
  - exact Hrun.
Defined.

Lemma X16_broken_pipe_witness :
  fst (fst (@UnixRequests.sendRequest Sample.runtime More.broken_pipe
              More.one_gibibyte Sample.price_request More.unix_connected
              More.answering))
  = JS.Thrown (Some (JS.VsocketError "Write failed: EPIPE")).
Proof.
  destruct (@X16_unix_write_failure_surfaces Sample.runtime More.broken_pipe
              More.one_gibibyte Sample.price_request More.unix_connected
              More.answering 0 "EPIPE") as (Hfirst & _);
    [vm_compute; reflexivity .. |].
  rewrite (Hfirst eq_refl). reflexivity.
Defined.

Lemma X17_fresh_instance_witness :
  UnixSocketClient.reachable UnixSocketClient.start
  /\ @UnixRequests.sendRequest Sample.runtime More.writable More.one_gibibyte
       Sample.price_request (UnixSocketClient.client UnixSocketClient.start)
       More.answering
     = (JS.Thrown (Some (JS.VsocketError "Not connected to enclave")),
        More.answering, []).
Proof.
  split; [exact UnixSocketClient.reach_start|].
  destruct (@X17_unix_request_needs_connection Sample.runtime More.writable
              More.one_gibibyte Sample.price_request UnixSocketClient.start
              More.answering UnixSocketClient.reach_start) as (Hoff & _).
  exact (Hoff eq_refl).
Defined.

Lemma X18_refusing_listener_witness :
  fst (UnixSocketClient.connect More.refusing Sample.vsock_config
         UnixSocketClient.start)
  = JS.Thrown (Some (JS.VsocketError "Connection failed: ECONNREFUSED"))
  /\ UnixSocketClient.handshakes_made
       (snd (UnixSocketClient.connect More.refusing Sample.vsock_config
               UnixSocketClient.start)) = 3.
Proof.
  pose proof (X18_unix_connect_outcome More.refusing Sample.vsock_config
                UnixSocketClient.start) as H.
  cbv zeta in H. destruct H as [_ H].
  destruct H as (Hr & Hh & _).
  - vm_compute. discriminate.
  - reflexivity.
  - intros i _. reflexivity.
  - split; [exact Hr | exact Hh].
Defined.

Lemma X19_all_down_witness :
  fst (L3Query.queryConsensusStatus Sample.all_down Sample.three_guardians "att-1")
  = JS.Thrown
      (Some (JS.L3Error "Failed to query consensus status from all guardians"))
  /\ List.length
       (snd (L3Query.queryConsensusStatus Sample.all_down Sample.three_guardians
               "att-1")) = 3.
Proof.
  pose proof (X19_query_failover Sample.all_down Sample.three_guardians "att-1")
    as H.
  cbv zeta in H.
  change (fst (L3Query.queryConsensusStatus Sample.all_down Sample.three_guardians
                 "att-1"))
    with (@JS.Thrown L3Query.ConsensusStatus
            (Some (JS.L3Error "Failed to query consensus status from all guardians")))
    in H.
  destruct H as (_ & _ & Htr). split; [reflexivity|]. now rewrite Htr.
Defined.

Lemma X20_guardian_down_witness :
  snd (fst (L3Single.submitAttestation Sample.all_down More.one_guardian
              Sample.bundle)) = 3
  /\ Retry.sleeps (snd (L3Single.submitAttestation Sample.all_down
                          More.one_guardian Sample.bundle))
     = [1000; 2000]%Z.
Proof.
  pose proof (X20_single_endpoint_submit Sample.all_down More.one_guardian
                Sample.bundle) as H.
  cbv zeta in H.
  destruct H as (n & _ & Hsent & _ & Hsleeps & _ & Hend).
  - vm_compute. discriminate.
  - change (fst (fst (L3Single.submitAttestation Sample.all_down More.one_guardian
                        Sample.bundle)))
      with (@JS.Thrown L3.AttestationSubmission
              (Some (JS.L3Error
                       "Failed to submit attestation: Request failed with status code 500")))
      in Hend.
    destruct Hend as (Hn & _).
    change (L3Single.retryAttempts More.one_guardian) with 3%Z in Hn.
    assert (Htwo : n = 2) by lia. rewrite Htwo in Hsent, Hsleeps.
    split; [exact Hsent | exact Hsleeps].
Defined.

Lemma X21_no_retries_witness :
  L3Single.submitAttestation Sample.all_down More.no_retries Sample.bundle
  = (JS.Thrown None, 0, []).
Proof.
  apply (X21_single_endpoint_no_attempts Sample.all_down More.no_retries
           Sample.bundle).
  vm_compute. discriminate.
Defined.

Lemma X23_other_promise_witness :
  @VsocketClient.settlement 1
    (snd (@VsocketClient.deliver Sample.runtime Sample.awaiting
            (Sample.in_threes Sample.response_frame))) = None.
Proof.
  destruct (@X23_overwritten_promise_is_lost Sample.runtime
              (Sample.in_threes Sample.response_frame) 1 Sample.awaiting)
    as [Hnone _].
  - discriminate.
  - exact Hnone.
Defined.

